(** * Surname extractor (app.py): matching engine and batch aggregation

    A shallow embedding of the core of [app.py]: text normalisation, the
    target set, the column detector, the row matcher, and the loop that
    aggregates matches over the uploaded files and removes duplicate rows.

    Conventions of the embedding.
    - A Python [str] is a [string]; a character is a code point in the range
      0..255, with Python's whitespace and case tables on that range.
    - A [Set[str]] is a [gset string].
    - A pandas table is a [DataFrame]: column headers (name and dtype) and
      rows of cells; a cell is text, an integer or a missing value, and in
      the master table also a float with an integer value.
    - The pandas readers and the regular-expression engine are library code:
      they are parameters of the sections that use them.
    - Code that can raise returns an [outcome]; the streams of the uploaded
      files are threaded explicitly. *)

From Stdlib Require Import Ascii String ZArith Lia.
From stdpp Require Import base decidable option list gmap strings pretty.

Local Open Scope string_scope.
Local Open Scope list_scope.

(** ** Text *)

Module Text.

(** [str.isspace] on code points 0..255: TAB..CR, FS..US, space, NEL, NBSP.
    The class [\s] of [re] on [str] patterns is the same set. *)
Definition is_space (c : ascii) : bool :=
  let n := nat_of_ascii c in
  (((9 <=? n) && (n <=? 13)) || ((28 <=? n) && (n <=? 32))
   || (n =? 133) || (n =? 160))%nat.

(** The code points 0..255 that [str.lower] changes: A-Z and the Latin-1
    capitals other than the multiplication sign. *)
Definition is_upper (c : ascii) : bool :=
  let n := nat_of_ascii c in
  (((65 <=? n) && (n <=? 90)) || ((192 <=? n) && (n <=? 214))
   || ((216 <=? n) && (n <=? 222)))%nat.

Definition lower_char (c : ascii) : ascii :=
  if is_upper c then ascii_of_nat (nat_of_ascii c + 32) else c.

(** [s.lower()] *)
Fixpoint lower (s : string) : string :=
  match s with
  | EmptyString => EmptyString
  | String c s' => String (lower_char c) (lower s')
  end.

(** [s.lstrip()], [s.rstrip()], [s.strip()] *)
Fixpoint lstrip (s : string) : string :=
  match s with
  | EmptyString => EmptyString
  | String c s' => if is_space c then lstrip s' else s
  end.

Fixpoint rstrip (s : string) : string :=
  match s with
  | EmptyString => EmptyString
  | String c s' =>
      match rstrip s' with
      | EmptyString => if is_space c then EmptyString else String c EmptyString
      | r => String c r
      end
  end.

Definition strip (s : string) : string := rstrip (lstrip s).

(** Truth value of a [str]: non-empty. *)
Definition truthy (s : string) : bool :=
  match s with EmptyString => false | _ => true end.

(** Every character of [s] satisfies [p]. *)
Fixpoint all_chars (p : ascii -> bool) (s : string) : bool :=
  match s with
  | EmptyString => true
  | String c s' => p c && all_chars p s'
  end.

(** First and last character, when there is one. *)
Definition first_char (s : string) : option ascii :=
  match s with EmptyString => None | String c _ => Some c end.

Fixpoint last_char (s : string) : option ascii :=
  match s with
  | EmptyString => None
  | String c EmptyString => Some c
  | String _ s' => last_char s'
  end.

(** No whitespace at either end. *)
Definition no_outer_space (s : string) : Prop :=
  (forall c, first_char s = Some c -> is_space c = false) /\
  (forall c, last_char s = Some c -> is_space c = false).

End Text.

Import Text.

(** ** Target set *)

(** [surnames_set]: [set([s.strip().lower() for s in surnames
    if s and str(s).strip()])]. *)
Definition surnames_set (surnames : list string) : gset string :=
  list_to_set
    ((fun s => lower (strip s)) <$>
     filter (fun s => (truthy s && truthy (strip s)) = true) surnames).

(** The page's own normalisation of the loaded list (line 76):
    [list(dict.fromkeys([s.strip() for s in surnames_list if s.strip()]))]. *)
Fixpoint dict_fromkeys_aux (seen : list string) (l : list string) : list string :=
  match l with
  | [] => []
  | x :: l' =>
      if decide (x ∈ seen) then dict_fromkeys_aux seen l'
      else x :: dict_fromkeys_aux (x :: seen) l'
  end.

Definition dict_fromkeys (l : list string) : list string := dict_fromkeys_aux [] l.

Definition normalize_surnames_list (surnames_list : list string) : list string :=
  dict_fromkeys
    (strip <$> filter (fun s => truthy (strip s) = true) surnames_list).

(** ** Reading the surnames *)

(** The line boundaries of [str.splitlines] on code points 0..255: LF, VT,
    FF, CR, FS, GS, RS and NEL. *)
Definition is_linebreak (c : ascii) : bool :=
  let n := nat_of_ascii c in
  (((10 <=? n) && (n <=? 13)) || ((28 <=? n) && (n <=? 30)) || (n =? 133))%nat.

(** [s.splitlines()]: the lines without their ends; CR LF is one boundary
    ([after_cr] says that the character before was a CR), and a text that
    ends with a boundary has no empty line after it. *)
Fixpoint splitlines_from (after_cr : bool) (s : string) : list string :=
  match s with
  | EmptyString => []
  | String c s' =>
      if after_cr && Ascii.eqb c "010" then splitlines_from false s'
      else if is_linebreak c then
        EmptyString :: splitlines_from (Ascii.eqb c "013") s'
      else
        match splitlines_from false s' with
        | t :: ts => String c t :: ts
        | [] => [String c EmptyString]
        end
  end.

Definition splitlines (s : string) : list string := splitlines_from false s.

(** [s.replace(a, b)] for single characters *)
Fixpoint replace_char (a b : ascii) (s : string) : string :=
  match s with
  | EmptyString => EmptyString
  | String c s' => String (if Ascii.eqb c a then b else c) (replace_char a b s')
  end.

(** The entries of a text of surnames, as the page reads a pasted text and a
    text file (lines 54 and 69):
    [[s.strip() for s in text.replace(',', '\n').splitlines() if s.strip()]]. *)
Definition surname_items (text : string) : list string :=
  strip <$>
  filter (fun s => truthy (strip s) = true) (splitlines (replace_char "," "010" text)).

(** [sep.join(l)] *)
Fixpoint join_with (sep : string) (l : list string) : string :=
  match l with
  | [] => EmptyString
  | [x] => x
  | x :: l' => (x ++ sep ++ join_with sep l')%string
  end.

(** ** Exceptions *)

(** A computation that returns a value or raises an exception carrying a
    message. *)
Inductive outcome (A : Type) : Type :=
  | Ok (a : A)
  | Raise (msg : string).
Arguments Ok {A} a.
Arguments Raise {A} msg.

#[global] Instance outcome_ret : MRet outcome := fun A a => Ok a.
#[global] Instance outcome_bind : MBind outcome := fun A B f m =>
  match m with
  | Ok a => f a
  | Raise msg => Raise msg
  end.

(** A loop that threads an accumulator and stops at the first exception. *)
Fixpoint foldM_outcome {A B : Type} (f : A -> B -> outcome A) (a : A) (l : list B)
  : outcome A :=
  match l with
  | [] => Ok a
  | x :: l' => a' ← f a x; foldM_outcome f a' l'
  end.

(** ** Cells and data frames *)

(** A cell of a table: text, an integer, a missing value (NaN), or a
    floating point number whose value is an integer (the cell holds that
    value). Such floats are what [pd.concat] makes of the integers of a
    column that becomes float64, and they stand in float64 columns; in the
    tables that the readers give, floating point values other than NaN are
    outside the embedding. *)
Inductive cell : Type :=
  | CText (s : string)
  | CInt (z : Z)
  | CFloat (z : Z)
  | CMissing.

#[global] Instance cell_eq_dec : EqDecision cell.
Proof. solve_decision. Defined.

(** [float(z)] as an integer: the float64 nearest to [z], a tie going to
    the even significand of 53 bits. Up to [2^53] every integer is its own
    float; the integers of an int64 column are below [2^63]. *)
Definition float_of_int (z : Z) : Z :=
  let a := Z.abs z in
  let bits := (Z.log2 a + 1)%Z in
  if (bits <=? 53)%Z then z
  else
    let shift := (bits - 53)%Z in
    let q := Z.shiftr a shift in
    let r := (a - Z.shiftl q shift)%Z in
    let half := Z.shiftl 1 (shift - 1) in
    let q' :=
      if ((half <? r) || ((r =? half) && Z.odd q))%Z then (q + 1)%Z else q in
    (Z.sgn z * Z.shiftl q' shift)%Z.

(** The decimal numbers with [n] significant digits just below and just
    above [a]: the one that reads back as the float [a], and the nearer one
    when both do. *)
Definition shortest_candidate (a : Z) (n : nat) : option Z :=
  let k := (Z.of_nat (String.length (pretty a)) - Z.of_nat n)%Z in
  let lo := (a - a mod 10 ^ k)%Z in
  let hi := (lo + 10 ^ k)%Z in
  match (float_of_int lo =? a)%Z, (float_of_int hi =? a)%Z with
  | true, true => Some (if (a - lo <=? hi - a)%Z then lo else hi)
  | true, false => Some lo
  | false, true => Some hi
  | false, false => None
  end.

(** The decimal number with the fewest significant digits that reads back
    as the float [a], for [a] of at least 17 digits; 17 digits always do. *)
Definition shortest_decimal (a : Z) : Z :=
  default a (head (omap (shortest_candidate a) (seq 1 17))).

(** [d] without the zeros at its end. *)
Fixpoint strip_zeros (fuel : nat) (d : Z) : Z :=
  match fuel with
  | O => d
  | S fuel' =>
      if ((0 <? d) && (d mod 10 =? 0))%Z then strip_zeros fuel' (d / 10)%Z else d
  end.

(** [repr(x)], which is [str(x)], for a float [x] with the integer value
    [z]: the digits of [z] and [.0] below [1e16]; from there on the
    shortest digits that read back as [x], with the point after the first
    digit and the exponent. *)
Definition float_repr (z : Z) : string :=
  let a := Z.abs z in
  if (a <? 10 ^ 16)%Z then (pretty z ++ ".0")%string
  else
    let d := shortest_decimal a in
    let e := (Z.of_nat (String.length (pretty d)) - 1)%Z in
    ((if (z <? 0)%Z then "-" else "")
     ++ match pretty (strip_zeros 400 d) with
        | String c EmptyString => String c EmptyString
        | String c rest => String c ("." ++ rest)
        | EmptyString => EmptyString
        end
     ++ "e+" ++ pretty e)%string.

(** [str(x)] *)
Definition py_str (x : cell) : string :=
  match x with
  | CText s => s
  | CInt z => pretty z
  | CFloat z => float_repr z
  | CMissing => "nan"
  end.

(** The value that [Series.fillna("")] puts for [x]. *)
Definition fillna_empty (x : cell) : cell :=
  match x with
  | CMissing => CText ""
  | _ => x
  end.

(** The dtype of a column, as the reader of the file decided it. *)
Inductive dtype : Type := dt_object | dt_string | dt_int64 | dt_float64.

#[global] Instance dtype_eq_dec : EqDecision dtype.
Proof. solve_decision. Defined.

(** A [pandas.DataFrame]: the headers in column order and the rows in index
    order; a row has one cell per column. The readers give every column of
    a table its own name. *)
Record DataFrame : Type := {
  df_columns : list (string * dtype);
  df_rows : list (list cell)
}.

(** [pd.DataFrame()] *)
Definition empty_frame : DataFrame := {| df_columns := []; df_rows := [] |}.

(** [df.columns] as a list of names *)
Definition column_names (df : DataFrame) : list string := fst <$> df_columns df.

(** [df.empty]: some axis has length 0. *)
Definition df_empty (df : DataFrame) : bool :=
  match df_columns df, df_rows df with
  | [], _ | _, [] => true
  | _, _ => false
  end.

(** [len(df)] *)
Definition df_len (df : DataFrame) : nat := length (df_rows df).

(** Position of the first occurrence of [x] in [l]: [l.index(x)]. *)
Definition index_of (x : string) (l : list string) : option nat :=
  fst <$> list_find (fun y => y = x) l.

(** The cell of [row] under the column named [col]. *)
Definition row_cell (df : DataFrame) (col : string) (row : list cell) : cell :=
  match index_of col (column_names df) with
  | Some i => default CMissing (row !! i)
  | None => CMissing
  end.

(** [df[col]] as the list of its values *)
Definition get_column (df : DataFrame) (col : string) : list cell :=
  row_cell df col <$> df_rows df.

(** [df.select_dtypes(include=[object, "string"]).columns.tolist()] *)
Definition is_text_dtype (d : dtype) : bool :=
  match d with
  | dt_object | dt_string => true
  | _ => false
  end.

Definition select_text_columns (df : DataFrame) : list string :=
  fst <$> filter (fun h => is_text_dtype h.2 = true) (df_columns df).

(** [df[mask]]: the rows whose entry in the boolean mask is true. *)
Definition df_filter (df : DataFrame) (mask : list bool) : DataFrame :=
  {| df_columns := df_columns df;
     df_rows := fst <$> filter (fun rm => rm.2 = true) (zip (df_rows df) mask) |}.

(** [df.head(n)] *)
Definition df_head (n : nat) (df : DataFrame) : DataFrame :=
  {| df_columns := df_columns df; df_rows := take n (df_rows df) |}.

(** [df[name] = value] with a string scalar: every row gets the value in
    that column, which is replaced where it stands if the frame has it and
    is added as the last column otherwise. *)
Definition set_column (name : string) (value : string) (df : DataFrame) : DataFrame :=
  match index_of name (column_names df) with
  | Some i =>
      {| df_columns := <[i := (name, dt_object)]> (df_columns df);
         df_rows := (fun row => <[i := CText value]> row) <$> df_rows df |}
  | None =>
      {| df_columns := df_columns df ++ [(name, dt_object)];
         df_rows := (fun row => row ++ [CText value]) <$> df_rows df |}
  end.

(** What [df[name] = value] does to one row. *)
Definition set_row (name : string) (value : string) (df : DataFrame)
    (row : list cell) : list cell :=
  match index_of name (column_names df) with
  | Some i => <[i := CText value]> row
  | None => row ++ [CText value]
  end.

(** The rows of a frame have one cell per column, as in every frame that
    pandas builds. *)
Definition well_formed (df : DataFrame) : Prop :=
  Forall (fun row => length row = length (df_columns df)) (df_rows df).

(** The dtype of the column [c] of a frame that has it. *)
Definition column_dtype (df : DataFrame) (c : string) : option dtype :=
  (fun r => r.2.2) <$> list_find (fun h : string * dtype => h.1 = c) (df_columns df).

Definition is_numeric_dtype (d : dtype) : bool :=
  match d with
  | dt_int64 | dt_float64 => true
  | _ => false
  end.

(** The dtype that [pd.concat] gives a column, from the dtypes [ds] under
    which the frames hold it and from whether some frame lacks it (and gets
    missing values there): int64 stays only when every frame has the column
    as int64; numbers are float64 otherwise, since int64 holds no missing
    value; a string column holds missing values as it is; every other
    mixture is object. *)
Definition common_dtype (ds : list dtype) (lacking : bool) : dtype :=
  if forallb (fun d => bool_decide (d = dt_int64)) ds then
    if lacking then dt_float64 else dt_int64
  else if forallb is_numeric_dtype ds then dt_float64
  else if forallb (fun d => bool_decide (d = dt_string)) ds then dt_string
  else dt_object.

Definition concat_dtype (frames : list DataFrame) (c : string) : dtype :=
  common_dtype (omap (fun df => column_dtype df c) frames)
    (existsb (fun df => bool_decide (c ∉ column_names df)) frames).

(** What a cell becomes in a column of dtype [d] of the result: when the
    column is float64, its integers are converted to floats, [42] to [42.0],
    and an integer that float64 does not hold to the nearest one that it
    holds. Nothing else changes. *)
Definition upcast_cell (d : dtype) (x : cell) : cell :=
  match d, x with
  | dt_float64, CInt z => CFloat (float_of_int z)
  | _, _ => x
  end.

(** [pd.concat(frames, ignore_index=True)]: the columns are the union of
    the frames' columns in order of first appearance, each with its common
    dtype; a row has its cells under the names of its frame's columns,
    converted to the dtype of the result, and missing values under the
    other names. *)
Definition union_columns (frames : list DataFrame) : list (string * dtype) :=
  foldl (fun acc df =>
           acc ++ filter (fun h => h.1 ∉ (fst <$> acc)) (df_columns df))
        [] frames.

Definition concat_columns (frames : list DataFrame) : list (string * dtype) :=
  (fun h : string * dtype => (h.1, concat_dtype frames h.1)) <$> union_columns frames.

Definition reindex_row (df : DataFrame) (cols : list (string * dtype))
    (row : list cell) : list cell :=
  (fun h : string * dtype => upcast_cell h.2 (row_cell df h.1 row)) <$> cols.

Definition concat (frames : list DataFrame) : DataFrame :=
  let cols := concat_columns frames in
  {| df_columns := cols;
     df_rows := frames ≫= (fun df => reindex_row df cols <$> df_rows df) |}.

(** [df.drop_duplicates()] (keep the first): a row is dropped when an equal
    row was seen before it. Cells are equal as values of Python when they
    are equal cells, as long as no column holds an integer and the float of
    the same value; no column of the tables built here does. *)
Fixpoint drop_seen {A : Type} `{EqDecision A} (seen : list A) (l : list A) : list A :=
  match l with
  | [] => []
  | x :: l' =>
      if decide (x ∈ seen) then drop_seen seen l'
      else x :: drop_seen (x :: seen) l'
  end.

Definition drop_duplicates (df : DataFrame) : DataFrame :=
  {| df_columns := df_columns df; df_rows := drop_seen [] (df_rows df) |}.

(** ** Normalisation of cells *)

(** [normalize_text]: [str(x).strip().lower()]; [str] does not raise on a
    cell, so the handler that returns the empty string is never taken. *)
Definition normalize_text (x : cell) : string := lower (strip (py_str x)).

(** The separators of [last_name_token]: the class [[\s,;/\\]]. *)
Definition is_sep (c : ascii) : bool :=
  is_space c
  || Ascii.eqb c "," || Ascii.eqb c ";" || Ascii.eqb c "/" || Ascii.eqb c "\".

(** [re.split] with a pattern that is one or more characters of the class
    [p]: the pieces between the maximal runs, with an empty piece where the
    text starts or ends with a run. *)
Fixpoint re_split_class (p : ascii -> bool) (s : string) : list string :=
  match s with
  | EmptyString => [EmptyString]
  | String c s' =>
      let r := re_split_class p s' in
      if p c then
        match s' with
        | String d _ => if p d then r else EmptyString :: r
        | EmptyString => EmptyString :: r
        end
      else
        match r with
        | t :: ts => String c t :: ts
        | [] => [String c EmptyString]
        end
  end.

(** [last_name_token]: a value that is not a [str] goes through [str]; the
    stripped text is split, the empty pieces are dropped and the last piece
    is lower-cased. *)
Definition last_name_token (x : cell) : string :=
  let text := py_str x in
  let tokens := re_split_class is_sep (strip text) in
  let tokens := filter (fun t => truthy t = true) tokens in
  match last tokens with
  | Some t => lower t
  | None => ""
  end.

(** The pieces that [last_name_token] keeps. *)
Definition tokens (p : ascii -> bool) (s : string) : list string :=
  filter (fun t => truthy t = true) (re_split_class p s).

(** The final token in the words of the specification: [tok] is a
    non-empty run of characters that are not separators, nothing but
    separators follows it in [text], and it starts [text] or follows a
    separator. *)
Definition is_final_token (text tok : string) : Prop :=
  exists pre suf,
    text = (pre ++ tok ++ suf)%string
    /\ tok <> ""
    /\ all_chars (fun c => negb (is_sep c)) tok = true
    /\ all_chars is_sep suf = true
    /\ (pre = "" \/ exists c, last_char pre = Some c /\ is_sep c = true).

(** ** Column detector *)

Definition COMMON_SURNAME_COLS : list string :=
  [ "surname"; "last_name"; "last name"; "lastname"; "family_name";
    "family name"; "familyname"; "lname"; "sur_name"; "sirname"; "surnames";
    "last"; "lastname"; "name_last"; "family" ].

(** One turn of the loop of [detect_surname_columns]. [list.index] cannot
    fail after the membership test, and the index it gives is in range. *)
Definition detect_step (columns df_cols : list string)
    (cols : list string) (candidate : string) : list string :=
  if bool_decide (candidate ∈ df_cols) then
    match index_of candidate df_cols with
    | Some idx =>
        match columns !! idx with
        | Some c => cols ++ [c]
        | None => cols
        end
    | None => cols
    end
  else cols.

(** The detector over any list of candidates. *)
Definition detect_columns_with (candidates : list string) (columns : list string)
  : list string :=
  let df_cols := lower <$> columns in
  foldl (detect_step columns df_cols) [] candidates.

Definition detect_surname_columns (df : DataFrame) : list string :=
  detect_columns_with COMMON_SURNAME_COLS (column_names df).

(** The column that a candidate stands for: the first one whose lower-cased
    name is the candidate. *)
Definition column_for (columns : list string) (candidate : string) : option string :=
  idx ← index_of candidate (lower <$> columns); columns !! idx.

(** ** Regular expressions *)

(** The engine behind [Series.str.contains(pat)], whose [regex] argument
    is left at its default [True]: pandas compiles the pattern with
    [re.compile], which raises on a malformed pattern, and tests every value
    with [search]. *)
Class RegexEngine : Type := {
  regex : Type;
  re_compile : string -> outcome regex;
  re_search : regex -> string -> bool
}.

(** [t in s] for strings: [t] occurs in [s] as a literal substring. *)
Fixpoint starts_with (t s : string) : bool :=
  match t, s with
  | EmptyString, _ => true
  | String a t', String b s' => Ascii.eqb a b && starts_with t' s'
  | String _ _, EmptyString => false
  end.

Fixpoint contains_literal (t s : string) : bool :=
  starts_with t s ||
  match s with
  | EmptyString => false
  | String _ s' => contains_literal t s'
  end.

Module Fragment.

(** Reference semantics of [re] on the patterns written with ordinary
    characters and the dot: a character other than the special ones
    [. ^ $ * + ? { } [ ] \ | ( )] matches itself, and the dot matches any
    character but the newline. Other patterns are outside the fragment. *)
Inductive atom : Type :=
  | Lit (c : ascii)
  | AnyChar.

Definition is_special (c : ascii) : bool :=
  existsb (Ascii.eqb c)
    ["."; "^"; "$"; "*"; "+"; "?"; "{"; "}"; "["; "]"; "\"; "|"; "("; ")"]%char.

Fixpoint compile (pat : string) : option (list atom) :=
  match pat with
  | EmptyString => Some []
  | String c pat' =>
      atoms ← compile pat';
      if Ascii.eqb c "." then Some (AnyChar :: atoms)
      else if is_special c then None
      else Some (Lit c :: atoms)
  end.

Definition atom_matches (a : atom) (c : ascii) : bool :=
  match a with
  | Lit d => Ascii.eqb d c
  | AnyChar => negb (Ascii.eqb c "010")
  end.

Fixpoint match_here (atoms : list atom) (s : string) : bool :=
  match atoms, s with
  | [], _ => true
  | a :: atoms', String c s' => atom_matches a c && match_here atoms' s'
  | _ :: _, EmptyString => false
  end.

Fixpoint search (atoms : list atom) (s : string) : bool :=
  match_here atoms s ||
  match s with
  | EmptyString => false
  | String _ s' => search atoms s'
  end.

(** A pattern without special characters. *)
Definition plain (s : string) : bool := all_chars (fun c => negb (is_special c)) s.

(** An engine agrees with the reference on the fragment. *)
Definition agrees (E : RegexEngine) : Prop :=
  forall pat atoms, compile pat = Some atoms ->
    exists r, re_compile pat = Ok r /\ forall s, re_search r s = search atoms s.

(** The reference as an engine; a pattern outside the fragment is refused. *)
Definition engine : RegexEngine := {|
  regex := list atom;
  re_compile pat :=
    match compile pat with
    | Some atoms => Ok atoms
    | None => Raise "pattern outside the fragment"
    end;
  re_search := search
|}.

End Fragment.

(** ** Row matcher *)

(** The options of a run: [exact], [substring], [last_token_only]. *)
Record MatchModes : Type := {
  exact : bool;
  substring : bool;
  last_token_only : bool
}.

(** [m1 | m2] on boolean series over the same index *)
Definition mask_or (m1 m2 : list bool) : list bool := zip_with orb m1 m2.

(** [col_series.isin(surnames)] *)
Definition isin (col_series : list string) (surnames : gset string) : list bool :=
  (fun v => bool_decide (v ∈ surnames)) <$> col_series.

Section Matcher.

Context {E : RegexEngine}.

(** [col_series.str.contains(s, na=False)] *)
Definition str_contains (col_series : list string) (s : string) : outcome (list bool) :=
  r ← re_compile s;
  Ok (re_search r <$> col_series).

(** The loop over the targets in substring mode; the empty target is
    skipped. The set is visited in the order of [elements]. *)
Definition substring_step (col_series : list string)
    (mask : list bool) (s : string) : outcome (list bool) :=
  if negb (truthy s) then Ok mask
  else m ← str_contains col_series s; Ok (mask_or mask m).

(** The comparison strings of a column. *)
Definition comparison_series (df : DataFrame) (col : string) (last_token : bool)
  : list string :=
  let col_series := normalize_text <$> (fillna_empty <$> get_column df col) in
  if last_token then last_name_token <$> (fillna_empty <$> get_column df col)
  else col_series.

(** The body of the loop over the selected columns. *)
Definition column_step (df : DataFrame) (surnames : gset string) (modes : MatchModes)
    (mask : list bool) (col : string) : outcome (list bool) :=
  let col_series := comparison_series df col (last_token_only modes) in
  let mask := if exact modes then mask_or mask (isin col_series surnames) else mask in
  if substring modes then
    foldM_outcome (substring_step col_series) mask (elements surnames)
  else Ok mask.

(** The columns that are searched. *)
Definition text_cols (df : DataFrame) (search_columns : list string) : list string :=
  match search_columns with
  | [] => select_text_columns df
  | _ => filter (fun c => c ∈ column_names df) search_columns
  end.

Definition find_matches_in_dataframe (df : DataFrame) (search_columns : list string)
    (surnames : gset string) (modes : MatchModes) : outcome DataFrame :=
  if df_empty df then Ok empty_frame
  else
    let mask := replicate (df_len df) false in
    mask ← foldM_outcome (column_step df surnames modes) mask
             (text_cols df search_columns);
    Ok (df_filter df mask).

End Matcher.

(** ** Uploaded files and the pandas readers *)

(** An uploaded file: its name, its bytes and the position of its stream.
    Reading moves the position; only [seek(0)] moves it back. An upload
    always has a name, so the default of [getattr(f, "name", ...)] is not
    used. *)
Record UploadedFile : Type := {
  f_name : string;
  f_data : string;
  f_pos : nat
}.

Definition set_pos (p : nat) (f : UploadedFile) : UploadedFile :=
  {| f_name := f_name f; f_data := f_data f; f_pos := p |}.

(** [f.seek(0)] *)
Definition seek0 (f : UploadedFile) : UploadedFile := set_pos 0 f.

(** The readers of pandas, applied to the bytes of a stream and its
    position: each gives a table (or raises) and the position at which it
    leaves the stream.
    - [pd_read_csv nrows]: [pd.read_csv(f)], or [pd.read_csv(f, nrows=n)];
    - [pd_read_excel_all]: [pd.read_excel(f, sheet_name=None)], the sheets
      in workbook order;
    - [pd_read_excel]: [pd.read_excel(f)], the first sheet. *)
Class Readers : Type := {
  pd_read_csv : option nat -> string -> nat -> outcome DataFrame * nat;
  pd_read_excel_all :
    string -> nat -> outcome (list (string * option DataFrame)) * nat;
  pd_read_excel : string -> nat -> outcome DataFrame * nat
}.

(** [s.endswith(suffix)] *)
Fixpoint ends_with (suffix s : string) : bool :=
  String.eqb s suffix ||
  match s with
  | EmptyString => false
  | String _ s' => ends_with suffix s'
  end.

(** [fname.lower().endswith(".csv")] *)
Definition is_csv (fname : string) : bool := ends_with ".csv" (lower fname).

(** [s.split(sep)] for a separator of one character *)
Fixpoint split_char (sep : ascii) (s : string) : list string :=
  match s with
  | EmptyString => [EmptyString]
  | String c s' =>
      let r := split_char sep s' in
      if Ascii.eqb c sep then EmptyString :: r
      else
        match r with
        | t :: ts => String c t :: ts
        | [] => [String c EmptyString]
        end
  end.

(** [[c.strip() for c in search_cols_input.split(",") if c.strip()]] *)
Definition parse_search_columns (search_cols_input : string) : list string :=
  strip <$> filter (fun c => truthy (strip c) = true) (split_char "," search_cols_input).

(** ** What the page shows *)

(** The calls to [st.warning], [st.info], [st.error], [st.success] and to
    the progress bar, in the order the run makes them. *)
Inductive event : Type :=
  | WarningNoSurnames
  | SuccessLoaded (n : nat)
  | InfoMoreThan500
  | WarningTruncated
  | InfoProcessing (n : nat)
  | InfoAutoDetected (detected : list string)
  | ErrorFailed (fname : string) (e : string)
  | Progress (done total : nat)
  | SuccessFound (n checked : nat)
  | WarningNoMatches
  | InfoWaiting
  | WarningLoadSurnames
  | WarningUploadFiles.

(** The events that the loop over the files shows. *)
Definition loop_event (ev : event) : Prop :=
  match ev with
  | ErrorFailed _ _ | Progress _ _ => True
  | _ => False
  end.

(** ** The loop over the files *)

(** The variables the loop updates. *)
Record LoopState : Type := {
  results : list DataFrame;
  total_checked_rows : nat;
  log : list event
}.

Definition add_rows (n : nat) (st : LoopState) : LoopState :=
  {| results := results st;
     total_checked_rows := total_checked_rows st + n;
     log := log st |}.

Definition add_result (matched : DataFrame) (st : LoopState) : LoopState :=
  {| results := results st ++ [matched];
     total_checked_rows := total_checked_rows st;
     log := log st |}.

Definition add_event (e : event) (st : LoopState) : LoopState :=
  {| results := results st;
     total_checked_rows := total_checked_rows st;
     log := log st ++ [e] |}.

(** The state before the loop, and a state followed by what a piece of the
    loop adds to the empty one. *)
Definition empty_state : LoopState :=
  {| results := []; total_checked_rows := 0; log := [] |}.

Definition merge_state (st d : LoopState) : LoopState :=
  {| results := results st ++ results d;
     total_checked_rows := total_checked_rows st + total_checked_rows d;
     log := log st ++ log d |}.

(** What the turns of the loop show, from index [i] on, for files given
    with the message of the exception that ended their [try], if any: the
    error that names the file, then the progress bar. *)
Fixpoint turns_events (total i : nat) (turns : list (UploadedFile * option string))
  : list event :=
  match turns with
  | [] => []
  | (f, err) :: rest =>
      match err with
      | Some e => [ErrorFailed (f_name f) e]
      | None => []
      end
      ++ Progress (i + 1) total :: turns_events total (i + 1) rest
  end.

(** [sum(len(df) for df in frames)] *)
Definition total_rows (frames : list DataFrame) : nat :=
  foldr (fun df n => df_len df + n) 0 frames.

(** The two assignments that mark the matches of a table with the file and
    the sheet they come from:
    [matched["__source_file"] = fname; matched["__sheet_name"] = sheet_name]. *)
Definition stamp (fname sheet_name : string) (matched : DataFrame) : DataFrame :=
  set_column "__sheet_name" sheet_name (set_column "__source_file" fname matched).

Section Aggregator.

Context {E : RegexEngine} {R : Readers}.

Definition read_csv (nrows : option nat) (f : UploadedFile)
  : outcome DataFrame * UploadedFile :=
  let '(r, p) := pd_read_csv nrows (f_data f) (f_pos f) in (r, set_pos p f).

Definition read_excel_all (f : UploadedFile)
  : outcome (list (string * option DataFrame)) * UploadedFile :=
  let '(r, p) := pd_read_excel_all (f_data f) (f_pos f) in (r, set_pos p f).

Definition read_excel (f : UploadedFile) : outcome DataFrame * UploadedFile :=
  let '(r, p) := pd_read_excel (f_data f) (f_pos f) in (r, set_pos p f).

Variable search_columns : list string.
Variable TARGET_SURNAMES : gset string.
Variable modes : MatchModes.

(** The statements that count the rows of a table, match it and keep the
    stamped matches. The result is the state and the message of the
    exception that interrupted them, if one did: what was done before the
    exception stays done. *)
Definition scan_table (fname sheet_name : string) (df : DataFrame) (st : LoopState)
  : LoopState * option string :=
  let st := add_rows (df_len df) st in
  match find_matches_in_dataframe df search_columns TARGET_SURNAMES modes with
  | Raise e => (st, Some e)
  | Ok matched =>
      if negb (df_empty matched) then
        let matched := set_column "__source_file" fname matched in
        let matched := set_column "__sheet_name" sheet_name matched in
        (add_result matched st, None)
      else (st, None)
  end.

(** The loop over the sheets of a workbook. *)
Fixpoint scan_sheets (fname : string) (sheets : list (string * option DataFrame))
    (st : LoopState) : LoopState * option string :=
  match sheets with
  | [] => (st, None)
  | (sheet_name, None) :: rest => scan_sheets fname rest st
  | (sheet_name, Some df) :: rest =>
      if df_empty df then scan_sheets fname rest st
      else
        match scan_table fname sheet_name df st with
        | (st', Some e) => (st', Some e)
        | (st', None) => scan_sheets fname rest st'
        end
  end.

(** The sheets of a workbook: all of them, or after a failure the first
    sheet of the stream read again from its start, under the name Sheet1. *)
Definition read_sheets (f : UploadedFile)
  : outcome (list (string * option DataFrame)) * UploadedFile :=
  match read_excel_all f with
  | (Ok sheets, f1) => (Ok sheets, f1)
  | (Raise _, f1) =>
      match read_excel (seek0 f1) with
      | (Ok df, f2) => (Ok [("Sheet1", Some df)], f2)
      | (Raise e, f2) => (Raise e, f2)
      end
  end.

(** The body of the [try] for one file. *)
Definition try_file (f : UploadedFile) (st : LoopState)
  : UploadedFile * LoopState * option string :=
  let fname := f_name f in
  if is_csv fname then
    match read_csv None f with
    | (Raise e, f1) => (f1, st, Some e)
    | (Ok df, f1) =>
        let '(st', err) := scan_table fname "<csv>" df st in (f1, st', err)
    end
  else
    match read_sheets f with
    | (Raise e, f1) => (f1, st, Some e)
    | (Ok sheets, f1) =>
        let '(st', err) := scan_sheets fname sheets st in (f1, st', err)
    end.

(** The file cannot be parsed: the reader of its format raises [e]. *)
Definition parse_fails (f : UploadedFile) (e : string) : Prop :=
  if is_csv (f_name f) then (read_csv None f).1 = Raise e
  else (read_sheets f).1 = Raise e.

(** The readers give the table [df] for the file [f], and the loop takes it
    under the sheet name [sheet_name]: the table of a CSV file under the
    name <csv>; a sheet of a workbook under its own name; and, when the
    sheets of the workbook cannot be read, its first sheet, read from the
    start of the stream, under the name Sheet1. *)
Definition reads_table (f : UploadedFile) (sheet_name : string) (df : DataFrame)
  : Prop :=
  if is_csv (f_name f) then
    sheet_name = "<csv>" /\ (pd_read_csv None (f_data f) (f_pos f)).1 = Ok df
  else
    match pd_read_excel_all (f_data f) (f_pos f) with
    | (Ok sheets, _) => (sheet_name, Some df) ∈ sheets
    | (Raise _, _) =>
        sheet_name = "Sheet1" /\ (pd_read_excel (f_data f) 0).1 = Ok df
    end.

(** The frames of a workbook that the loop over the sheets does not skip. *)
Definition scanned_frames (sheets : list (string * option DataFrame))
  : list DataFrame :=
  omap (fun sheet : string * option DataFrame =>
          match sheet.2 with
          | Some df => if df_empty df then None else Some df
          | None => None
          end) sheets.

(** One turn of the loop: the [try], its handler, and the progress bar. *)
Definition process_file (total i : nat) (f : UploadedFile) (st : LoopState)
  : UploadedFile * LoopState :=
  let '(f', st', err) := try_file f st in
  let st' :=
    match err with
    | Some e => add_event (ErrorFailed (f_name f) e) st'
    | None => st'
    end in
  (f', add_event (Progress (i + 1) total) st').

(** [for i, f in enumerate(uploaded_files)], from index [i] on. *)
Fixpoint process_files (total i : nat) (files : list UploadedFile) (st : LoopState)
  : list UploadedFile * LoopState :=
  match files with
  | [] => ([], st)
  | f :: rest =>
      let '(f', st1) := process_file total i f st in
      let '(rest', st2) := process_files total (i + 1) rest st1 in
      (f' :: rest', st2)
  end.

End Aggregator.

(** ** The run *)

(** The result of a run: what was shown, the master table when there is
    one, and the uploaded files that were handed to the loop, with their
    streams as the run leaves them. *)
Record Output : Type := {
  out_log : list event;
  out_combined : option DataFrame;
  out_files : list UploadedFile
}.

(** A run shown after some earlier messages. *)
Definition prepend_log (shown : list event) (out : Output) : Output :=
  {| out_log := shown ++ out_log out;
     out_combined := out_combined out;
     out_files := out_files out |}.

Section Run.

Context {E : RegexEngine} {R : Readers}.

(** The first sheet with rows, cut to 50 rows. *)
Fixpoint first_nonempty_sheet (sheets : list (string * option DataFrame))
  : option DataFrame :=
  match sheets with
  | [] => None
  | (_, Some d) :: rest =>
      if negb (df_empty d) then Some (df_head 50 d) else first_nonempty_sheet rest
  | (_, None) :: rest => first_nonempty_sheet rest
  end.

(** The look into the first file: the sample table and the file as the look
    leaves it. The stream is put back to its start only in the handler. *)
Definition peek (first : UploadedFile) : DataFrame * UploadedFile :=
  let fname := f_name first in
  let '(r, first') :=
    if is_csv fname then read_csv (Some 50) first
    else
      match read_excel_all (seek0 first) with
      | (Ok sheets, f1) => (Ok (default empty_frame (first_nonempty_sheet sheets)), f1)
      | (Raise e, f1) => (Raise e, f1)
      end in
  match r with
  | Ok peek_df => (peek_df, first')
  | Raise _ => (empty_frame, seek0 first')
  end.

(** The look raises on the first file. *)
Definition peek_raises (first : UploadedFile) (e : string) : Prop :=
  if is_csv (f_name first)
  then (pd_read_csv (Some 50) (f_data first) (f_pos first)).1 = Raise e
  else (pd_read_excel_all (f_data first) 0).1 = Raise e.

(** The columns to search and the files after the optional look. *)
Definition choose_columns (search_columns : list string) (files : list UploadedFile)
    (shown : list event) : list string * list UploadedFile * list event :=
  match search_columns, files with
  | [], first :: rest =>
      let '(peek_df, first') := peek first in
      let detected :=
        if negb (df_empty peek_df) then detect_surname_columns peek_df else [] in
      match detected with
      | [] => ([], first' :: rest, shown)
      | _ => (detected, first' :: rest, shown ++ [InfoAutoDetected detected])
      end
  | _, _ => (search_columns, files, shown)
  end.

(** [uploaded_files[:100]] when more than 100 files were given. *)
Definition capped (uploaded_files : list UploadedFile) : list UploadedFile :=
  if (100 <? length uploaded_files)%nat then take 100 uploaded_files
  else uploaded_files.

(** What follows the loop: the master table, or the warning that nothing
    matched. The preview and the download buttons only show the table. *)
Definition finalize (loop_end : list UploadedFile * LoopState) : Output :=
  let '(files', st) := loop_end in
  match results st with
  | [] =>
      {| out_log := log st ++ [WarningNoMatches];
         out_combined := None;
         out_files := files' |}
  | _ =>
      let combined := drop_duplicates (concat (results st)) in
      {| out_log :=
           log st ++ [SuccessFound (df_len combined) (total_checked_rows st)];
         out_combined := Some combined;
         out_files := files' |}
  end.

(** The main processing (from [if uploaded_files and surnames_list] on). *)
Definition main_processing (surnames_list : list string)
    (uploaded_files : list UploadedFile) (search_cols_input : string)
    (modes : MatchModes) : Output :=
  let TARGET_SURNAMES := surnames_set surnames_list in
  match uploaded_files, surnames_list with
  | _ :: _, _ :: _ =>
      let shown :=
        if (100 <? length uploaded_files)%nat then [WarningTruncated] else [] in
      let uploaded_files := capped uploaded_files in
      let shown := shown ++ [InfoProcessing (length uploaded_files)] in
      let search_columns := parse_search_columns search_cols_input in
      let '(search_columns, uploaded_files, shown) :=
        choose_columns search_columns uploaded_files shown in
      finalize
        (process_files search_columns TARGET_SURNAMES modes
           (length uploaded_files) 0 uploaded_files
           {| results := []; total_checked_rows := 0; log := shown |})
  | [], [] =>
      {| out_log := [InfoWaiting]; out_combined := None; out_files := [] |}
  | _, [] =>
      {| out_log := [WarningLoadSurnames]; out_combined := None;
         out_files := uploaded_files |}
  | [], _ =>
      {| out_log := [WarningUploadFiles]; out_combined := None; out_files := [] |}
  end.

(** The run on a batch that is taken as it is, without the test of the
    lists and without the cap: the message before the loop, the choice of
    the columns, the loop from the empty state and what follows it. *)
Definition main_core (surnames_list : list string) (files : list UploadedFile)
    (search_cols_input : string) (modes : MatchModes) : Output :=
  let chosen := choose_columns (parse_search_columns search_cols_input) files [] in
  prepend_log (InfoProcessing (length files) :: chosen.2)
    (finalize
       (process_files chosen.1.1 (surnames_set surnames_list) modes
          (length chosen.1.2) 0 chosen.1.2 empty_state)).

(** The page from the loaded list on: the list is normalised when it is not
    empty, and the target set is built from it. *)
Definition app (loaded : list string) (uploaded_files : list UploadedFile)
    (search_cols_input : string) (modes : MatchModes) : Output :=
  let surnames_list :=
    match loaded with
    | [] => []
    | _ => normalize_surnames_list loaded
    end in
  let shown :=
    match loaded with
    | [] => [WarningNoSurnames]
    | _ =>
        SuccessLoaded (length surnames_list) ::
        (if (500 <? length surnames_list)%nat then [InfoMoreThan500] else [])
    end in
  prepend_log shown
    (main_processing surnames_list uploaded_files search_cols_input modes).

End Run.

(** ** The row matcher, row by row *)

Section MatcherRows.

Context {E : RegexEngine}.

(** The comparison string of a cell. *)
Definition comparison_string (last_token : bool) (x : cell) : string :=
  if last_token then last_name_token (fillna_empty x)
  else normalize_text (fillna_empty x).

(** The pattern [s] compiles and is found in [v]. *)
Definition pattern_hit (s v : string) : bool :=
  match re_compile s with
  | Ok r => re_search r v
  | Raise _ => false
  end.

(** The cell [x] of a selected column makes its row match. *)
Definition cell_hit (surnames : gset string) (modes : MatchModes) (x : cell) : bool :=
  let v := comparison_string (last_token_only modes) x in
  (exact modes && bool_decide (v ∈ surnames))
  || (substring modes
      && existsb (fun s => truthy s && pattern_hit s v) (elements surnames)).

(** Some selected column makes the row match. *)
Definition row_hit (df : DataFrame) (cols : list string) (surnames : gset string)
    (modes : MatchModes) (row : list cell) : bool :=
  existsb (fun col => cell_hit surnames modes (row_cell df col row)) cols.

(** Every non-empty target compiles. *)
Definition targets_compile (surnames : gset string) : Prop :=
  forall s, s ∈ surnames -> s <> "" -> exists r, re_compile s = Ok r.

End MatcherRows.

(** ** What it means that a file has been processed *)

(** The cell [y] holds what the cell [x] held: it is [x], or [x] is an
    integer and [y] is the float of it. *)
Definition cell_kept (x y : cell) : Prop :=
  y = x \/ exists z, x = CInt z /\ y = CFloat (float_of_int z).

(** The row [row] of the kept frame [m] stands in the master table: a row
    of the table holds its cells, column by column. *)
Definition row_in_master (combined m : DataFrame) (row : list cell) : Prop :=
  exists row',
    row' ∈ df_rows combined
    /\ forall c, cell_kept (row_cell m c row) (row_cell combined c row').

Section Processed.

Context {E : RegexEngine} {R : Readers}.

(** The matches of the table [df], which the loop took from the file named
    [fname] under the sheet name [sheet_name], are in the master table of
    the run: when the matcher returns matches that are not empty, there is
    a master table and it has every row of the marked matches. *)
Definition table_matched (out : Output) (cols : list string) (T : gset string)
    (modes : MatchModes) (fname sheet_name : string) (df : DataFrame) : Prop :=
  forall matched,
    find_matches_in_dataframe df cols T modes = Ok matched ->
    df_empty matched = false ->
    exists combined,
      out_combined out = Some combined
      /\ forall row, row ∈ df_rows (stamp fname sheet_name matched) ->
           row_in_master combined (stamp fname sheet_name matched) row.

(** When the matcher raises on the table [df], the run shows an error
    with the name of the file and the message of the exception. *)
Definition matcher_error_shown (out : Output) (cols : list string) (T : gset string)
    (modes : MatchModes) (fname : string) (df : DataFrame) : Prop :=
  forall e,
    find_matches_in_dataframe df cols T modes = Raise e ->
    ErrorFailed fname e ∈ out_log out.

(** When the matcher raises on the sheet [df] of a workbook, the run shows
    an error with the name of the file: the message is that of the first
    sheet on which the matcher raised. *)
Definition sheet_error_shown (out : Output) (cols : list string) (T : gset string)
    (modes : MatchModes) (fname : string) (df : DataFrame) : Prop :=
  forall e,
    find_matches_in_dataframe df cols T modes = Raise e ->
    exists e', ErrorFailed fname e' ∈ out_log out.

(** The file [g], which stands at index [k] of the batch when the loop
    starts, has been processed in the run that gave [out]: the run hands
    the file out with its stream where the reader left it; when the reader
    raised (for a workbook: both readers, the second from the start of the
    stream), an error with the name of the file and the message is shown;
    when the matcher raised on a table of the file, an error that names the
    file is shown, with the message of the exception that ended the turn;
    and the matches of the tables are in the master table
    (for the sheets of a workbook, when no target can make the matcher
    raise, since an exception ends the turn of the file). *)
Definition file_processed (out : Output) (cols : list string) (T : gset string)
    (modes : MatchModes) (k : nat) (g : UploadedFile) : Prop :=
  if is_csv (f_name g) then
    let '(r, p) := pd_read_csv None (f_data g) (f_pos g) in
    out_files out !! k = Some (set_pos p g)
    /\ match r with
       | Raise e => ErrorFailed (f_name g) e ∈ out_log out
       | Ok df =>
           matcher_error_shown out cols T modes (f_name g) df
           /\ table_matched out cols T modes (f_name g) "<csv>" df
       end
  else
    match pd_read_excel_all (f_data g) (f_pos g) with
    | (Ok sheets, p) =>
        out_files out !! k = Some (set_pos p g)
        /\ forall sheet_name df,
             (sheet_name, Some df) ∈ sheets ->
             sheet_error_shown out cols T modes (f_name g) df
             /\ (substring modes = false \/ targets_compile T ->
                 table_matched out cols T modes (f_name g) sheet_name df)
    | (Raise _, _) =>
        let '(r, p) := pd_read_excel (f_data g) 0 in
        out_files out !! k = Some (set_pos p g)
        /\ match r with
           | Raise e => ErrorFailed (f_name g) e ∈ out_log out
           | Ok df =>
               matcher_error_shown out cols T modes (f_name g) df
               /\ table_matched out cols T modes (f_name g) "Sheet1" df
           end
    end.

End Processed.

(** ** Sample data *)

Module Demo.

(** A table with one text column. *)
Definition names_frame (names : list string) : DataFrame :=
  {| df_columns := [("Name", dt_object)];
     df_rows := (fun n => [CText n]) <$> names |}.

Definition exact_only (last_token : bool) : MatchModes :=
  {| exact := true; substring := false; last_token_only := last_token |}.

Definition substring_only : MatchModes :=
  {| exact := false; substring := true; last_token_only := false |}.

End Demo.

(** ** Sample files and readers *)

Module DemoFiles.

(** The rest of a stream from position [p]. *)
Fixpoint from_pos (p : nat) (s : string) : string :=
  match p, s with
  | O, _ => s
  | S p', String _ s' => from_pos p' s'
  | S _, EmptyString => EmptyString
  end.

(** A reader for the sample files below, which hold words separated by
    commas: the first line holds the names of the columns, every other line
    is a row, and pandas reads such a file as a table of text cells whose
    columns are all of dtype object. The reader is a stand-in that the
    examples run on; it is not a model of [pd.read_csv] on other data
    (numbers, empty fields, quotes, rows of different lengths). Like pandas
    on a small stream it takes the whole rest of the stream, also when only
    [nrows] rows are asked for, and like pandas it raises (an
    [EmptyDataError], with this message) when nothing is left to read. *)
Definition parse_csv (nrows : option nat) (data : string) (pos : nat)
  : outcome DataFrame * nat :=
  let text := from_pos pos data in
  let stop := String.length data in
  match filter (fun l => truthy l = true) (split_char "010" text) with
  | [] => (Raise "No columns to parse from file", stop)
  | header :: lines =>
      let rows := (fun l => CText <$> split_char "," l) <$> lines in
      let rows := match nrows with Some n => take n rows | None => rows end in
      (Ok {| df_columns := (fun c => (c, dt_object)) <$> split_char "," header;
             df_rows := rows |},
       stop)
  end.

(** The examples have no workbook: both workbook readers raise. *)
#[export] Instance readers : Readers := {|
  pd_read_csv := parse_csv;
  pd_read_excel_all data pos := (Raise "File is not a workbook", String.length data);
  pd_read_excel data pos := (Raise "File is not a workbook", String.length data)
|}.

Definition upload (fname data : string) : UploadedFile :=
  {| f_name := fname; f_data := data; f_pos := 0 |}.

Definition newline : string := String "010" EmptyString.

Definition lines (ls : list string) : string :=
  foldr (fun l acc => (l ++ newline ++ acc)%string) EmptyString ls.

Definition file1 : UploadedFile :=
  upload "one.csv" (lines ["Name,City"; "John Smith,Leeds"; "Bob Park,York"]).

(** A file without a byte, which no reader can parse. *)
Definition file2 : UploadedFile := upload "two.csv" "".

Definition file3 : UploadedFile :=
  upload "three.csv" (lines ["Name,City"; "Ann Lee,Bath"]).

Definition surname_file : UploadedFile :=
  upload "people.csv" (lines ["Surname,City"; "Smith,Leeds"; "Park,York"]).

Definition last_token_substring : MatchModes :=
  {| exact := false; substring := true; last_token_only := true |}.

End DemoFiles.

(** * Properties *)

(** ** Facts about text *)

Section TextFacts.

Lemma is_space_lower_char c : is_space (lower_char c) = is_space c.
Proof.
  destruct c as [[] [] [] [] [] [] [] []]; reflexivity.
Qed.

Lemma is_upper_lower_char c : is_upper (lower_char c) = false.
Proof.
  destruct c as [[] [] [] [] [] [] [] []]; reflexivity.
Qed.

Lemma lower_char_idem c : lower_char (lower_char c) = lower_char c.
Proof.
  unfold lower_char at 1. now rewrite is_upper_lower_char.
Qed.

Lemma lower_idem s : lower (lower s) = lower s.
Proof.
  induction s as [|c s IH]; simpl; [reflexivity|].
  now rewrite lower_char_idem, IH.
Qed.

Lemma lower_no_upper s : all_chars (fun c => negb (is_upper c)) (lower s) = true.
Proof.
  induction s as [|c s IH]; simpl; [reflexivity|].
  now rewrite is_upper_lower_char, IH.
Qed.

Lemma lower_empty_iff s : lower s = "" <-> s = "".
Proof. destruct s; simpl; split; congruence. Qed.

Lemma truthy_true s : truthy s = true <-> s <> "".
Proof. destruct s; simpl; split; congruence. Qed.

Lemma first_char_lower s : first_char (lower s) = lower_char <$> first_char s.
Proof. destruct s; reflexivity. Qed.

Lemma last_char_lower s : last_char (lower s) = lower_char <$> last_char s.
Proof.
  induction s as [|c s IH]; [reflexivity|].
  simpl. destruct s as [|d s]; [reflexivity|].
  simpl in *. exact IH.
Qed.

Lemma first_char_lstrip s c : first_char (lstrip s) = Some c -> is_space c = false.
Proof.
  induction s as [|a s IH]; simpl; [discriminate|].
  destruct (is_space a) eqn:E; [exact IH|].
  simpl. intros [= <-]. exact E.
Qed.

Lemma rstrip_cons c s :
  rstrip (String c s) =
  match rstrip s with
  | EmptyString => if is_space c then EmptyString else String c EmptyString
  | r => String c r
  end.
Proof. reflexivity. Qed.

Lemma last_char_rstrip s c : last_char (rstrip s) = Some c -> is_space c = false.
Proof.
  induction s as [|a s IH]; [discriminate|].
  rewrite rstrip_cons. destruct (rstrip s) as [|b r] eqn:E.
  - destruct (is_space a) eqn:Ea; simpl; [discriminate|].
    intros [= <-]. exact Ea.
  - intros H. apply IH. exact H.
Qed.

Lemma first_char_rstrip s c :
  first_char s = Some c -> is_space c = false -> first_char (rstrip s) = Some c.
Proof.
  destruct s as [|a s]; [discriminate|].
  intros [= ->] Hc. rewrite rstrip_cons.
  destruct (rstrip s); [rewrite Hc|]; reflexivity.
Qed.

Lemma first_char_rstrip_inv s c :
  first_char (rstrip s) = Some c -> first_char s = Some c.
Proof.
  destruct s as [|a s]; [discriminate|].
  rewrite rstrip_cons. destruct (rstrip s).
  - destruct (is_space a); simpl; [discriminate|trivial].
  - trivial.
Qed.

Lemma strip_no_outer_space s : no_outer_space (strip s).
Proof.
  unfold strip. split; intros c H.
  - apply first_char_rstrip_inv in H. now apply first_char_lstrip in H.
  - now apply last_char_rstrip in H.
Qed.

Lemma lower_no_outer_space s : no_outer_space s -> no_outer_space (lower s).
Proof.
  intros [Hf Hl]. split; intros c.
  - rewrite first_char_lower. destruct (first_char s) as [d|]; [|discriminate].
    intros [= <-]. rewrite is_space_lower_char. now apply Hf.
  - rewrite last_char_lower. destruct (last_char s) as [d|]; [|discriminate].
    intros [= <-]. rewrite is_space_lower_char. now apply Hl.
Qed.

Lemma lstrip_id s :
  (forall c, first_char s = Some c -> is_space c = false) -> lstrip s = s.
Proof.
  destruct s as [|a s]; [reflexivity|].
  intros H. simpl. now rewrite (H a eq_refl).
Qed.

Lemma rstrip_id s :
  (forall c, last_char s = Some c -> is_space c = false) -> rstrip s = s.
Proof.
  induction s as [|a s IH]; [reflexivity|].
  intros H. rewrite rstrip_cons.
  destruct s as [|b s].
  - simpl. now rewrite (H a eq_refl).
  - rewrite IH; [reflexivity|]. intros c Hc. apply H. exact Hc.
Qed.

Lemma strip_id s : no_outer_space s -> strip s = s.
Proof.
  intros [Hf Hl]. unfold strip. rewrite lstrip_id by exact Hf.
  now apply rstrip_id.
Qed.

Lemma strip_idem s : strip (strip s) = strip s.
Proof. apply strip_id, strip_no_outer_space. Qed.

End TextFacts.

(** ** The target set is normalised *)

(** C5. For every raw list of targets, the set built by [surnames_set] has
    no duplicate member and no empty member, and every member is in lower
    case (lower-casing it again changes nothing and it has no capital
    letter) and has no whitespace at either end (stripping it again changes
    nothing). *)
Theorem surnames_set_normalised (surnames : list string) :
  NoDup (elements (surnames_set surnames)) /\
  ("" ∉ surnames_set surnames) /\
  forall m, m ∈ surnames_set surnames ->
    lower m = m /\
    all_chars (fun c => negb (is_upper c)) m = true /\
    strip m = m /\
    no_outer_space m.
Proof.
  split; [apply NoDup_elements|].
  assert (Hmem : forall m, m ∈ surnames_set surnames ->
            exists s, m = lower (strip s) /\ strip s <> "").
  { intros m Hm. unfold surnames_set in Hm.
    apply elem_of_list_to_set in Hm.
    apply list_elem_of_fmap in Hm as (s & -> & Hs).
    apply list_elem_of_filter in Hs as [Hs _].
    exists s. split; [reflexivity|].
    apply andb_prop in Hs as [_ Hs]. now apply truthy_true. }
  split.
  - intros Hin. destruct (Hmem _ Hin) as (s & Hs & Hne).
    symmetry in Hs. apply (proj1 (lower_empty_iff _)) in Hs. exact (Hne Hs).
  - intros m Hm. destruct (Hmem _ Hm) as (s & -> & _).
    assert (Hno : no_outer_space (lower (strip s)))
      by apply lower_no_outer_space, strip_no_outer_space.
    repeat split.
    + apply lower_idem.
    + apply lower_no_upper.
    + now apply strip_id.
    + apply Hno.
    + apply Hno.
Qed.

(** ** Facts about masks *)

Section MaskFacts.

Context {A : Type}.

Lemma mask_or_fmap (f g : A -> bool) (l : list A) :
  mask_or (f <$> l) (g <$> l) = (fun x => f x || g x) <$> l.
Proof.
  unfold mask_or. induction l as [|x l IH]; csimpl; [reflexivity|].
  f_equal. exact IH.
Qed.

Lemma replicate_false_fmap (l : list A) :
  replicate (length l) false = (fun _ => false) <$> l.
Proof.
  induction l as [|x l IH]; csimpl; [reflexivity|]. f_equal. exact IH.
Qed.

Lemma filter_zip_mask (f : A -> bool) (l : list A) :
  fst <$> filter (fun rm : A * bool => rm.2 = true) (zip l (f <$> l))
  = filter (fun x => f x = true) l.
Proof.
  induction l as [|x l IH]; [reflexivity|].
  cbn [fmap list_fmap zip zip_with]. rewrite !filter_cons. simpl.
  destruct (decide (f x = true)) as [Hx|Hx].
  - simpl. now rewrite <- IH.
  - exact IH.
Qed.

Lemma filter_none (P : A -> Prop) `{forall x, Decision (P x)} (l : list A) :
  (forall x, x ∈ l -> ~ P x) -> filter P l = [].
Proof.
  induction l as [|x l IH]; intros HP; [reflexivity|].
  rewrite filter_cons. destruct (decide (P x)) as [Hx|_].
  - exfalso. apply (HP x); [left | exact Hx].
  - apply IH. intros y Hy. apply HP. now right.
Qed.

End MaskFacts.

(** ** The row matcher selects the rows that hit *)

Section MatcherFacts.

Context {E : RegexEngine}.

Lemma frame_eq (a b : DataFrame) :
  df_columns a = df_columns b -> df_rows a = df_rows b -> a = b.
Proof. destruct a, b. cbn. now intros -> ->. Qed.

Lemma comparison_series_fmap df col lt :
  comparison_series df col lt
  = (fun row => comparison_string lt (row_cell df col row)) <$> df_rows df.
Proof.
  unfold comparison_series, get_column, comparison_string.
  destruct lt; rewrite <- !list_fmap_compose; reflexivity.
Qed.

Lemma substring_step_spec {A : Type} (g : A -> string) (rows : list A)
    (f : A -> bool) s mask' :
  substring_step (g <$> rows) (f <$> rows) s = Ok mask' ->
  mask' = (fun row => f row || (truthy s && pattern_hit s (g row))) <$> rows.
Proof.
  unfold substring_step, str_contains, pattern_hit.
  destruct (truthy s); cbn [negb].
  - destruct (re_compile s) as [rx|msg]; cbn; [|discriminate].
    intros [= <-]. now rewrite <- list_fmap_compose, mask_or_fmap.
  - intros [= <-]. apply list_fmap_ext. intros _ x _. cbn.
    now rewrite orb_false_r.
Qed.

Lemma substring_step_total (col_series : list string) mask s :
  (s <> "" -> exists r, re_compile s = Ok r) ->
  exists mask', substring_step col_series mask s = Ok mask'.
Proof.
  intros H. unfold substring_step, str_contains.
  destruct (truthy s) eqn:Hs; cbn [negb]; [|eauto].
  destruct H as [rx ->]; [now apply truthy_true|]. cbn. eauto.
Qed.

Lemma substring_loop_spec {A : Type} (g : A -> string) (rows : list A) targets :
  forall (f : A -> bool) mask',
  foldM_outcome (substring_step (g <$> rows)) (f <$> rows) targets = Ok mask' ->
  mask' = (fun row =>
             f row || existsb (fun s => truthy s && pattern_hit s (g row)) targets)
          <$> rows.
Proof.
  induction targets as [|s targets IH]; intros f mask' H.
  - simpl in H. injection H as <-. apply list_fmap_ext. intros _ x _.
    simpl. now rewrite orb_false_r.
  - cbn [foldM_outcome] in H.
    destruct (substring_step (g <$> rows) (f <$> rows) s) as [mask1|msg] eqn:H1;
      cbn in H; [|discriminate H].
    apply substring_step_spec in H1. subst mask1.
    apply IH in H. rewrite H. apply list_fmap_ext. intros _ x _.
    cbn [existsb]. now rewrite orb_assoc.
Qed.

Lemma substring_loop_total (col_series : list string) targets :
  (forall s, s ∈ targets -> s <> "" -> exists r, re_compile s = Ok r) ->
  forall mask, exists mask',
    foldM_outcome (substring_step col_series) mask targets = Ok mask'.
Proof.
  induction targets as [|s targets IH]; intros Hc mask.
  - now exists mask.
  - cbn [foldM_outcome].
    destruct (substring_step_total col_series mask s) as [mask1 ->].
    { apply Hc. left. }
    cbn. apply IH. intros t Ht. apply Hc. now right.
Qed.

Lemma column_step_spec df surnames modes (f : list cell -> bool) col mask' :
  column_step df surnames modes (f <$> df_rows df) col = Ok mask' ->
  mask' = (fun row => f row || cell_hit surnames modes (row_cell df col row))
          <$> df_rows df.
Proof.
  unfold column_step, cell_hit. rewrite comparison_series_fmap.
  set (g := fun row => comparison_string (last_token_only modes) (row_cell df col row)).
  unfold isin. rewrite <- list_fmap_compose, mask_or_fmap.
  destruct (exact modes), (substring modes); cbn [andb orb]; intros H.
  - apply substring_loop_spec in H. rewrite H. apply list_fmap_ext.
    intros _ x _. cbn. now rewrite orb_assoc.
  - injection H as <-. apply list_fmap_ext. intros _ x _. cbn.
    now rewrite orb_false_r.
  - apply substring_loop_spec in H. exact H.
  - injection H as <-. apply list_fmap_ext. intros _ x _.
    now rewrite orb_false_r.
Qed.

Lemma column_step_total df surnames modes mask col :
  substring modes = false \/ targets_compile surnames ->
  exists mask', column_step df surnames modes mask col = Ok mask'.
Proof.
  intros H. unfold column_step.
  destruct (substring modes) eqn:Hsub; [|eauto].
  destruct H as [H|H]; [discriminate|].
  apply substring_loop_total. intros s Hs. apply H.
  now apply elem_of_elements.
Qed.

Lemma column_loop_spec df surnames modes cols :
  forall (f : list cell -> bool) mask',
  foldM_outcome (column_step df surnames modes) (f <$> df_rows df) cols = Ok mask' ->
  mask' = (fun row => f row || row_hit df cols surnames modes row) <$> df_rows df.
Proof.
  induction cols as [|col cols IH]; intros f mask' H.
  - injection H as <-. apply list_fmap_ext. intros _ x _. cbn.
    now rewrite orb_false_r.
  - cbn [foldM_outcome] in H.
    destruct (column_step df surnames modes (f <$> df_rows df) col)
      as [mask1|msg] eqn:H1; cbn in H; [|discriminate H].
    apply column_step_spec in H1. subst mask1.
    apply IH in H. rewrite H. apply list_fmap_ext. intros _ x _.
    unfold row_hit. cbn [existsb]. now rewrite orb_assoc.
Qed.

Lemma column_loop_total df surnames modes cols :
  substring modes = false \/ targets_compile surnames ->
  forall mask, exists mask',
    foldM_outcome (column_step df surnames modes) mask cols = Ok mask'.
Proof.
  intros H. induction cols as [|col cols IH]; intros mask; [now exists mask|].
  cbn [foldM_outcome].
  destruct (column_step_total df surnames modes mask col H) as [mask1 ->].
  cbn. apply IH.
Qed.

(** The rows that the matcher returns are the rows of the table that hit,
    in the order of the table. *)
Lemma find_matches_rows df search_columns surnames modes out :
  find_matches_in_dataframe df search_columns surnames modes = Ok out ->
  df_rows out
  = filter (fun row =>
              row_hit df (text_cols df search_columns) surnames modes row = true)
           (df_rows df).
Proof.
  unfold find_matches_in_dataframe.
  destruct (df_empty df) eqn:He.
  - intros [= <-]. cbn. unfold df_empty in He.
    destruct (df_rows df) as [|row rows] eqn:Hr; [reflexivity|].
    destruct (df_columns df) as [|h hs] eqn:Hc; [|discriminate].
    assert (Hcols : text_cols df search_columns = []).
    { unfold text_cols, select_text_columns, column_names. rewrite Hc.
      destruct search_columns as [|c cs]; [reflexivity|].
      apply filter_none. intros x _ Hx. cbn in Hx. now apply elem_of_nil in Hx. }
    rewrite Hcols. symmetry. apply filter_none. intros x _. cbn. discriminate.
  - unfold df_len. rewrite replicate_false_fmap.
    destruct (foldM_outcome _ _ _) as [mask|msg] eqn:Hm; cbn; [|discriminate].
    intros [= <-]. apply column_loop_spec in Hm. subst mask.
    cbn. rewrite filter_zip_mask. reflexivity.
Qed.

Lemma find_matches_columns df search_columns surnames modes out :
  find_matches_in_dataframe df search_columns surnames modes = Ok out ->
  df_columns out = if df_empty df then [] else df_columns df.
Proof.
  unfold find_matches_in_dataframe. destruct (df_empty df).
  - now intros [= <-].
  - destruct (foldM_outcome _ _ _) as [mask|msg]; cbn; [|discriminate].
    now intros [= <-].
Qed.

(** The matcher returns when substring mode is off, and when every
    non-empty target compiles. *)
Lemma find_matches_returns df search_columns surnames modes :
  substring modes = false \/ targets_compile surnames ->
  exists out, find_matches_in_dataframe df search_columns surnames modes = Ok out.
Proof.
  intros H. unfold find_matches_in_dataframe.
  destruct (df_empty df); [eauto|].
  destruct (column_loop_total df surnames modes (text_cols df search_columns) H
              (replicate (df_len df) false)) as [mask ->].
  cbn. eauto.
Qed.

End MatcherFacts.

(** ** Empty inputs of the row matcher *)

Section EmptyInputs.

Context {E : RegexEngine}.

Lemma cell_hit_no_targets modes x : cell_hit ∅ modes x = false.
Proof.
  unfold cell_hit. rewrite elements_empty. cbn [existsb].
  rewrite bool_decide_eq_false_2 by apply not_elem_of_empty.
  now rewrite !andb_false_r.
Qed.

Lemma row_hit_no_targets df cols modes row : row_hit df cols ∅ modes row = false.
Proof.
  unfold row_hit. induction cols as [|c cols IH]; [reflexivity|].
  cbn [existsb]. now rewrite cell_hit_no_targets, IH.
Qed.

Lemma text_cols_absent df search_columns :
  search_columns <> [] ->
  (forall c, c ∈ search_columns -> c ∉ column_names df) ->
  text_cols df search_columns = [].
Proof.
  intros Hne Habs. unfold text_cols.
  destruct search_columns as [|c cs]; [congruence|].
  apply filter_none. exact Habs.
Qed.

Lemma text_cols_no_text df :
  (forall h, h ∈ df_columns df -> is_text_dtype h.2 = false) ->
  text_cols df [] = [].
Proof.
  intros H. unfold text_cols, select_text_columns.
  rewrite filter_none; [reflexivity|].
  intros h Hh Ht. rewrite (H h Hh) in Ht. discriminate.
Qed.

(** C7. When the table has no rows, or the named search columns are all
    absent from it, or no column is named and the table has no column of a
    text dtype, or the target set is empty, the row matcher returns (it does
    not raise) and what it returns has no rows. *)
Theorem find_matches_empty_inputs df search_columns surnames modes :
  df_rows df = []
  \/ (search_columns <> [] /\
      forall c, c ∈ search_columns -> c ∉ column_names df)
  \/ (search_columns = [] /\
      forall h, h ∈ df_columns df -> is_text_dtype h.2 = false)
  \/ surnames = ∅ ->
  exists out,
    find_matches_in_dataframe df search_columns surnames modes = Ok out
    /\ df_rows out = [].
Proof.
  intros H.
  assert (Hcases : df_rows df = [] \/ text_cols df search_columns = []
                   \/ surnames = ∅).
  { destruct H as [H|[[H1 H2]|[[H1 H2]|H]]]; auto.
    - right; left. now apply text_cols_absent.
    - right; left. subst. now apply text_cols_no_text. }
  clear H.
  assert (Hret : exists out,
            find_matches_in_dataframe df search_columns surnames modes = Ok out).
  { destruct Hcases as [H|[H|H]].
    - unfold find_matches_in_dataframe, df_empty. rewrite H.
      destruct (df_columns df); eauto.
    - unfold find_matches_in_dataframe. destruct (df_empty df); [eauto|].
      rewrite H. cbn. eauto.
    - apply find_matches_returns. right. subst. intros s Hs.
      now apply not_elem_of_empty in Hs. }
  destruct Hret as [out Hout]. exists out. split; [exact Hout|].
  rewrite (find_matches_rows _ _ _ _ _ Hout).
  destruct Hcases as [H|[H|H]].
  - now rewrite H.
  - rewrite H. apply filter_none. intros x _. cbn. discriminate.
  - subst. apply filter_none. intros x _. rewrite row_hit_no_targets. discriminate.
Qed.

End EmptyInputs.

(** C7 at a table with a row and an empty target set. *)
Lemma find_matches_empty_inputs_witness :
  exists out,
    find_matches_in_dataframe (E := Fragment.engine)
      (Demo.names_frame ["Smith"]) ["Name"] ∅ Demo.substring_only = Ok out
    /\ df_rows out = [].
Proof.
  apply (find_matches_empty_inputs (E := Fragment.engine)).
  right; right; right. reflexivity.
Defined.

(** ** Exact mode *)

Section ExactMode.

Context {E : RegexEngine}.

Lemma surnames_set_member (ts : list string) t :
  t ∈ ts -> strip t <> "" -> lower (strip t) ∈ surnames_set ts.
Proof.
  intros Hin Hne. unfold surnames_set. apply elem_of_list_to_set.
  apply list_elem_of_fmap. exists t. split; [reflexivity|].
  apply list_elem_of_filter. split; [|exact Hin].
  apply andb_true_intro. split; apply truthy_true; [|exact Hne].
  intros ->. now apply Hne.
Qed.

Lemma row_hit_intro df cols surnames modes row col :
  col ∈ cols ->
  cell_hit surnames modes (row_cell df col row) = true ->
  row_hit df cols surnames modes row = true.
Proof.
  intros Hin Hhit. unfold row_hit. apply existsb_exists.
  exists col. split; [now apply list_elem_of_In | exact Hhit].
Qed.

(** C3. Exact mode does not look at case or at outer whitespace: with
    [last_token_only] off, a row is selected as soon as the cell of a
    searched column, stripped and lower-cased, is a member of the target
    set; with [last_token_only] on, the lower-cased last token of the cell
    is compared instead, and the row is selected as soon as that token is a
    member. Whatever the matcher returns contains the row, and it does
    return when substring mode is off (or every target compiles). Of the
    cells "Lee" and " Smith " the target "smith" selects the second and only
    the second, whether or not the last token is compared. *)
Theorem exact_match_insensitive df search_columns surnames modes row col :
  exact modes = true ->
  row ∈ df_rows df ->
  col ∈ text_cols df search_columns ->
  (if last_token_only modes
   then last_name_token (fillna_empty (row_cell df col row))
   else normalize_text (fillna_empty (row_cell df col row))) ∈ surnames ->
  (forall out,
     find_matches_in_dataframe df search_columns surnames modes = Ok out ->
     row ∈ df_rows out)
  /\ (substring modes = false \/ targets_compile surnames ->
      exists out,
        find_matches_in_dataframe df search_columns surnames modes = Ok out
        /\ row ∈ df_rows out)
  /\ (forall last_token,
        find_matches_in_dataframe (Demo.names_frame ["Lee"; " Smith "]) ["Name"]
          (surnames_set ["smith"]) (Demo.exact_only last_token)
        = Ok (Demo.names_frame [" Smith "])).
Proof.
  intros Hex Hrow Hcol Hmem.
  assert (Hsel : forall out,
            find_matches_in_dataframe df search_columns surnames modes = Ok out ->
            row ∈ df_rows out).
  { intros out Hout. rewrite (find_matches_rows _ _ _ _ _ Hout).
    apply list_elem_of_filter. split; [|exact Hrow].
    apply (row_hit_intro _ _ _ _ _ col Hcol).
    unfold cell_hit, comparison_string. rewrite Hex.
    now rewrite bool_decide_eq_true_2. }
  split; [exact Hsel|]. split.
  - intros Hret. destruct (find_matches_returns df search_columns surnames modes Hret)
      as [out Hout].
    exists out. split; [exact Hout | now apply Hsel].
  - intros []; vm_compute; reflexivity.
Qed.

End ExactMode.

(** C3 at the cell " SMITH " under the target set built from "Smith", the
    stripped and lower-cased cell being compared. *)
Lemma exact_match_insensitive_witness :
  (forall out,
     find_matches_in_dataframe (E := Fragment.engine)
       (Demo.names_frame ["Lee"; " SMITH "]) [] (surnames_set ["Smith "])
       (Demo.exact_only false) = Ok out ->
     [CText " SMITH "] ∈ df_rows out)
  /\ (substring (Demo.exact_only false) = false
      \/ targets_compile (E := Fragment.engine) (surnames_set ["Smith "]) ->
      exists out,
        find_matches_in_dataframe (E := Fragment.engine)
          (Demo.names_frame ["Lee"; " SMITH "]) [] (surnames_set ["Smith "])
          (Demo.exact_only false) = Ok out
        /\ [CText " SMITH "] ∈ df_rows out)
  /\ (forall last_token,
        find_matches_in_dataframe (E := Fragment.engine)
          (Demo.names_frame ["Lee"; " Smith "]) ["Name"]
          (surnames_set ["smith"]) (Demo.exact_only last_token)
        = Ok (Demo.names_frame [" Smith "])).
Proof.
  apply (exact_match_insensitive (E := Fragment.engine)
           (Demo.names_frame ["Lee"; " SMITH "]) [] (surnames_set ["Smith "])
           (Demo.exact_only false) [CText " SMITH "] "Name").
  - reflexivity.
  - vm_compute. right. left.
  - vm_compute. left.
  - vm_compute. reflexivity.
Defined.

(** C3 without the condition on [last_token_only] fails. Exact mode is on,
    the last token is compared, and the only cell of the searched column is
    " John Smith ": stripped and lower-cased it is the target "john smith",
    but the matcher compares its last token "smith", returns, and does not
    select the row. *)
Lemma exact_match_last_token_counterexample :
  exact (Demo.exact_only true) = true
  /\ [CText " John Smith "] ∈ df_rows (Demo.names_frame [" John Smith "])
  /\ "Name" ∈ text_cols (Demo.names_frame [" John Smith "]) ["Name"]
  /\ normalize_text
       (fillna_empty
          (row_cell (Demo.names_frame [" John Smith "]) "Name"
             [CText " John Smith "]))
     ∈ surnames_set ["john smith"]
  /\ last_name_token
       (fillna_empty
          (row_cell (Demo.names_frame [" John Smith "]) "Name"
             [CText " John Smith "]))
     = "smith"
  /\ exists out,
       find_matches_in_dataframe (E := Fragment.engine)
         (Demo.names_frame [" John Smith "]) ["Name"]
         (surnames_set ["john smith"]) (Demo.exact_only true) = Ok out
       /\ [CText " John Smith "] ∉ df_rows out.
Proof.
  split_and!.
  - reflexivity.
  - vm_compute. left.
  - vm_compute. left.
  - vm_compute. reflexivity.
  - vm_compute. reflexivity.
  - eexists. split; [vm_compute; reflexivity|]. apply not_elem_of_nil.
Qed.

(** ** Substring mode *)

Section FragmentFacts.

Import Fragment.

Lemma engine_agrees : agrees engine.
Proof.
  intros pat atoms H. exists atoms. cbn. rewrite H. split; reflexivity.
Qed.

Lemma compile_plain s :
  plain s = true -> compile s = Some (Lit <$> list_ascii_of_string s).
Proof.
  unfold plain. induction s as [|c s IH]; [reflexivity|].
  cbn [all_chars compile list_ascii_of_string]. intros H.
  apply andb_prop in H as [Hc Hs]. rewrite (IH Hs). cbn [mbind option_bind].
  destruct (Ascii.eqb c ".") eqn:Hdot.
  - apply Ascii.eqb_eq in Hdot. subst c. discriminate Hc.
  - apply negb_true_iff in Hc. now rewrite Hc.
Qed.

Lemma match_here_literal t s :
  match_here (Lit <$> list_ascii_of_string t) s = starts_with t s.
Proof.
  revert s. induction t as [|a t IH]; intros s; [reflexivity|].
  destruct s as [|b s]; [reflexivity|]. cbn. now rewrite IH.
Qed.

Lemma search_literal t s :
  search (Lit <$> list_ascii_of_string t) s = contains_literal t s.
Proof.
  induction s as [|b s IH]; cbn [search contains_literal];
    rewrite match_here_literal; [reflexivity|]. now rewrite IH.
Qed.

Lemma pattern_hit_plain (E : RegexEngine) s v :
  agrees E -> plain s = true -> pattern_hit s v = contains_literal s v.
Proof.
  intros Hag Hp. unfold pattern_hit.
  destruct (Hag s _ (compile_plain s Hp)) as (r & -> & Hr).
  now rewrite Hr, search_literal.
Qed.

End FragmentFacts.

Section SubstringMode.

Context {E : RegexEngine}.
Hypothesis E_agrees : Fragment.agrees E.

(** On targets without special characters substring mode alone selects the
    rows in which a selected column's comparison string contains a
    non-empty target as a literal substring. *)
Lemma substring_mode_plain_targets df search_columns surnames last_token :
  (forall s, s ∈ surnames -> Fragment.plain s = true) ->
  exists out,
    find_matches_in_dataframe df search_columns surnames
      {| exact := false; substring := true; last_token_only := last_token |}
    = Ok out
    /\ df_rows out
       = filter (fun row =>
                   existsb (fun col =>
                     existsb (fun s =>
                       truthy s
                       && contains_literal s
                            (comparison_string last_token (row_cell df col row)))
                       (elements surnames))
                     (text_cols df search_columns) = true)
                (df_rows df).
Proof.
  intros Hplain.
  set (modes := {| exact := false; substring := true; last_token_only := last_token |}).
  destruct (find_matches_returns df search_columns surnames modes) as [out Hout].
  { right. intros s Hs _.
    destruct (E_agrees s _ (compile_plain s (Hplain s Hs))) as (r & Hr & _). eauto. }
  exists out. split; [exact Hout|].
  rewrite (find_matches_rows _ _ _ _ _ Hout).
  apply list_filter_iff. intros row. unfold row_hit.
  enough (Heq : forall col,
            cell_hit surnames modes (row_cell df col row)
            = existsb (fun s =>
                truthy s
                && contains_literal s
                     (comparison_string last_token (row_cell df col row)))
                (elements surnames)).
  { induction (text_cols df search_columns) as [|c cs IH]; [reflexivity|].
    cbn [existsb]. rewrite Heq.
    destruct (existsb _ (elements surnames)); cbn; [tauto|exact IH]. }
  intros col. unfold cell_hit. cbn [exact substring last_token_only modes andb orb].
  assert (Hall : forall s, s ∈ elements surnames -> Fragment.plain s = true)
    by (intros s Hs; apply Hplain; now apply elem_of_elements in Hs).
  induction (elements surnames) as [|s ss IH]; [reflexivity|].
  cbn [existsb]. rewrite pattern_hit_plain; [|exact E_agrees|apply Hall; left].
  f_equal. apply IH. intros t Ht. apply Hall. now right.
Qed.

(** C1. Substring mode searches each target as a regular expression: under
    the target "d.souza" the row whose cell is "DeSouza" is selected, though
    its comparison string "desouza" does not contain "d.souza". *)
Theorem substring_mode_is_regex_search :
  find_matches_in_dataframe (Demo.names_frame ["DeSouza"]) ["Name"]
    {[ "d.souza" ]} Demo.substring_only
  = Ok (Demo.names_frame ["DeSouza"])
  /\ comparison_string false (CText "DeSouza") = "desouza"
  /\ contains_literal "d.souza" "desouza" = false.
Proof.
  split; [|split; reflexivity].
  destruct (E_agrees "d.souza" _ eq_refl) as (r & Hr & Hs).
  set (df := Demo.names_frame ["DeSouza"]).
  destruct (find_matches_returns df ["Name"] {[ "d.souza" ]} Demo.substring_only)
    as [out Hout].
  { right. intros s Hin _. apply elem_of_singleton in Hin as ->. eauto. }
  rewrite Hout. f_equal.
  assert (Hhit : row_hit df (text_cols df ["Name"]) {[ "d.souza" ]}
                   Demo.substring_only [CText "DeSouza"] = true).
  { replace (text_cols df ["Name"]) with ["Name"] by (vm_compute; reflexivity).
    unfold row_hit, cell_hit.
    cbn [existsb exact substring last_token_only Demo.substring_only andb orb].
    rewrite elements_singleton. cbn [existsb truthy andb orb].
    unfold pattern_hit. rewrite Hr, Hs. vm_compute. reflexivity. }
  apply frame_eq.
  - rewrite (find_matches_columns _ _ _ _ _ Hout). reflexivity.
  - rewrite (find_matches_rows _ _ _ _ _ Hout).
    change (df_rows df) with [[CText "DeSouza"]].
    rewrite filter_cons, decide_True by exact Hhit. reflexivity.
Qed.

End SubstringMode.

(** C1 with the reference engine. *)
Lemma substring_mode_is_regex_search_witness :
  find_matches_in_dataframe (E := Fragment.engine)
    (Demo.names_frame ["DeSouza"]) ["Name"] {[ "d.souza" ]} Demo.substring_only
  = Ok (Demo.names_frame ["DeSouza"])
  /\ comparison_string false (CText "DeSouza") = "desouza"
  /\ contains_literal "d.souza" "desouza" = false.
Proof.
  apply (substring_mode_is_regex_search (E := Fragment.engine)).
  intros pat atoms H. exists atoms. cbn. rewrite H. split; reflexivity.
Defined.

(** ** The last token *)

Lemma append_cons c (s t : string) : (String c s ++ t)%string = String c (s ++ t)%string.
Proof. reflexivity. Qed.

Lemma append_nil (t : string) : ("" ++ t)%string = t.
Proof. reflexivity. Qed.

Lemma append_assoc (s t u : string) :
  (s ++ (t ++ u))%string = ((s ++ t) ++ u)%string.
Proof.
  induction s as [|c s IH]; [reflexivity|]. rewrite !append_cons. now rewrite IH.
Qed.

Section Tokens.

Variable p : ascii -> bool.

Lemma re_split_class_cons c s :
  re_split_class p (String c s) =
  if p c then
    match s with
    | String d _ => if p d then re_split_class p s else "" :: re_split_class p s
    | EmptyString => "" :: re_split_class p s
    end
  else
    match re_split_class p s with
    | t :: ts => String c t :: ts
    | [] => [String c ""]
    end.
Proof. reflexivity. Qed.

Lemma re_split_class_nonempty s : re_split_class p s <> [].
Proof.
  induction s as [|c s IH]; [discriminate|].
  rewrite re_split_class_cons. destruct (p c).
  - destruct s as [|d s']; [discriminate|]. destruct (p d); [exact IH|discriminate].
  - destruct (re_split_class p s); discriminate.
Qed.

Lemma re_split_class_head_sep s d :
  p d = true -> exists r, re_split_class p (String d s) = "" :: r.
Proof.
  revert d. induction s as [|e s IH]; intros d Hd; rewrite re_split_class_cons, Hd.
  - eauto.
  - destruct (p e) eqn:He; [apply IH, He | eauto].
Qed.

Lemma tokens_nil : tokens p "" = [].
Proof. reflexivity. Qed.

Lemma tokens_sep c s : p c = true -> tokens p (String c s) = tokens p s.
Proof.
  intros Hc. unfold tokens. rewrite re_split_class_cons, Hc.
  destruct s as [|d s']; [reflexivity|]. destruct (p d); reflexivity.
Qed.

Lemma tokens_last_char c : p c = false -> tokens p (String c "") = [String c ""].
Proof. intros Hc. unfold tokens. cbn. now rewrite Hc. Qed.

Lemma tokens_before_sep c d s :
  p c = false -> p d = true ->
  tokens p (String c (String d s)) = String c "" :: tokens p (String d s).
Proof.
  intros Hc Hd. unfold tokens. rewrite (re_split_class_cons c), Hc.
  destruct (re_split_class_head_sep s d Hd) as [r ->]. reflexivity.
Qed.

Lemma tokens_grow c d s :
  p c = false -> p d = false ->
  exists t ts,
    tokens p (String d s) = t :: ts
    /\ tokens p (String c (String d s)) = String c t :: ts.
Proof.
  intros Hc Hd. unfold tokens. rewrite (re_split_class_cons c), Hc.
  rewrite (re_split_class_cons d), Hd.
  destruct (re_split_class p s) as [|t ts]; cbn; eauto.
Qed.

Lemma tokens_all_sep s : all_chars p s = true -> tokens p s = [].
Proof.
  induction s as [|c s IH]; [reflexivity|]. cbn [all_chars]. intros H.
  apply andb_prop in H as [Hc Hs]. rewrite tokens_sep by exact Hc. now apply IH.
Qed.

Lemma tokens_single tok :
  tok <> "" -> all_chars (fun c => negb (p c)) tok = true -> tokens p tok = [tok].
Proof.
  induction tok as [|c tok IH]; [congruence|]. intros _ H. cbn [all_chars] in H.
  apply andb_prop in H as [Hc Htok]. apply negb_true_iff in Hc.
  destruct tok as [|d tok]; [now apply tokens_last_char|].
  assert (Hd : p d = false).
  { cbn [all_chars] in Htok. apply andb_prop in Htok as [Hd _].
    now apply negb_true_iff in Hd. }
  destruct (tokens_grow c d tok Hc Hd) as (t & ts & H1 & H2).
  rewrite IH in H1 by (congruence || exact Htok).
  injection H1 as <- <-. exact H2.
Qed.

(** Separators at the end add no token. *)
Lemma tokens_app_sep s seps :
  all_chars p seps = true -> tokens p (s ++ seps)%string = tokens p s.
Proof.
  intros Hseps. induction s as [|c s IH].
  - rewrite append_nil. now apply tokens_all_sep.
  - rewrite append_cons. destruct (p c) eqn:Hc.
    + now rewrite !tokens_sep.
    + destruct s as [|d s].
      * rewrite append_nil. rewrite tokens_last_char by exact Hc.
        destruct seps as [|e seps]; [now apply tokens_last_char|].
        cbn [all_chars] in Hseps. apply andb_prop in Hseps as [He Hseps'].
        rewrite tokens_before_sep by assumption.
        rewrite tokens_all_sep; [reflexivity|]. cbn [all_chars]. now rewrite He.
      * rewrite append_cons in *. destruct (p d) eqn:Hd.
        -- rewrite !tokens_before_sep by assumption. now rewrite IH.
        -- destruct (tokens_grow c d (s ++ seps) Hc Hd) as (t & ts & H1 & H2).
           destruct (tokens_grow c d s Hc Hd) as (t' & ts' & H1' & H2').
           rewrite H2, H2'. rewrite IH, H1' in H1. now injection H1 as <- <-.
Qed.

(** A run that follows a separator is a token of its own. *)
Lemma tokens_app_token pre tok :
  tok <> "" -> all_chars (fun c => negb (p c)) tok = true ->
  (pre = "" \/ exists c, last_char pre = Some c /\ p c = true) ->
  tokens p (pre ++ tok)%string = tokens p pre ++ [tok].
Proof.
  intros Hne Htok. induction pre as [|c pre IH]; intros Hpre.
  - rewrite append_nil. now apply tokens_single.
  - assert (Hpre' : pre = "" \/ exists c, last_char pre = Some c /\ p c = true).
    { destruct pre as [|d pre]; [now left|]. right.
      destruct Hpre as [Hpre|Hpre]; [discriminate|exact Hpre]. }
    rewrite append_cons. destruct (p c) eqn:Hc.
    + rewrite !tokens_sep by exact Hc. now apply IH.
    + destruct pre as [|d pre].
      * destruct Hpre as [Hpre|(e & He & Hpe)]; [discriminate|].
        cbn in He. injection He as <-. congruence.
      * rewrite append_cons in *. destruct (p d) eqn:Hd.
        -- rewrite !tokens_before_sep by assumption. now rewrite IH.
        -- destruct (tokens_grow c d (pre ++ tok) Hc Hd) as (t & ts & H1 & H2).
           destruct (tokens_grow c d pre Hc Hd) as (t' & ts' & H1' & H2').
           rewrite H2, H2'. rewrite IH, H1' in H1 by exact Hpre'.
           now injection H1 as <- <-.
Qed.

End Tokens.

Section LastToken.

Lemma is_space_is_sep c : is_space c = true -> is_sep c = true.
Proof. unfold is_sep. now intros ->. Qed.

Lemma all_space_all_sep s : all_chars is_space s = true -> all_chars is_sep s = true.
Proof.
  induction s as [|c s IH]; [reflexivity|]. cbn [all_chars]. intros H.
  apply andb_prop in H as [Hc Hs]. now rewrite (is_space_is_sep c Hc), IH.
Qed.

Lemma rstrip_split s :
  exists sp, s = (rstrip s ++ sp)%string /\ all_chars is_space sp = true.
Proof.
  induction s as [|c s (sp & Hs & Hsp)]; [now exists ""|].
  rewrite rstrip_cons. destruct (rstrip s) as [|b r] eqn:Hr.
  - rewrite append_nil in Hs. subst sp. destruct (is_space c) eqn:Hc.
    + exists (String c s). split; [reflexivity|]. cbn [all_chars]. now rewrite Hc.
    + exists s. split; [reflexivity|exact Hsp].
  - exists sp. split; [|exact Hsp]. rewrite append_cons. now rewrite <- Hs.
Qed.

Lemma tokens_lstrip s : tokens is_sep (lstrip s) = tokens is_sep s.
Proof.
  induction s as [|c s IH]; [reflexivity|]. cbn [lstrip].
  destruct (is_space c) eqn:Hc; [|reflexivity].
  rewrite IH. symmetry. now apply tokens_sep, is_space_is_sep.
Qed.

Lemma tokens_rstrip s : tokens is_sep (rstrip s) = tokens is_sep s.
Proof.
  destruct (rstrip_split s) as (sp & Hs & Hsp). rewrite Hs at 2.
  symmetry. now apply tokens_app_sep, all_space_all_sep.
Qed.

Lemma tokens_strip s : tokens is_sep (strip s) = tokens is_sep s.
Proof. unfold strip. now rewrite tokens_rstrip, tokens_lstrip. Qed.

Lemma last_name_token_tokens x :
  last_name_token x =
  match last (tokens is_sep (py_str x)) with
  | Some t => lower t
  | None => ""
  end.
Proof. unfold last_name_token. fold (tokens is_sep (strip (py_str x))). now rewrite tokens_strip. Qed.

Lemma tokens_final text tok :
  is_final_token text tok -> last (tokens is_sep text) = Some tok.
Proof.
  intros (pre & suf & -> & Hne & Htok & Hsuf & Hpre).
  rewrite append_assoc, tokens_app_sep by exact Hsuf.
  rewrite tokens_app_token by assumption. apply last_snoc.
Qed.

(** A text is made of separators only or has a final token. *)
Lemma final_token_exists text :
  all_chars is_sep text = true \/ exists tok, is_final_token text tok.
Proof.
  induction text as [|c s IH]; [now left|].
  destruct (is_sep c) eqn:Hc,
    IH as [Hall|(tok & pre & suf & Hs & Hne & Htok & Hsuf & Hpre)].
  - left. cbn [all_chars]. now rewrite Hc.
  - right. exists tok, (String c pre), suf. rewrite append_cons, <- Hs.
    split_and!; try done. right.
    destruct pre as [|d pre]; [exists c; now split|].
    destruct Hpre as [Hpre|Hpre]; [discriminate|exact Hpre].
  - right. exists (String c ""), "", s.
    split_and!; [reflexivity | discriminate | | exact Hall | now left].
    cbn [all_chars]. now rewrite Hc.
  - right. destruct pre as [|d pre].
    + rewrite append_nil in Hs. exists (String c tok), "", suf.
      rewrite append_nil, append_cons, <- Hs.
      split_and!; [reflexivity | discriminate | | exact Hsuf | now left].
      cbn [all_chars]. now rewrite Hc, Htok.
    + exists tok, (String c (String d pre)), suf. rewrite append_cons, <- Hs.
      split_and!; try done. right.
      destruct Hpre as [Hpre|Hpre]; [discriminate|exact Hpre].
Qed.

(** C4. With [last_token_only] on, the comparison string of a cell is the
    lower-cased final token of its text as it stands (a missing value read
    as the empty text, a number through [str]): the empty string when the
    text has only separators, the lower-cased final token otherwise, and one
    of the two always applies. The separators are whitespace, comma,
    semicolon, slash and backslash; the hyphen is not one. *)
Theorem last_token_comparison_string (x : cell) :
  let text := py_str (fillna_empty x) in
  (all_chars is_sep text = true -> comparison_string true x = "")
  /\ (forall tok, is_final_token text tok -> comparison_string true x = lower tok)
  /\ (all_chars is_sep text = true \/ exists tok, is_final_token text tok)
  /\ (forall c, is_sep c = true <->
                is_space c = true \/ c ∈ [","; ";"; "/"; "\"]%char)
  /\ comparison_string true (CText "John Smith-Jones") = "smith-jones"
  /\ comparison_string true (CText "Doe, Jane") = "jane"
  /\ is_sep "-" = false.
Proof.
  intros text. unfold comparison_string. rewrite last_name_token_tokens.
  fold text. repeat split; try reflexivity.
  - intros Hall. now rewrite tokens_all_sep.
  - intros tok Htok. now rewrite (tokens_final text tok Htok).
  - apply final_token_exists.
  - unfold is_sep. intros H.
    apply orb_prop in H as [H|H4]; [apply orb_prop in H as [H|H3];
      [apply orb_prop in H as [H|H2]; [apply orb_prop in H as [H|H1]|]|]|].
    + now left.
    + right. apply Ascii.eqb_eq in H1. subst c. set_solver.
    + right. apply Ascii.eqb_eq in H2. subst c. set_solver.
    + right. apply Ascii.eqb_eq in H3. subst c. set_solver.
    + right. apply Ascii.eqb_eq in H4. subst c. set_solver.
  - unfold is_sep. intros [->|H]; [reflexivity|].
    repeat (apply elem_of_cons in H as [->|H]); try now rewrite !orb_true_r.
    now apply elem_of_nil in H.
Qed.

End LastToken.

(** ** The column detector *)

Section Detector.

Lemma index_of_Some x (l : list string) i :
  index_of x l = Some i -> l !! i = Some x.
Proof.
  unfold index_of. destruct (list_find _ l) as [[j y]|] eqn:H; [|discriminate].
  cbn. intros [= ->]. apply list_find_Some in H as (H & -> & _). exact H.
Qed.

Lemma index_of_None x (l : list string) : index_of x l = None -> x ∉ l.
Proof.
  unfold index_of. destruct (list_find _ l) as [[j y]|] eqn:H; [discriminate|].
  intros _ Hin. apply list_find_None in H.
  rewrite Forall_forall in H. now apply (H x).
Qed.

Lemma column_for_Some columns candidate c :
  column_for columns candidate = Some c ->
  c ∈ columns /\ lower c = candidate.
Proof.
  unfold column_for. destruct (index_of _ _) as [i|] eqn:Hi; [|discriminate].
  cbn. intros Hc. split; [now apply list_elem_of_lookup_2 in Hc|].
  apply index_of_Some in Hi. rewrite list_lookup_fmap, Hc in Hi. now injection Hi.
Qed.

Lemma column_for_None columns candidate :
  column_for columns candidate = None -> candidate ∉ (lower <$> columns).
Proof.
  unfold column_for. destruct (index_of _ _) as [i|] eqn:Hi.
  - cbn. intros Hc. apply index_of_Some in Hi.
    rewrite list_lookup_fmap, Hc in Hi. discriminate.
  - intros _. now apply index_of_None.
Qed.

Lemma detect_step_column_for columns cols candidate :
  detect_step columns (lower <$> columns) cols candidate
  = cols ++ option_list (column_for columns candidate).
Proof.
  unfold detect_step.
  destruct (column_for columns candidate) as [c|] eqn:Hc.
  - unfold column_for in Hc.
    destruct (index_of candidate (lower <$> columns)) as [i|] eqn:Hi; [|discriminate].
    cbn in Hc. rewrite Hc. cbn.
    rewrite bool_decide_eq_true_2; [reflexivity|].
    apply index_of_Some in Hi. now apply list_elem_of_lookup_2 in Hi.
  - rewrite bool_decide_eq_false_2 by now apply column_for_None.
    cbn. now rewrite app_nil_r.
Qed.

(** The detector returns, in the order of the candidates, the column of
    every candidate that has one. *)
Lemma detect_columns_with_omap candidates columns :
  detect_columns_with candidates columns = omap (column_for columns) candidates.
Proof.
  unfold detect_columns_with.
  enough (H : forall acc,
            foldl (detect_step columns (lower <$> columns)) acc candidates
            = acc ++ omap (column_for columns) candidates) by apply (H []).
  induction candidates as [|cand candidates IH]; intros acc.
  - cbn. now rewrite app_nil_r.
  - cbn [foldl]. rewrite IH, detect_step_column_for, <- app_assoc. f_equal.
    cbn. now destruct (column_for columns cand).
Qed.

(** Candidates that are all different give columns that are all different. *)
Lemma detect_columns_with_NoDup candidates columns :
  NoDup candidates -> NoDup (detect_columns_with candidates columns).
Proof.
  rewrite detect_columns_with_omap.
  induction 1 as [|cand candidates Hnotin Hnd IH]; [constructor|].
  cbn. destruct (column_for columns cand) as [c|] eqn:Hc; [|exact IH].
  constructor; [|exact IH]. intros Hin.
  apply list_elem_of_omap in Hin as (cand' & Hin & Hc').
  apply column_for_Some in Hc as [_ <-]. apply column_for_Some in Hc' as [_ Heq].
  apply Hnotin. now rewrite Heq.
Qed.

(** C2. The candidate list has "lastname" twice, so a column
    that lower-cases to "lastname" is returned twice: the returned list can
    hold a duplicate. The names come back in their original casing and in
    the order of the candidates ([detect_columns_with_omap]), as on the
    headers ID, Last Name, Age. *)
Theorem detect_surname_columns_duplicate :
  detect_surname_columns
    {| df_columns := [("ID", dt_int64); ("LastName", dt_object); ("Age", dt_int64)];
       df_rows := [] |}
  = ["LastName"; "LastName"]
  /\ ~ NoDup ["LastName"; "LastName"]
  /\ ~ NoDup COMMON_SURNAME_COLS
  /\ detect_columns_with COMMON_SURNAME_COLS ["ID"; "Last Name"; "Age"]
     = ["Last Name"].
Proof.
  split; [reflexivity|]. split; [|split; [|reflexivity]].
  - intros H. apply NoDup_cons in H as [H _]. apply H. left.
  - intros H. unfold COMMON_SURNAME_COLS in H.
    do 3 apply NoDup_cons in H as [_ H]. apply NoDup_cons in H as [H _].
    apply H. do 8 right. left.
Qed.

End Detector.

(** ** Duplicate rows *)

Section DropDuplicates.

Context {A : Type} `{EqDecision A}.

Lemma drop_seen_elem (seen l : list A) x :
  x ∈ drop_seen seen l <-> x ∈ l /\ x ∉ seen.
Proof.
  revert seen. induction l as [|y l IH]; intros seen; cbn [drop_seen].
  - split; [intros H; now apply elem_of_nil in H | intros [H _]; exact H].
  - destruct (decide (y ∈ seen)) as [Hy|Hy].
    + rewrite IH, elem_of_cons. split; [tauto|]. intros [[->|H] Hn]; tauto.
    + rewrite !elem_of_cons, IH, elem_of_cons. split.
      * intros [->|[H Hn]]; tauto.
      * intros [[->|H] Hn]; [now left|].
        destruct (decide (x = y)) as [->|Hne]; [now left|right]. tauto.
Qed.

Lemma drop_seen_NoDup (seen l : list A) : NoDup (drop_seen seen l).
Proof.
  revert seen. induction l as [|y l IH]; intros seen; cbn [drop_seen].
  - constructor.
  - destruct (decide (y ∈ seen)); [apply IH|].
    constructor; [|apply IH]. rewrite drop_seen_elem, elem_of_cons. tauto.
Qed.

Lemma drop_seen_sublist (seen l : list A) : drop_seen seen l `sublist_of` l.
Proof.
  revert seen. induction l as [|y l IH]; intros seen; cbn [drop_seen].
  - constructor.
  - destruct (decide (y ∈ seen)); [apply sublist_cons, IH | apply sublist_skip, IH].
Qed.

Lemma drop_seen_snoc (seen l : list A) x :
  drop_seen seen (l ++ [x])
  = if decide (x ∈ seen \/ x ∈ l) then drop_seen seen l
    else drop_seen seen l ++ [x].
Proof.
  revert seen. induction l as [|y l IH]; intros seen.
  - cbn. destruct (decide (x ∈ seen)) as [Hx|Hx].
    + rewrite decide_True by now left. reflexivity.
    + rewrite decide_False; [reflexivity|].
      intros [H|H]; [tauto | now apply elem_of_nil in H].
  - rewrite <- app_comm_cons. cbn [drop_seen].
    destruct (decide (y ∈ seen)) as [Hy|Hy].
    + rewrite IH. destruct (decide (x ∈ seen \/ x ∈ l)) as [H|H].
      * rewrite decide_True; [reflexivity|]. rewrite elem_of_cons. tauto.
      * rewrite decide_False; [reflexivity|]. rewrite elem_of_cons.
        intros [H'|[->|H']]; tauto.
    + rewrite IH. destruct (decide (x ∈ y :: seen \/ x ∈ l)) as [H|H].
      * rewrite decide_True; [reflexivity|].
        rewrite elem_of_cons in *. tauto.
      * rewrite decide_False; [reflexivity|].
        rewrite elem_of_cons in *. tauto.
Qed.

End DropDuplicates.

Section Provenance.

Lemma provenance_distinct (visible : list cell) f1 s1 f2 s2 :
  f1 <> f2 \/ s1 <> s2 ->
  visible ++ [CText f1; CText s1] <> visible ++ [CText f2; CText s2].
Proof.
  intros Hne Heq. apply app_inv_head in Heq. injection Heq as -> ->.
  destruct Hne; congruence.
Qed.

Lemma index_of_absent x (l : list string) : x ∉ l -> index_of x l = None.
Proof.
  intros H. unfold index_of.
  destruct (list_find (fun y => y = x) l) as [[i y]|] eqn:Hf; [|reflexivity].
  apply list_find_Some in Hf as (Hl & -> & _).
  now apply list_elem_of_lookup_2 in Hl.
Qed.

(** On matches that have no column of these names, the two assignments of
    the loop put the name of the file and the name of the sheet at the end
    of every row. *)
Lemma stamped_rows fname sheet_name (matched : DataFrame) :
  "__source_file" ∉ column_names matched ->
  "__sheet_name" ∉ column_names matched ->
  df_rows (set_column "__sheet_name" sheet_name
             (set_column "__source_file" fname matched))
  = (fun row => row ++ [CText fname; CText sheet_name]) <$> df_rows matched.
Proof.
  intros Hf Hs. unfold set_column at 2. rewrite (index_of_absent _ _ Hf).
  unfold set_column, column_names. cbn [df_columns df_rows].
  rewrite fmap_app, index_of_absent.
  - cbn [df_rows]. rewrite <- list_fmap_compose. apply list_fmap_ext.
    intros _ row _. cbn. now rewrite <- app_assoc.
  - cbn [fmap list_fmap fst]. intros H. apply elem_of_app in H as [H|H].
    + now apply Hs.
    + apply list_elem_of_singleton in H. discriminate H.
Qed.

(** The three frames of the example: the same visible row matched in
    [a.csv], in [b.csv], and in [a.csv] once more. *)
Lemma drop_duplicates_example :
  let stamp fname :=
    set_column "__sheet_name" "<csv>"
      (set_column "__source_file" fname (Demo.names_frame ["Smith"])) in
  drop_duplicates (concat [stamp "a.csv"; stamp "b.csv"; stamp "a.csv"])
  = {| df_columns :=
         [("Name", dt_object); ("__source_file", dt_object);
          ("__sheet_name", dt_object)];
       df_rows :=
         [[CText "Smith"; CText "a.csv"; CText "<csv>"];
          [CText "Smith"; CText "b.csv"; CText "<csv>"]] |}.
Proof. vm_compute. reflexivity. Qed.

(** C6. [drop_duplicates] keeps the columns; its rows are the rows of the
    table without repetition, each at its first occurrence and in table
    order: a row appended to a table is appended to the result when no
    equal row stands in the table, and changes nothing otherwise. Equality
    is on all cells, so rows that differ in [__source_file] or in
    [__sheet_name] are different rows and both are kept. *)
Theorem drop_duplicates_first_occurrence (df : DataFrame) :
  df_columns (drop_duplicates df) = df_columns df
  /\ NoDup (df_rows (drop_duplicates df))
  /\ (forall row, row ∈ df_rows (drop_duplicates df) <-> row ∈ df_rows df)
  /\ df_rows (drop_duplicates df) `sublist_of` df_rows df
  /\ (forall row,
        df_rows (drop_duplicates
                   {| df_columns := df_columns df;
                      df_rows := df_rows df ++ [row] |})
        = if decide (row ∈ df_rows df) then df_rows (drop_duplicates df)
          else df_rows (drop_duplicates df) ++ [row])
  /\ (forall visible f1 s1 f2 s2,
        f1 <> f2 \/ s1 <> s2 ->
        let r1 := visible ++ [CText f1; CText s1] in
        let r2 := visible ++ [CText f2; CText s2] in
        r1 ∈ df_rows df -> r2 ∈ df_rows df ->
        r1 <> r2
        /\ r1 ∈ df_rows (drop_duplicates df)
        /\ r2 ∈ df_rows (drop_duplicates df)).
Proof.
  unfold drop_duplicates. cbn [df_columns df_rows].
  assert (Hmem : forall row,
            row ∈ drop_seen [] (df_rows df) <-> row ∈ df_rows df).
  { intros row. rewrite drop_seen_elem. split; [tauto|].
    intros H. split; [exact H|]. apply not_elem_of_nil. }
  split_and!.
  - reflexivity.
  - apply drop_seen_NoDup.
  - exact Hmem.
  - apply drop_seen_sublist.
  - intros row. rewrite drop_seen_snoc.
    destruct (decide (row ∈ df_rows df)) as [H|H].
    + rewrite decide_True by now right. reflexivity.
    + rewrite decide_False; [reflexivity|].
      intros [H'|H']; [now apply elem_of_nil in H' | tauto].
  - intros visible f1 s1 f2 s2 Hne. cbv zeta. intros H1 H2. split_and!.
    + now apply provenance_distinct.
    + now apply Hmem.
    + now apply Hmem.
Qed.

End Provenance.

(** ** The loop over the files *)

Section LoopFacts.

Context {E : RegexEngine} {R : Readers}.
Variable search_columns : list string.
Variable TARGET_SURNAMES : gset string.
Variable modes : MatchModes.

Local Abbreviation scan_table' := (scan_table search_columns TARGET_SURNAMES modes).
Local Abbreviation scan_sheets' := (scan_sheets search_columns TARGET_SURNAMES modes).
Local Abbreviation try_file' := (try_file search_columns TARGET_SURNAMES modes).
Local Abbreviation process_file' := (process_file search_columns TARGET_SURNAMES modes).
Local Abbreviation process_files' := (process_files search_columns TARGET_SURNAMES modes).

Lemma state_eq (a b : LoopState) :
  results a = results b -> total_checked_rows a = total_checked_rows b ->
  log a = log b -> a = b.
Proof. destruct a, b. cbn. now intros -> -> ->. Qed.

Lemma merge_empty_r st : merge_state st empty_state = st.
Proof. apply state_eq; cbn; [apply app_nil_r | lia | apply app_nil_r]. Qed.

Lemma merge_empty_l d : merge_state empty_state d = d.
Proof. now apply state_eq. Qed.

Lemma merge_assoc a b c :
  merge_state (merge_state a b) c = merge_state a (merge_state b c).
Proof. apply state_eq; cbn; [now rewrite app_assoc | lia | now rewrite app_assoc]. Qed.

Lemma merge_add_rows st d n :
  merge_state st (add_rows n d) = add_rows n (merge_state st d).
Proof. apply state_eq; cbn; [reflexivity | lia | reflexivity]. Qed.

Lemma merge_add_result st d m :
  merge_state st (add_result m d) = add_result m (merge_state st d).
Proof. apply state_eq; cbn; [now rewrite app_assoc | reflexivity | reflexivity]. Qed.

Lemma merge_add_event st d e :
  merge_state st (add_event e d) = add_event e (merge_state st d).
Proof. apply state_eq; cbn; [reflexivity | reflexivity | now rewrite app_assoc]. Qed.

(** What a piece of the loop does to a state is what it does to the empty
    state, put after the state. *)
Lemma scan_table_frame fname sheet_name df st :
  scan_table' fname sheet_name df st
  = (merge_state st (scan_table' fname sheet_name df empty_state).1,
     (scan_table' fname sheet_name df empty_state).2).
Proof.
  unfold scan_table.
  destruct (find_matches_in_dataframe _ _ _ _) as [matched|e]; cbn [fst snd].
  - destruct (negb (df_empty matched)); cbn [fst snd].
    + now rewrite merge_add_result, merge_add_rows, merge_empty_r.
    + now rewrite merge_add_rows, merge_empty_r.
  - now rewrite merge_add_rows, merge_empty_r.
Qed.

Lemma scan_sheets_frame fname sheets st :
  scan_sheets' fname sheets st
  = (merge_state st (scan_sheets' fname sheets empty_state).1,
     (scan_sheets' fname sheets empty_state).2).
Proof.
  revert st.
  enough (H : forall d st,
            scan_sheets' fname sheets (merge_state st d)
            = (merge_state st (scan_sheets' fname sheets d).1,
               (scan_sheets' fname sheets d).2)).
  { intros st. rewrite <- (merge_empty_r st) at 1. apply H. }
  induction sheets as [|[sheet_name [df|]] rest IH]; intros d st;
    cbn [scan_sheets]; [reflexivity | | apply IH].
  destruct (df_empty df); [apply IH|].
  rewrite (scan_table_frame fname sheet_name df (merge_state st d)).
  rewrite (scan_table_frame fname sheet_name df d).
  destruct (scan_table' fname sheet_name df empty_state) as [d1 [e|]]; cbn [fst snd].
  - now rewrite merge_assoc.
  - rewrite merge_assoc. apply IH.
Qed.

Lemma try_file_frame f st :
  try_file' f st
  = ((try_file' f empty_state).1.1,
     merge_state st (try_file' f empty_state).1.2,
     (try_file' f empty_state).2).
Proof.
  unfold try_file. destruct (is_csv (f_name f)).
  - destruct (read_csv None f) as [[df|e] f1]; cbn [fst snd].
    + rewrite (scan_table_frame _ _ df st).
      now destruct (scan_table' (f_name f) "<csv>" df empty_state).
    + now rewrite merge_empty_r.
  - destruct (read_sheets f) as [[sheets|e] f1]; cbn [fst snd].
    + rewrite (scan_sheets_frame _ sheets st).
      now destruct (scan_sheets' (f_name f) sheets empty_state).
    + now rewrite merge_empty_r.
Qed.

Lemma process_file_frame total i f st :
  process_file' total i f st
  = ((process_file' total i f empty_state).1,
     merge_state st (process_file' total i f empty_state).2).
Proof.
  unfold process_file. rewrite (try_file_frame f st).
  destruct (try_file' f empty_state) as [[f' d] [e|]]; cbn [fst snd];
    now rewrite ?merge_add_event.
Qed.

Lemma process_files_cons total i f rest st :
  process_files' total i (f :: rest) st
  = ((process_file' total i f st).1
       :: (process_files' total (i + 1) rest (process_file' total i f st).2).1,
     (process_files' total (i + 1) rest (process_file' total i f st).2).2).
Proof.
  cbn [process_files].
  destruct (process_file' total i f st) as [f' st1]. cbn [fst snd].
  now destruct (process_files' total (i + 1) rest st1).
Qed.

Lemma process_files_frame total files :
  forall i st,
  process_files' total i files st
  = ((process_files' total i files empty_state).1,
     merge_state st (process_files' total i files empty_state).2).
Proof.
  induction files as [|f rest IH]; intros i st.
  - cbn. now rewrite merge_empty_r.
  - rewrite !process_files_cons. cbn [fst snd].
    rewrite (process_file_frame total i f st). cbn [fst snd].
    rewrite (IH (i + 1) (merge_state st _)).
    rewrite (IH (i + 1) (process_file' total i f empty_state).2).
    cbn [fst snd]. now rewrite merge_assoc.
Qed.

Lemma process_files_app total l1 l2 :
  forall i st,
  process_files' total i (l1 ++ l2) st
  = ((process_files' total i l1 st).1
       ++ (process_files' total (i + length l1) l2 (process_files' total i l1 st).2).1,
     (process_files' total (i + length l1) l2 (process_files' total i l1 st).2).2).
Proof.
  induction l1 as [|f l1 IH]; intros i st.
  - rewrite !app_nil_l. cbn [length process_files fst snd].
    rewrite Nat.add_0_r. now destruct (process_files' total i l2 st).
  - rewrite <- app_comm_cons, !process_files_cons. cbn [fst snd length].
    rewrite IH. cbn [fst snd].
    replace (i + 1 + length l1) with (i + S (length l1)) by lia. reflexivity.
Qed.

(** Every file gets its turn and keeps its name and its bytes. *)
Lemma try_file_same_file f st :
  f_name (try_file' f st).1.1 = f_name f /\ f_data (try_file' f st).1.1 = f_data f.
Proof.
  unfold try_file, read_sheets, read_csv, read_excel_all, read_excel.
  destruct (is_csv (f_name f)).
  - destruct (pd_read_csv None _ _) as [[df|e] p]; cbn [fst snd].
    + now destruct (scan_table' _ _ df st).
    + now split.
  - destruct (pd_read_excel_all _ _) as [[sheets|e] p]; cbn [fst snd].
    + now destruct (scan_sheets' _ sheets st).
    + cbn. destruct (pd_read_excel _ _) as [[df|e'] p']; cbn [fst snd].
      * now destruct (scan_sheets' _ _ st).
      * now split.
Qed.

Lemma process_files_length total files :
  forall i st, length (process_files' total i files st).1 = length files.
Proof.
  induction files as [|f rest IH]; intros i st; [reflexivity|].
  rewrite process_files_cons. cbn [fst length]. now rewrite IH.
Qed.

Lemma process_files_names total files :
  forall i st, f_name <$> (process_files' total i files st).1 = f_name <$> files.
Proof.
  induction files as [|f rest IH]; intros i st; [reflexivity|].
  rewrite process_files_cons. cbn [fst fmap list_fmap]. rewrite IH.
  f_equal.
  unfold process_file.
  pose proof (try_file_same_file f st) as [Hn _].
  now destruct (try_file' f st) as [[f' st'] err].
Qed.

(** The turn of a file ends with the progress bar. *)
Lemma process_file_progress total i f st :
  Progress (i + 1) total ∈ log (process_file' total i f st).2.
Proof.
  unfold process_file. destruct (try_file' f st) as [[f' st'] err].
  cbn [snd add_event log]. apply elem_of_app. right. left.
Qed.

Lemma process_files_log_mono total files i st ev :
  ev ∈ log st -> ev ∈ log (process_files' total i files st).2.
Proof.
  intros H. rewrite process_files_frame. cbn [snd merge_state log].
  apply elem_of_app. now left.
Qed.

Lemma process_files_progress total files :
  forall i st k, k < length files ->
  Progress (i + k + 1) total ∈ log (process_files' total i files st).2.
Proof.
  induction files as [|f rest IH]; intros i st k Hk; [cbn in Hk; lia|].
  rewrite process_files_cons. cbn [snd]. destruct k as [|k].
  - apply process_files_log_mono. rewrite Nat.add_0_r.
    apply process_file_progress.
  - replace (i + S k + 1) with (i + 1 + k + 1) by lia. apply IH.
    cbn in Hk. lia.
Qed.

(** What the loop finds does not depend on the counters of the progress
    bar. *)
Lemma process_file_found total total' i i' f st :
  results (process_file' total i f st).2 = results (process_file' total' i' f st).2
  /\ total_checked_rows (process_file' total i f st).2
     = total_checked_rows (process_file' total' i' f st).2.
Proof.
  unfold process_file. destruct (try_file' f st) as [[f' st'] [e|]]; now split.
Qed.

Lemma process_files_found total total' files :
  forall i i' st,
  results (process_files' total i files st).2
  = results (process_files' total' i' files st).2
  /\ total_checked_rows (process_files' total i files st).2
     = total_checked_rows (process_files' total' i' files st).2.
Proof.
  induction files as [|f rest IH]; intros i i' st; [now split|].
  rewrite !process_files_cons. cbn [snd].
  rewrite (process_files_frame total rest (i + 1)).
  rewrite (process_files_frame total' rest (i' + 1)).
  cbn [snd merge_state results total_checked_rows].
  destruct (process_file_found total total' i i' f st) as [-> ->].
  destruct (IH (i + 1) (i' + 1) empty_state) as [-> ->]. now split.
Qed.

Lemma try_file_parse_fails f e st :
  parse_fails f e ->
  (try_file' f st).1.2 = st /\ (try_file' f st).2 = Some e.
Proof.
  unfold parse_fails, try_file. destruct (is_csv (f_name f)).
  - destruct (read_csv None f) as [[df|e'] f1]; cbn [fst snd]; [discriminate|].
    now intros [= ->].
  - destruct (read_sheets f) as [[sheets|e'] f1]; cbn [fst snd]; [discriminate|].
    now intros [= ->].
Qed.

Lemma process_file_parse_fails total i f e st :
  parse_fails f e ->
  (process_file' total i f st).2
  = add_event (Progress (i + 1) total) (add_event (ErrorFailed (f_name f) e) st).
Proof.
  intros H. unfold process_file.
  destruct (try_file_parse_fails f e st H) as [H1 H2].
  destruct (try_file' f st) as [[f' st'] err]. cbn [fst snd] in *. now subst.
Qed.

(** What the loop keeps of a table whose matches are not empty. *)
Lemma scan_table_keeps fname sheet_name df matched st :
  find_matches_in_dataframe df search_columns TARGET_SURNAMES modes = Ok matched ->
  df_empty matched = false ->
  scan_table' fname sheet_name df st
  = (add_result (stamp fname sheet_name matched) (add_rows (df_len df) st), None).
Proof.
  intros Hm He. unfold scan_table. now rewrite Hm, He.
Qed.

Lemma scan_table_no_raise fname sheet_name df st :
  substring modes = false \/ targets_compile TARGET_SURNAMES ->
  (scan_table' fname sheet_name df st).2 = None.
Proof.
  intros H. unfold scan_table.
  destruct (find_matches_returns df search_columns TARGET_SURNAMES modes H)
    as [matched ->].
  now destruct (negb (df_empty matched)).
Qed.

Lemma find_matches_of_empty df matched :
  df_empty df = true ->
  find_matches_in_dataframe df search_columns TARGET_SURNAMES modes = Ok matched ->
  df_empty matched = true.
Proof.
  intros He. unfold find_matches_in_dataframe. rewrite He. now intros [= <-].
Qed.

Lemma scan_sheets_keeps fname sheets sheet_name df matched :
  substring modes = false \/ targets_compile TARGET_SURNAMES ->
  (sheet_name, Some df) ∈ sheets ->
  find_matches_in_dataframe df search_columns TARGET_SURNAMES modes = Ok matched ->
  df_empty matched = false ->
  forall st,
  stamp fname sheet_name matched ∈ results (scan_sheets' fname sheets st).1.
Proof.
  intros Hret Hin Hm Hne.
  induction sheets as [|[name [d|]] rest IH]; intros st.
  - now apply elem_of_nil in Hin.
  - cbn [scan_sheets]. apply elem_of_cons in Hin as [Heq|Hin].
    + injection Heq as <- <-.
      destruct (df_empty df) eqn:He.
      { rewrite (find_matches_of_empty df matched He Hm) in Hne. discriminate. }
      rewrite (scan_table_keeps fname sheet_name df matched st Hm Hne).
      rewrite scan_sheets_frame. cbn [fst merge_state results add_result].
      apply elem_of_app. left. apply elem_of_app. right. left.
    + destruct (df_empty d); [now apply IH|].
      pose proof (scan_table_no_raise fname name d st Hret) as Hnone.
      destruct (scan_table' fname name d st) as [st' err]. cbn [snd] in Hnone.
      subst err. now apply IH.
  - cbn [scan_sheets]. apply elem_of_cons in Hin as [Heq|Hin]; [discriminate|].
    now apply IH.
Qed.

Lemma scan_sheets_keeps_head fname sheet_name df matched rest st :
  find_matches_in_dataframe df search_columns TARGET_SURNAMES modes = Ok matched ->
  df_empty matched = false ->
  stamp fname sheet_name matched
  ∈ results (scan_sheets' fname ((sheet_name, Some df) :: rest) st).1.
Proof.
  intros Hm Hne. cbn [scan_sheets].
  destruct (df_empty df) eqn:He.
  { rewrite (find_matches_of_empty df matched He Hm) in Hne. discriminate. }
  rewrite (scan_table_keeps fname sheet_name df matched st Hm Hne).
  rewrite scan_sheets_frame. cbn [fst merge_state results add_result].
  apply elem_of_app. left. apply elem_of_app. right. left.
Qed.

(** The matches of a table of the file are kept in its turn, when the file
    holds this table only or the matcher cannot raise. *)
Lemma try_file_keeps g sheet_name df matched st :
  reads_table g sheet_name df ->
  is_csv (f_name g) = true
  \/ (exists e, (pd_read_excel_all (f_data g) (f_pos g)).1 = Raise e)
  \/ substring modes = false \/ targets_compile TARGET_SURNAMES ->
  find_matches_in_dataframe df search_columns TARGET_SURNAMES modes = Ok matched ->
  df_empty matched = false ->
  stamp (f_name g) sheet_name matched ∈ results (try_file' g st).1.2.
Proof.
  unfold reads_table, try_file, read_sheets, read_csv, read_excel_all, read_excel.
  intros Hread Hcase Hm Hne. destruct (is_csv (f_name g)) eqn:Hcsv.
  - destruct Hread as [-> Hread].
    destruct (pd_read_csv None (f_data g) (f_pos g)) as [r p]. cbn [fst] in Hread.
    subst r. rewrite (scan_table_keeps _ _ df matched st Hm Hne).
    cbn [fst snd add_result results]. apply elem_of_app. right. left.
  - destruct Hcase as [Hcase|Hcase]; [discriminate|].
    destruct (pd_read_excel_all (f_data g) (f_pos g)) as [[sheets|e1] p].
    + destruct Hcase as [[e He]|Hret]; [discriminate He|].
      pose proof (scan_sheets_keeps (f_name g) sheets sheet_name df matched
                    Hret Hread Hm Hne st) as Hin.
      now destruct (scan_sheets' (f_name g) sheets st).
    + destruct Hread as [-> Hread]. cbn [seek0 set_pos f_data f_pos].
      destruct (pd_read_excel (f_data g) 0) as [r p']. cbn [fst] in Hread. subst r.
      pose proof (scan_sheets_keeps_head (f_name g) "Sheet1" df matched [] st
                    Hm Hne) as Hin.
      now destruct (scan_sheets' (f_name g) [("Sheet1", Some df)] st).
Qed.

Lemma process_file_results total i f st :
  results (process_file' total i f st).2 = results (try_file' f st).1.2.
Proof.
  unfold process_file. now destruct (try_file' f st) as [[f' st'] [e|]].
Qed.

Lemma try_file_results_mono f st m :
  m ∈ results st -> m ∈ results (try_file' f st).1.2.
Proof.
  intros H. rewrite try_file_frame. cbn [fst snd merge_state results].
  apply elem_of_app. now left.
Qed.

Lemma process_files_results_mono total files i st m :
  m ∈ results st -> m ∈ results (process_files' total i files st).2.
Proof.
  intros H. rewrite process_files_frame. cbn [snd merge_state results].
  apply elem_of_app. now left.
Qed.

(** What the turn of a file keeps is kept to the end of the loop. *)
Lemma process_files_keeps total files g sheet_name df matched :
  g ∈ files ->
  reads_table g sheet_name df ->
  is_csv (f_name g) = true
  \/ (exists e, (pd_read_excel_all (f_data g) (f_pos g)).1 = Raise e)
  \/ substring modes = false \/ targets_compile TARGET_SURNAMES ->
  find_matches_in_dataframe df search_columns TARGET_SURNAMES modes = Ok matched ->
  df_empty matched = false ->
  forall i st,
  stamp (f_name g) sheet_name matched ∈ results (process_files' total i files st).2.
Proof.
  intros Hin Hread Hcase Hm Hne.
  induction files as [|f rest IH]; intros i st; [now apply elem_of_nil in Hin|].
  rewrite process_files_cons. cbn [snd].
  apply elem_of_cons in Hin as [<-|Hin]; [|now apply IH].
  apply process_files_results_mono. rewrite process_file_results.
  now apply (try_file_keeps g sheet_name df).
Qed.

End LoopFacts.

(** ** The run *)

Section RunFacts.

Context {E : RegexEngine} {R : Readers}.

Lemma scan_table_log sc T modes fname sheet_name df st :
  log (scan_table sc T modes fname sheet_name df st).1 = log st.
Proof.
  unfold scan_table. destruct (find_matches_in_dataframe _ _ _ _) as [m|e];
    [destruct (negb (df_empty m))|]; reflexivity.
Qed.

Lemma scan_sheets_log sc T modes fname sheets :
  forall st, log (scan_sheets sc T modes fname sheets st).1 = log st.
Proof.
  induction sheets as [|[sheet_name [df|]] rest IH]; intros st;
    cbn [scan_sheets]; [reflexivity | | apply IH].
  destruct (df_empty df); [apply IH|].
  pose proof (scan_table_log sc T modes fname sheet_name df st) as Hl.
  destruct (scan_table sc T modes fname sheet_name df st) as [st' [e|]];
    cbn [fst] in *; [exact Hl|]. now rewrite IH.
Qed.

Lemma try_file_log sc T modes f st : log (try_file sc T modes f st).1.2 = log st.
Proof.
  unfold try_file. destruct (is_csv (f_name f)).
  - destruct (read_csv None f) as [[df|e] f1]; [|reflexivity].
    pose proof (scan_table_log sc T modes (f_name f) "<csv>" df st) as Hl.
    now destruct (scan_table sc T modes (f_name f) "<csv>" df st).
  - destruct (read_sheets f) as [[sheets|e] f1]; [|reflexivity].
    pose proof (scan_sheets_log sc T modes (f_name f) sheets st) as Hl.
    now destruct (scan_sheets sc T modes (f_name f) sheets st).
Qed.

Lemma process_file_events sc T modes total i f st ev :
  ev ∈ log (process_file sc T modes total i f st).2 -> ev ∈ log st \/ loop_event ev.
Proof.
  unfold process_file. pose proof (try_file_log sc T modes f st) as Hl.
  destruct (try_file sc T modes f st) as [[f' st'] [e|]]; cbn [fst snd] in *;
    cbn [add_event log]; rewrite ?elem_of_app, !list_elem_of_singleton, Hl;
    intuition (subst; cbn; auto).
Qed.

Lemma process_files_events sc T modes total files :
  forall i st ev,
  ev ∈ log (process_files sc T modes total i files st).2 ->
  ev ∈ log st \/ loop_event ev.
Proof.
  induction files as [|f rest IH]; intros i st ev; [now left|].
  rewrite process_files_cons. cbn [snd]. intros H.
  apply IH in H as [H|H]; [|now right]. now apply process_file_events in H.
Qed.

Lemma peek_same_file first :
  f_name (peek first).2 = f_name first /\ f_data (peek first).2 = f_data first.
Proof.
  unfold peek, read_csv, read_excel_all. destruct (is_csv (f_name first)).
  - now destruct (pd_read_csv _ _ _) as [[df|e] p].
  - cbn. now destruct (pd_read_excel_all _ _) as [[sheets|e] p].
Qed.

(** The choice of the columns shows at most the detected columns, and
    gives back the same files in the same order. *)
Lemma choose_columns_shown sc files shown :
  choose_columns sc files shown
  = ((choose_columns sc files []).1, shown ++ (choose_columns sc files []).2).
Proof.
  unfold choose_columns. destruct sc as [|c sc], files as [|first rest];
    cbn [fst snd]; rewrite ?app_nil_r; try reflexivity.
  destruct (peek first) as [peek_df first'].
  destruct (if negb (df_empty peek_df) then _ else _); cbn [fst snd];
    now rewrite ?app_nil_r.
Qed.

Lemma choose_columns_names sc files shown :
  f_name <$> (choose_columns sc files shown).1.2 = f_name <$> files.
Proof.
  unfold choose_columns. destruct sc as [|c sc], files as [|first rest];
    try reflexivity.
  pose proof (peek_same_file first) as [Hn _].
  destruct (peek first) as [peek_df first']. cbn [snd] in Hn.
  destruct (if negb (df_empty peek_df) then _ else _); cbn; now rewrite Hn.
Qed.

Lemma choose_columns_events sc files ev :
  ev ∈ (choose_columns sc files []).2 -> exists cols, ev = InfoAutoDetected cols.
Proof.
  unfold choose_columns. destruct sc as [|c sc], files as [|first rest];
    cbn [snd]; try (intros H; now apply elem_of_nil in H).
  destruct (peek first) as [peek_df first'].
  destruct (if negb (df_empty peek_df) then _ else _) as [|d ds]; cbn [snd].
  - intros H; now apply elem_of_nil in H.
  - intros H. apply list_elem_of_singleton in H. eauto.
Qed.

Lemma finalize_frame files' shown d :
  finalize
    (files',
     merge_state {| results := []; total_checked_rows := 0; log := shown |} d)
  = prepend_log shown (finalize (files', d)).
Proof.
  unfold finalize, prepend_log. cbn [merge_state results log total_checked_rows].
  rewrite app_nil_l. destruct (results d); cbn; now rewrite app_assoc.
Qed.

Lemma main_processing_core surnames_list files search_cols_input modes :
  surnames_list <> [] -> files <> [] ->
  main_processing surnames_list files search_cols_input modes
  = prepend_log
      (if (100 <? length files)%nat then [WarningTruncated] else [])
      (main_core surnames_list (capped files) search_cols_input modes).
Proof.
  intros Hs Hf. unfold main_processing, main_core.
  destruct files as [|f files]; [congruence|].
  destruct surnames_list as [|s0 sl]; [congruence|].
  set (fs := f :: files). set (T := surnames_set (s0 :: sl)).
  rewrite choose_columns_shown.
  destruct (choose_columns (parse_search_columns search_cols_input) (capped fs) [])
    as [[cols files'] shown'].
  cbn [fst snd]. rewrite process_files_frame. cbn [fst snd].
  rewrite finalize_frame. unfold prepend_log. cbn [out_log out_combined out_files].
  rewrite <- surjective_pairing. f_equal. rewrite <- !app_assoc. reflexivity.
Qed.

Lemma prepend_log_nil out : prepend_log [] out = out.
Proof. now destruct out. Qed.

Lemma finalize_files loop_end : out_files (finalize loop_end) = loop_end.1.
Proof.
  destruct loop_end as [fs st]. unfold finalize. now destruct (results st).
Qed.

Lemma finalize_log loop_end :
  exists ev,
    out_log (finalize loop_end) = log loop_end.2 ++ [ev]
    /\ (ev = WarningNoMatches \/ exists n checked, ev = SuccessFound n checked).
Proof.
  destruct loop_end as [fs st]. unfold finalize.
  destruct (results st); cbn [out_log snd]; eauto 6.
Qed.

Lemma capped_small files : length files <= 100 -> capped files = files.
Proof.
  intros H. unfold capped.
  destruct (100 <? length files)%nat eqn:Hlt; [|reflexivity].
  apply Nat.ltb_lt in Hlt. lia.
Qed.

Lemma capped_large files : 100 < length files -> capped files = take 100 files.
Proof.
  intros H. unfold capped. apply Nat.ltb_lt in H. now rewrite H.
Qed.

Lemma main_core_files surnames_list files search_cols_input modes :
  f_name <$> out_files (main_core surnames_list files search_cols_input modes)
  = f_name <$> files.
Proof.
  unfold main_core, prepend_log. cbn [out_files].
  now rewrite finalize_files, process_files_names, choose_columns_names.
Qed.

Lemma main_core_progress surnames_list files search_cols_input modes k :
  k < length files ->
  Progress (k + 1) (length files)
  ∈ out_log (main_core surnames_list files search_cols_input modes).
Proof.
  intros Hk. unfold main_core, prepend_log. cbn [out_log].
  set (chosen := choose_columns _ files []).
  assert (Hlen : length chosen.1.2 = length files).
  { pose proof (f_equal length
                  (choose_columns_names
                     (parse_search_columns search_cols_input) files [])) as H.
    now rewrite !length_fmap in H. }
  destruct (finalize_log
              (process_files chosen.1.1 (surnames_set surnames_list) modes
                 (length chosen.1.2) 0 chosen.1.2 empty_state)) as (ev & -> & _).
  apply elem_of_app. right. apply elem_of_app. left. rewrite Hlen.
  apply (process_files_progress _ _ _ _ _ 0). now rewrite Hlen.
Qed.

Lemma main_core_no_truncation surnames_list files search_cols_input modes :
  WarningTruncated ∉ out_log (main_core surnames_list files search_cols_input modes).
Proof.
  unfold main_core, prepend_log. cbn [out_log].
  set (chosen := choose_columns _ files []).
  destruct (finalize_log
              (process_files chosen.1.1 (surnames_set surnames_list) modes
                 (length chosen.1.2) 0 chosen.1.2 empty_state))
    as (ev & -> & Hev).
  rewrite <- app_comm_cons, elem_of_cons, !elem_of_app, list_elem_of_singleton.
  intros [H|[H|[H|H]]].
  - discriminate H.
  - apply choose_columns_events in H as [cols H]. discriminate H.
  - apply process_files_events in H as [H|H]; [now apply elem_of_nil in H|].
    exact H.
  - destruct Hev as [->|(n & c & ->)]; discriminate H.
Qed.

Lemma capped_cons first rest :
  exists files', capped (first :: rest) = first :: files'.
Proof.
  unfold capped. destruct (100 <? length (first :: rest))%nat; [|eauto].
  exists (take 99 rest). reflexivity.
Qed.

Lemma peek_csv_success first peek_df p1 :
  is_csv (f_name first) = true ->
  pd_read_csv (Some 50) (f_data first) (f_pos first) = (Ok peek_df, p1) ->
  peek first = (peek_df, set_pos p1 first).
Proof.
  intros Hcsv Hread. unfold peek, read_csv. now rewrite Hcsv, Hread.
Qed.

(** When the look at a CSV file raises, the handler puts the stream back
    to its start. *)
Lemma peek_csv_failure first e p1 :
  is_csv (f_name first) = true ->
  pd_read_csv (Some 50) (f_data first) (f_pos first) = (Raise e, p1) ->
  peek first = (empty_frame, set_pos 0 first).
Proof.
  intros Hcsv Hread. unfold peek, read_csv. now rewrite Hcsv, Hread.
Qed.

(** C10. No search column is given and the first file is a CSV file on
    which the look (at most 50 rows) succeeds and leaves the stream at
    [p1]: the loop is then run on the batch in which the first file stands
    at [p1], nothing having put it back to 0, and the turn of that file
    parses it with [pd.read_csv] from [p1]. *)
Theorem peek_leaves_stream_position surnames_list first rest search_cols_input
    modes peek_df p1 :
  surnames_list <> [] ->
  parse_search_columns search_cols_input = [] ->
  is_csv (f_name first) = true ->
  pd_read_csv (Some 50) (f_data first) (f_pos first) = (Ok peek_df, p1) ->
  let detected :=
    if negb (df_empty peek_df) then detect_surname_columns peek_df else [] in
  let T := surnames_set surnames_list in
  let first' := set_pos p1 first in
  f_pos first' = p1
  /\ (exists shown files',
        capped (first :: rest) = first :: files'
        /\ main_processing surnames_list (first :: rest) search_cols_input modes
           = prepend_log shown
               (finalize
                  (process_files detected T modes (S (length files')) 0
                     (first' :: files') empty_state)))
  /\ (forall st,
        try_file detected T modes first' st
        = match pd_read_csv None (f_data first) p1 with
          | (Raise e, p2) => (set_pos p2 first, st, Some e)
          | (Ok df, p2) =>
              let '(st', err) :=
                scan_table detected T modes (f_name first) "<csv>" df st in
              (set_pos p2 first, st', err)
          end).
Proof.
  intros Hs Hcols Hcsv Hread detected T first'. split_and!.
  - reflexivity.
  - destruct (capped_cons first rest) as [files' Hcap].
    exists ((if (100 <? length (first :: rest))%nat then [WarningTruncated] else [])
            ++ InfoProcessing (S (length files'))
               :: match detected with
                  | [] => []
                  | _ => [InfoAutoDetected detected]
                  end),
      files'.
    split; [exact Hcap|].
    rewrite main_processing_core by (assumption || discriminate).
    rewrite Hcap. unfold main_core. rewrite Hcols.
    unfold choose_columns. rewrite (peek_csv_success first peek_df p1 Hcsv Hread).
    fold detected. fold first'. fold T.
    unfold prepend_log. cbn [out_log out_combined out_files].
    destruct detected as [|d ds]; cbn [fst snd length app];
      now rewrite <- ?app_assoc.
  - intros st. unfold try_file, read_csv.
    cbn [first' set_pos f_name f_data f_pos]. rewrite Hcsv.
    destruct (pd_read_csv None (f_data first) p1) as [[df|e] p2]; reflexivity.
Qed.

End RunFacts.

(** C10 at a batch whose first file is a CSV file with a Surname column. *)
Lemma peek_leaves_stream_position_witness :
  let first := DemoFiles.surname_file in
  let first' := set_pos 35 first in
  let T := surnames_set ["smith"; "lee"] in
  f_pos first' = 35
  /\ (exists shown files',
        capped (first :: [DemoFiles.file3]) = first :: files'
        /\ main_processing (E := Fragment.engine) (R := DemoFiles.readers)
             ["smith"; "lee"] (first :: [DemoFiles.file3]) "" (Demo.exact_only false)
           = prepend_log shown
               (finalize
                  (process_files (E := Fragment.engine) (R := DemoFiles.readers)
                     ["Surname"] T (Demo.exact_only false) (S (length files')) 0
                     (first' :: files') empty_state)))
  /\ (forall st,
        try_file (E := Fragment.engine) (R := DemoFiles.readers)
          ["Surname"] T (Demo.exact_only false) first' st
        = match pd_read_csv (Readers := DemoFiles.readers) None (f_data first) 35 with
          | (Raise e, p2) => (set_pos p2 first, st, Some e)
          | (Ok df, p2) =>
              let '(st', err) :=
                scan_table (E := Fragment.engine) ["Surname"] T (Demo.exact_only false)
                  (f_name first) "<csv>" df st in
              (set_pos p2 first, st', err)
          end).
Proof.
  apply (peek_leaves_stream_position (E := Fragment.engine) (R := DemoFiles.readers)
           ["smith"; "lee"] DemoFiles.surname_file [DemoFiles.file3] ""
           (Demo.exact_only false)
           {| df_columns := [("Surname", dt_object); ("City", dt_object)];
              df_rows := [[CText "Smith"; CText "Leeds"];
                          [CText "Park"; CText "York"]] |}
           35).
  - discriminate.
  - vm_compute. reflexivity.
  - vm_compute. reflexivity.
  - vm_compute. reflexivity.
Defined.

(** The run of that batch: the look has used up the stream of the first
    file, whose turn in the loop then fails; with the column named by the
    user there is no look and the file is matched. *)
Lemma auto_detect_loses_first_csv :
  let run input :=
    main_processing (E := Fragment.engine) (R := DemoFiles.readers)
      ["smith"; "lee"] [DemoFiles.surname_file; DemoFiles.file3] input
      (Demo.exact_only false) in
  out_log (run "")
  = [InfoProcessing 2; InfoAutoDetected ["Surname"];
     ErrorFailed "people.csv" "No columns to parse from file";
     Progress 1 2; Progress 2 2; WarningNoMatches]
  /\ out_log (run "Surname")
     = [InfoProcessing 2; Progress 1 2; Progress 2 2; SuccessFound 1 3].
Proof. vm_compute. split; reflexivity. Qed.

(** ** More on the row matcher *)

Section MatcherMore.

Context {E : RegexEngine}.

Lemma filter_sublist {A : Type} (P : A -> Prop) `{forall x, Decision (P x)}
    (l : list A) : filter P l `sublist_of` l.
Proof.
  induction l as [|x l IH]; [constructor|].
  rewrite filter_cons. destruct (decide (P x)).
  - now apply sublist_skip.
  - now apply sublist_cons.
Qed.

(** X1. What the row matcher returns is the table cut down to the rows that
    hit in some searched column, in the order of the table: no row is
    added, changed or moved. A table with rows and columns keeps its
    columns; an empty one gives [pd.DataFrame()]. *)
Theorem matcher_returns_hit_rows df search_columns surnames modes out :
  find_matches_in_dataframe df search_columns surnames modes = Ok out ->
  df_rows out
  = filter (fun row =>
              row_hit df (text_cols df search_columns) surnames modes row = true)
           (df_rows df)
  /\ df_rows out `sublist_of` df_rows df
  /\ (df_empty df = false -> df_columns out = df_columns df)
  /\ (df_empty df = true -> out = empty_frame).
Proof.
  intros Hout.
  pose proof (find_matches_rows _ _ _ _ _ Hout) as Hrows.
  pose proof (find_matches_columns _ _ _ _ _ Hout) as Hcols.
  split_and!.
  - exact Hrows.
  - rewrite Hrows. apply filter_sublist.
  - intros He. now rewrite He in Hcols.
  - intros He. unfold find_matches_in_dataframe in Hout. rewrite He in Hout.
    now injection Hout.
Qed.

Lemma cell_hit_modes_off surnames last_token x :
  cell_hit surnames
    {| exact := false; substring := false; last_token_only := last_token |} x
  = false.
Proof. reflexivity. Qed.

(** X2. With exact mode and substring mode both off nothing is selected:
    the matcher returns, whatever the table, the columns and the targets,
    and what it returns has no rows. *)
Theorem matcher_no_mode_no_match df search_columns surnames last_token :
  exists out,
    find_matches_in_dataframe df search_columns surnames
      {| exact := false; substring := false; last_token_only := last_token |}
    = Ok out
    /\ df_rows out = [].
Proof.
  set (modes := {| exact := false; substring := false;
                   last_token_only := last_token |}).
  destruct (find_matches_returns df search_columns surnames modes) as [out Hout];
    [now left|].
  exists out. split; [exact Hout|].
  rewrite (find_matches_rows _ _ _ _ _ Hout). apply filter_none.
  intros row _. unfold row_hit.
  induction (text_cols df search_columns) as [|c cs IH]; [discriminate|].
  cbn [existsb]. unfold modes at 1. rewrite cell_hit_modes_off. exact IH.
Qed.

Lemma substring_loop_raises (col_series : list string) targets s msg :
  s ∈ targets -> s <> "" -> re_compile s = Raise msg ->
  forall mask, exists msg',
    foldM_outcome (substring_step col_series) mask targets = Raise msg'.
Proof.
  intros Hin Hne Hbad. induction targets as [|t targets IH]; intros mask.
  - now apply elem_of_nil in Hin.
  - cbn [foldM_outcome].
    destruct (substring_step col_series mask t) as [mask1|msg1] eqn:Hstep;
      cbn; [|eauto].
    apply elem_of_cons in Hin as [->|Hin]; [|now apply IH].
    unfold substring_step, str_contains in Hstep.
    apply truthy_true in Hne. rewrite Hne, Hbad in Hstep. discriminate Hstep.
Qed.

Lemma column_step_raises df surnames modes mask col s msg :
  substring modes = true ->
  s ∈ surnames -> s <> "" -> re_compile s = Raise msg ->
  exists msg', column_step df surnames modes mask col = Raise msg'.
Proof.
  intros Hsub Hin Hne Hbad. unfold column_step. rewrite Hsub.
  apply (substring_loop_raises _ _ s msg); [|exact Hne|exact Hbad].
  now apply elem_of_elements.
Qed.

Lemma find_matches_raises df search_columns surnames modes s msg :
  substring modes = true ->
  df_empty df = false ->
  text_cols df search_columns <> [] ->
  s ∈ surnames -> s <> "" -> re_compile s = Raise msg ->
  exists msg',
    find_matches_in_dataframe df search_columns surnames modes = Raise msg'.
Proof.
  intros Hsub He Hcols Hin Hne Hbad. unfold find_matches_in_dataframe.
  rewrite He. destruct (text_cols df search_columns) as [|col cols]; [congruence|].
  cbn [foldM_outcome].
  destruct (column_step_raises df surnames modes (replicate (df_len df) false)
              col s msg Hsub Hin Hne Hbad) as [msg' ->].
  cbn. eauto.
Qed.

(** X3. In substring mode a non-empty target that does not compile as a
    regular expression makes the matcher raise, as soon as the table has
    rows and columns and some column is searched. *)
Theorem matcher_raises_on_bad_pattern df search_columns surnames modes s msg :
  substring modes = true ->
  df_empty df = false ->
  text_cols df search_columns <> [] ->
  s ∈ surnames -> s <> "" -> re_compile s = Raise msg ->
  exists msg',
    find_matches_in_dataframe df search_columns surnames modes = Raise msg'.
Proof.
  intros Hsub He Hcols Hin Hne Hbad. unfold find_matches_in_dataframe.
  rewrite He. destruct (text_cols df search_columns) as [|col cols]; [congruence|].
  cbn [foldM_outcome].
  destruct (column_step_raises df surnames modes (replicate (df_len df) false)
              col s msg Hsub Hin Hne Hbad) as [msg' ->].
  cbn. eauto.
Qed.

(** X4. The empty target is skipped before any pattern is compiled: when
    the target set holds nothing but the empty string, substring mode alone
    returns with every engine and selects no row. *)
Theorem empty_target_never_matches df search_columns surnames last_token :
  (forall s, s ∈ surnames -> s = "") ->
  exists out,
    find_matches_in_dataframe df search_columns surnames
      {| exact := false; substring := true; last_token_only := last_token |}
    = Ok out
    /\ df_rows out = [].
Proof.
  intros Hall.
  set (modes := {| exact := false; substring := true;
                   last_token_only := last_token |}).
  destruct (find_matches_returns df search_columns surnames modes) as [out Hout].
  { right. intros s Hs Hne. now apply Hall in Hs. }
  exists out. split; [exact Hout|].
  rewrite (find_matches_rows _ _ _ _ _ Hout). apply filter_none.
  intros row _. unfold row_hit.
  enough (Hcell : forall x, cell_hit surnames modes x = false).
  { induction (text_cols df search_columns) as [|c cs IH]; [discriminate|].
    cbn [existsb]. now rewrite Hcell. }
  intros x. unfold cell_hit. cbn [exact substring modes andb orb].
  assert (Hel : forall s, s ∈ elements surnames -> s = "")
    by (intros s Hs; apply Hall; now apply elem_of_elements in Hs).
  induction (elements surnames) as [|t ts IH]; [reflexivity|].
  cbn [existsb]. rewrite (Hel t) by left. cbn [truthy andb orb].
  apply IH. intros s Hs. apply Hel. now right.
Qed.

End MatcherMore.

(** X1 at a table of two names. *)
Lemma matcher_returns_hit_rows_witness :
  let df := Demo.names_frame ["Lee"; " SMITH "] in
  let out := Demo.names_frame [" SMITH "] in
  df_rows out
  = filter (fun row =>
              row_hit (E := Fragment.engine) df (text_cols df [])
                (surnames_set ["Smith "]) (Demo.exact_only false) row = true)
           (df_rows df)
  /\ df_rows out `sublist_of` df_rows df
  /\ (df_empty df = false -> df_columns out = df_columns df)
  /\ (df_empty df = true -> out = empty_frame).
Proof.
  apply (matcher_returns_hit_rows (E := Fragment.engine)
           (Demo.names_frame ["Lee"; " SMITH "]) [] (surnames_set ["Smith "])
           (Demo.exact_only false)).
  vm_compute. reflexivity.
Defined.

(** X3 at the target "smith (jr", whose bracket is not closed. *)
Lemma matcher_raises_on_bad_pattern_witness :
  exists msg',
    find_matches_in_dataframe (E := Fragment.engine)
      (Demo.names_frame ["Smith"]) ["Name"] {[ "smith (jr" ]} Demo.substring_only
    = Raise msg'.
Proof.
  apply (matcher_raises_on_bad_pattern (E := Fragment.engine)
           (Demo.names_frame ["Smith"]) ["Name"] {[ "smith (jr" ]}
           Demo.substring_only "smith (jr" "pattern outside the fragment").
  - reflexivity.
  - reflexivity.
  - vm_compute. discriminate.
  - apply elem_of_singleton. reflexivity.
  - discriminate.
  - vm_compute. reflexivity.
Defined.

(** X4 at the target set that holds the empty string only. *)
Lemma empty_target_never_matches_witness :
  exists out,
    find_matches_in_dataframe (E := Fragment.engine)
      (Demo.names_frame ["Smith"]) ["Name"] {[ "" ]}
      {| exact := false; substring := true; last_token_only := false |}
    = Ok out
    /\ df_rows out = [].
Proof.
  apply (empty_target_never_matches (E := Fragment.engine)).
  intros s Hs. now apply elem_of_singleton in Hs.
Defined.

(** ** More on the surname list and on normalisation *)

Section SurnameList.

Lemma dict_fromkeys_aux_drop_seen seen l : dict_fromkeys_aux seen l = drop_seen seen l.
Proof.
  revert seen. induction l as [|x l IH]; intros seen; [reflexivity|].
  cbn. destruct (decide (x ∈ seen)); now rewrite IH.
Qed.

Lemma dict_fromkeys_elem l x : x ∈ dict_fromkeys l <-> x ∈ l.
Proof.
  unfold dict_fromkeys. rewrite dict_fromkeys_aux_drop_seen, drop_seen_elem.
  split; [tauto|]. intros H. split; [exact H|]. apply not_elem_of_nil.
Qed.

Lemma drop_seen_NoDup_id {A : Type} `{EqDecision A} (l : list A) :
  forall seen, NoDup l -> (forall x, x ∈ l -> x ∉ seen) -> drop_seen seen l = l.
Proof.
  induction l as [|x l IH]; intros seen Hnd Hseen; [reflexivity|].
  apply NoDup_cons in Hnd as [Hx Hnd]. cbn [drop_seen].
  rewrite decide_False by (apply Hseen; left).
  f_equal. apply IH; [exact Hnd|].
  intros y Hy Hin. apply elem_of_cons in Hin as [->|Hin]; [exact (Hx Hy)|].
  apply (Hseen y); [now right | exact Hin].
Qed.

Lemma normalize_surnames_list_elem l x :
  x ∈ normalize_surnames_list l <-> exists s, s ∈ l /\ strip s = x /\ x <> "".
Proof.
  unfold normalize_surnames_list. rewrite dict_fromkeys_elem, list_elem_of_fmap.
  split.
  - intros (s & -> & Hs). apply list_elem_of_filter in Hs as [Ht Hs].
    exists s. split_and!; [exact Hs | reflexivity | now apply truthy_true].
  - intros (s & Hs & <- & Hne). exists s. split; [reflexivity|].
    apply list_elem_of_filter. split; [now apply truthy_true | exact Hs].
Qed.

(** An entry loaded after the others goes to the end of the kept list, and
    only when it is new. *)
Lemma normalize_surnames_list_snoc l s :
  normalize_surnames_list (l ++ [s])
  = if decide (strip s = "" \/ strip s ∈ normalize_surnames_list l)
    then normalize_surnames_list l
    else normalize_surnames_list l ++ [strip s].
Proof.
  unfold normalize_surnames_list, dict_fromkeys.
  rewrite !dict_fromkeys_aux_drop_seen, filter_app, fmap_app.
  set (kept := strip <$> filter (fun s => truthy (strip s) = true) l).
  rewrite filter_cons, filter_nil.
  destruct (decide (truthy (strip s) = true)) as [Ht|Ht].
  - cbn [fmap list_fmap]. rewrite drop_seen_snoc.
    apply truthy_true in Ht.
    assert (Hin : strip s ∈ drop_seen [] kept <-> strip s ∈ kept).
    { rewrite drop_seen_elem. split; [tauto|]. intros H. split; [exact H|].
      apply not_elem_of_nil. }
    destruct (decide (strip s ∈ [] \/ strip s ∈ kept)) as [[H|H]|H].
    + now apply elem_of_nil in H.
    + rewrite decide_True; [reflexivity|]. right. now apply Hin.
    + rewrite decide_False; [reflexivity|]. intros [H'|H']; [contradiction|].
      apply H. right. now apply Hin.
  - cbn [fmap list_fmap]. rewrite app_nil_r, decide_True; [reflexivity|].
    left. destruct (strip s); [reflexivity|]. exfalso. now apply Ht.
Qed.

Lemma filter_all {A : Type} (P : A -> Prop) `{forall x, Decision (P x)} (l : list A) :
  (forall x, x ∈ l -> P x) -> filter P l = l.
Proof.
  induction l as [|x l IH]; intros HP; [reflexivity|].
  rewrite filter_cons, decide_True by (apply HP; left).
  f_equal. apply IH. intros y Hy. apply HP. now right.
Qed.

(** X5. The surname list that the page keeps has every entry once, in the
    order of first appearance: an entry loaded after the others is put at
    the end of the kept list when it is not blank and its stripped form is
    not kept yet, and changes nothing otherwise. Every entry is stripped and
    not empty; an entry is kept exactly when it is the stripped form of a
    loaded entry that is not blank; and normalising the kept list again
    changes nothing. *)
Theorem normalize_surnames_list_unique (loaded : list string) :
  NoDup (normalize_surnames_list loaded)
  /\ (forall x, x ∈ normalize_surnames_list loaded <->
                exists s, s ∈ loaded /\ strip s = x /\ x <> "")
  /\ (forall x, x ∈ normalize_surnames_list loaded -> strip x = x /\ x <> "")
  /\ normalize_surnames_list loaded
     `sublist_of` (strip <$> loaded)
  /\ (forall s,
        normalize_surnames_list (loaded ++ [s])
        = if decide (strip s = "" \/ strip s ∈ normalize_surnames_list loaded)
          then normalize_surnames_list loaded
          else normalize_surnames_list loaded ++ [strip s])
  /\ normalize_surnames_list ["Lee"; " Smith"; "Lee "; "Smith"] = ["Lee"; "Smith"]
  /\ normalize_surnames_list (normalize_surnames_list loaded)
     = normalize_surnames_list loaded.
Proof.
  assert (Hnd : NoDup (normalize_surnames_list loaded)).
  { unfold normalize_surnames_list, dict_fromkeys.
    rewrite dict_fromkeys_aux_drop_seen. apply drop_seen_NoDup. }
  assert (Hclean : forall x, x ∈ normalize_surnames_list loaded ->
                     strip x = x /\ x <> "").
  { intros x Hx. apply normalize_surnames_list_elem in Hx as (s & _ & <- & Hne).
    split; [apply strip_idem | exact Hne]. }
  split_and!.
  - exact Hnd.
  - apply normalize_surnames_list_elem.
  - exact Hclean.
  - unfold normalize_surnames_list, dict_fromkeys.
    rewrite dict_fromkeys_aux_drop_seen.
    etransitivity; [apply drop_seen_sublist|].
    apply fmap_sublist, filter_sublist.
  - intros s. apply normalize_surnames_list_snoc.
  - vm_compute. reflexivity.
  - set (kept := normalize_surnames_list loaded) in *.
    unfold normalize_surnames_list at 1.
    rewrite filter_all.
    2:{ intros x Hx. apply truthy_true. destruct (Hclean x Hx) as [Hst Hne].
        now rewrite Hst. }
    replace (strip <$> kept) with kept.
    2:{ rewrite <- (list_fmap_id kept) at 1. apply list_fmap_ext.
        intros i x Hx. cbn. symmetry. apply Hclean.
        now apply list_elem_of_lookup_2 in Hx. }
    unfold dict_fromkeys. rewrite dict_fromkeys_aux_drop_seen.
    apply drop_seen_NoDup_id; [exact Hnd|]. intros x _. apply not_elem_of_nil.
Qed.

Lemma surnames_set_elem l m :
  m ∈ surnames_set l <-> exists s, s ∈ l /\ strip s <> "" /\ m = lower (strip s).
Proof.
  unfold surnames_set. rewrite elem_of_list_to_set, list_elem_of_fmap. split.
  - intros (s & -> & Hs). apply list_elem_of_filter in Hs as [Ht Hs].
    apply andb_prop in Ht as [_ Ht]. exists s.
    split_and!; [exact Hs | now apply truthy_true | reflexivity].
  - intros (s & Hs & Hne & ->). exists s. split; [reflexivity|].
    apply list_elem_of_filter. split; [|exact Hs].
    apply andb_true_intro. split; apply truthy_true; [|exact Hne].
    intros ->. now apply Hne.
Qed.

(** X6. The target set is built from the kept list, and it is the set that
    the loaded list itself gives. It has at most as many members as the
    kept list has entries: that count is shown as the number of unique
    surnames, and entries that differ in case only count twice there. *)
Theorem target_set_of_normalised_list (loaded : list string) :
  surnames_set (normalize_surnames_list loaded) = surnames_set loaded
  /\ size (surnames_set loaded) <= length (normalize_surnames_list loaded)
  /\ length (normalize_surnames_list ["Smith"; "smith"]) = 2
  /\ size (surnames_set ["Smith"; "smith"]) = 1.
Proof.
  assert (Heq : surnames_set (normalize_surnames_list loaded) = surnames_set loaded).
  { apply set_eq. intros m. rewrite !surnames_set_elem. split.
    - intros (x & Hx & Hne & ->).
      apply normalize_surnames_list_elem in Hx as (s & Hs & <- & _).
      exists s. rewrite strip_idem in *. auto.
    - intros (s & Hs & Hne & ->). exists (strip s). rewrite strip_idem.
      split_and!; [|exact Hne|reflexivity].
      apply normalize_surnames_list_elem. eauto. }
  split_and!; [exact Heq | | reflexivity | reflexivity].
  rewrite <- Heq. unfold surnames_set.
  set (kept := normalize_surnames_list loaded).
  set (l := (fun s => lower (strip s)) <$> filter _ kept).
  transitivity (length l).
  - unfold size, set_size. cbn. apply submseteq_length, NoDup_submseteq.
    + apply NoDup_elements.
    + intros x Hx. apply elem_of_elements in Hx. now apply elem_of_list_to_set in Hx.
  - unfold l. rewrite length_fmap. apply length_filter.
Qed.

End SurnameList.

(** ** More on the comparison strings *)

Section ComparisonStrings.

Lemma lstrip_all_space ws : all_chars is_space ws = true -> lstrip ws = "".
Proof.
  induction ws as [|c ws IH]; [reflexivity|]. cbn [all_chars lstrip]. intros H.
  apply andb_prop in H as [-> H]. now apply IH.
Qed.

Lemma lstrip_app_space ws s :
  all_chars is_space ws = true -> lstrip (ws ++ s)%string = lstrip s.
Proof.
  induction ws as [|c ws IH]; [reflexivity|]. cbn [all_chars]. intros H.
  apply andb_prop in H as [Hc H]. rewrite append_cons. cbn [lstrip].
  rewrite Hc. now apply IH.
Qed.

Lemma rstrip_all_space ws : all_chars is_space ws = true -> rstrip ws = "".
Proof.
  induction ws as [|c ws IH]; [reflexivity|]. cbn [all_chars]. intros H.
  apply andb_prop in H as [Hc H]. rewrite rstrip_cons, (IH H). now rewrite Hc.
Qed.

Lemma rstrip_app_space s ws :
  all_chars is_space ws = true -> rstrip (s ++ ws)%string = rstrip s.
Proof.
  intros H. induction s as [|c s IH].
  - rewrite append_nil. now apply rstrip_all_space.
  - rewrite append_cons, !rstrip_cons. now rewrite IH.
Qed.

Lemma strip_padded ws1 s ws2 :
  all_chars is_space ws1 = true -> all_chars is_space ws2 = true ->
  strip (ws1 ++ s ++ ws2)%string = strip s.
Proof.
  intros H1 H2. unfold strip. rewrite lstrip_app_space by exact H1.
  induction s as [|c s IH].
  - rewrite append_nil. now rewrite (lstrip_all_space ws2 H2).
  - rewrite append_cons. cbn [lstrip]. destruct (is_space c); [exact IH|].
    rewrite <- append_cons. now apply rstrip_app_space.
Qed.

Lemma lstrip_lower s : lstrip (lower s) = lower (lstrip s).
Proof.
  induction s as [|c s IH]; [reflexivity|]. cbn [lower lstrip].
  rewrite is_space_lower_char. destruct (is_space c); [exact IH|reflexivity].
Qed.

Lemma rstrip_lower s : rstrip (lower s) = lower (rstrip s).
Proof.
  induction s as [|c s IH]; [reflexivity|]. cbn [lower].
  rewrite !rstrip_cons, IH, is_space_lower_char.
  destruct (rstrip s) as [|d r]; cbn [lower]; [|reflexivity].
  now destruct (is_space c).
Qed.

Lemma strip_lower s : strip (lower s) = lower (strip s).
Proof. unfold strip. now rewrite lstrip_lower, rstrip_lower. Qed.

(** X7. [normalize_text] does not see whitespace around a text nor the
    case of its letters: padding a text with whitespace, or writing it with
    other capitals, gives the same comparison string. The result has no
    whitespace at its ends and no capital, and normalising it again changes
    nothing. *)
Theorem normalize_text_insensitive (s : string) :
  (forall ws1 ws2,
     all_chars is_space ws1 = true -> all_chars is_space ws2 = true ->
     normalize_text (CText (ws1 ++ s ++ ws2)%string) = normalize_text (CText s))
  /\ (forall s', lower s' = lower s ->
                 normalize_text (CText s') = normalize_text (CText s))
  /\ normalize_text (CText (normalize_text (CText s))) = normalize_text (CText s)
  /\ no_outer_space (normalize_text (CText s))
  /\ all_chars (fun c => negb (is_upper c)) (normalize_text (CText s)) = true.
Proof.
  unfold normalize_text. cbn [py_str]. split_and!.
  - intros ws1 ws2 H1 H2. now rewrite strip_padded.
  - intros s' H. now rewrite <- !strip_lower, H.
  - rewrite <- strip_lower, lower_idem, strip_lower.
    now rewrite strip_idem.
  - apply lower_no_outer_space, strip_no_outer_space.
  - apply lower_no_upper.
Qed.

Lemma is_sep_lower_char c : is_sep (lower_char c) = is_sep c.
Proof.
  destruct c as [[] [] [] [] [] [] [] []]; reflexivity.
Qed.

Lemma all_nonsep_lower s :
  all_chars (fun c => negb (is_sep c)) (lower s)
  = all_chars (fun c => negb (is_sep c)) s.
Proof.
  induction s as [|c s IH]; [reflexivity|]. cbn [lower all_chars].
  now rewrite is_sep_lower_char, IH.
Qed.

(** X8. The last token that is compared never holds a separator
    (whitespace, comma, semicolon, slash, backslash) nor a capital, and
    it is its own last token. *)
Theorem last_name_token_clean (x : cell) :
  all_chars (fun c => negb (is_sep c)) (last_name_token x) = true
  /\ all_chars (fun c => negb (is_upper c)) (last_name_token x) = true
  /\ last_name_token (CText (last_name_token x)) = last_name_token x.
Proof.
  rewrite !last_name_token_tokens. cbn [py_str].
  destruct (final_token_exists (py_str x))
    as [Hall|(tok & Hfin)].
  - rewrite (tokens_all_sep _ _ Hall). cbn. now split_and!.
  - rewrite (tokens_final _ _ Hfin). cbn [last].
    destruct Hfin as (pre & suf & _ & Hne & Htok & _).
    assert (Hlow : all_chars (fun c => negb (is_sep c)) (lower tok) = true)
      by now rewrite all_nonsep_lower.
    split_and!; [exact Hlow | apply lower_no_upper |].
    rewrite (tokens_single is_sep (lower tok)); [|now rewrite lower_empty_iff|exact Hlow].
    cbn. apply lower_idem.
Qed.

(** X9. On a cell whose stripped text holds no separator the last token is
    the whole normalised text: for such cells the two ways of comparing
    agree. *)
Theorem single_token_modes_agree (x : cell) :
  all_chars (fun c => negb (is_sep c)) (strip (py_str (fillna_empty x))) = true ->
  comparison_string true x = comparison_string false x.
Proof.
  intros H. unfold comparison_string, normalize_text, last_name_token.
  fold (tokens is_sep (strip (py_str (fillna_empty x)))).
  destruct (strip (py_str (fillna_empty x))) as [|c s] eqn:Hs; [reflexivity|].
  rewrite tokens_single; [reflexivity|discriminate|exact H].
Qed.

End ComparisonStrings.

(** X9 at the cell " Smith-Jones ". *)
Lemma single_token_modes_agree_witness :
  comparison_string true (CText " Smith-Jones ")
  = comparison_string false (CText " Smith-Jones ").
Proof.
  apply (single_token_modes_agree (CText " Smith-Jones ")).
  vm_compute. reflexivity.
Defined.

(** ** Splitting texts *)

Section Splitting.

Lemma all_chars_lstrip p s : all_chars p s = true -> all_chars p (lstrip s) = true.
Proof.
  induction s as [|c s IH]; [reflexivity|]. intros H. cbn [lstrip].
  destruct (is_space c); [|exact H].
  cbn [all_chars] in H. apply andb_prop in H as [_ H]. now apply IH.
Qed.

Lemma all_chars_rstrip p s : all_chars p s = true -> all_chars p (rstrip s) = true.
Proof.
  induction s as [|c s IH]; [reflexivity|]. cbn [all_chars]. intros H.
  apply andb_prop in H as [Hc H]. rewrite rstrip_cons.
  specialize (IH H). destruct (rstrip s) as [|d r].
  - destruct (is_space c); [reflexivity|]. cbn. now rewrite Hc.
  - cbn [all_chars] in *. now rewrite Hc, IH.
Qed.

Lemma all_chars_strip p s : all_chars p s = true -> all_chars p (strip s) = true.
Proof. intros H. now apply all_chars_rstrip, all_chars_lstrip. Qed.

Lemma strip_all_space s : all_chars is_space s = true -> strip s = "".
Proof. intros H. unfold strip. now rewrite lstrip_all_space. Qed.

Lemma all_chars_and p q s :
  all_chars (fun c => p c && q c) s = all_chars p s && all_chars q s.
Proof.
  induction s as [|c s IH]; [reflexivity|]. cbn [all_chars]. rewrite IH.
  destruct (p c), (q c), (all_chars p s), (all_chars q s); reflexivity.
Qed.

Lemma all_chars_impl (p q : ascii -> bool) s :
  (forall c, p c = true -> q c = true) ->
  all_chars p s = true -> all_chars q s = true.
Proof.
  intros Hpq. induction s as [|c s IH]; [reflexivity|]. cbn [all_chars].
  intros H. apply andb_prop in H as [Hc H]. now rewrite (Hpq c Hc), IH.
Qed.

Lemma all_chars_true s : all_chars (fun _ => true) s = true.
Proof. induction s as [|c s IH]; [reflexivity|exact IH]. Qed.

(** The pieces of [split_char] hold no separator, and only characters of
    the text. *)
Lemma split_char_pieces sep p s :
  all_chars p s = true ->
  Forall (fun t => all_chars (fun c => p c && negb (Ascii.eqb c sep)) t = true)
         (split_char sep s).
Proof.
  induction s as [|c s IH]; [repeat constructor|]. cbn [all_chars split_char].
  intros H. apply andb_prop in H as [Hc H]. specialize (IH H).
  destruct (Ascii.eqb c sep) eqn:Hsep; [now constructor|].
  destruct (split_char sep s) as [|t ts]; [repeat constructor; cbn; now rewrite Hc, Hsep|].
  apply Forall_cons in IH as [Ht Hts]. constructor; [|exact Hts].
  cbn [all_chars]. now rewrite Hc, Hsep, Ht.
Qed.

Lemma split_char_whole sep t :
  all_chars (fun c => negb (Ascii.eqb c sep)) t = true -> split_char sep t = [t].
Proof.
  induction t as [|c t IH]; [reflexivity|]. cbn [all_chars split_char]. intros H.
  apply andb_prop in H as [Hc H]. apply negb_true_iff in Hc.
  now rewrite Hc, (IH H).
Qed.

Lemma split_char_app sep t r :
  all_chars (fun c => negb (Ascii.eqb c sep)) t = true ->
  split_char sep (t ++ String sep r)%string = t :: split_char sep r.
Proof.
  induction t as [|c t IH]; intros H.
  - rewrite append_nil. cbn [split_char]. now rewrite Ascii.eqb_refl.
  - cbn [all_chars] in H. apply andb_prop in H as [Hc H].
    apply negb_true_iff in Hc. rewrite append_cons. cbn [split_char].
    now rewrite Hc, (IH H).
Qed.

(** X10. The search columns read from the text field: every name is
    stripped, is not empty and holds no comma; a field of whitespace and
    commas only names no column; and names given with commas between them,
    with or without whitespace around them, are read back stripped, in
    order. *)
Theorem parse_search_columns_round_trip (search_cols_input : string) :
  (forall c, c ∈ parse_search_columns search_cols_input ->
     strip c = c /\ c <> ""
     /\ all_chars (fun a => negb (Ascii.eqb a ",")) c = true)
  /\ (all_chars (fun a => is_space a || Ascii.eqb a ",") search_cols_input = true ->
      parse_search_columns search_cols_input = [])
  /\ (forall names,
        (forall n, n ∈ names ->
           strip n <> ""
           /\ all_chars (fun a => negb (Ascii.eqb a ",")) n = true) ->
        parse_search_columns (join_with "," names) = strip <$> names).
Proof.
  split_and!.
  - intros c Hc. unfold parse_search_columns in Hc.
    apply list_elem_of_fmap in Hc as (t & -> & Ht).
    apply list_elem_of_filter in Ht as [Hne Ht].
    split_and!; [apply strip_idem | now apply truthy_true |].
    apply all_chars_strip.
    pose proof (split_char_pieces "," (fun _ => true) search_cols_input
                  (all_chars_true search_cols_input)) as Hp.
    rewrite Forall_forall in Hp. apply Hp in Ht. exact Ht.
  - intros Hall. unfold parse_search_columns.
    rewrite filter_none; [reflexivity|]. intros t Ht Hne.
    pose proof (split_char_pieces "," _ search_cols_input Hall) as Hp.
    rewrite Forall_forall in Hp. apply Hp in Ht.
    assert (Hsp : all_chars is_space t = true).
    { revert Ht. apply all_chars_impl. intros c Hc.
      apply andb_prop in Hc as [Hc Hn]. apply negb_true_iff in Hn.
      rewrite Hn, orb_false_r in Hc. exact Hc. }
    now rewrite (strip_all_space t Hsp) in Hne.
  - intros names. induction names as [|n names IH]; intros Hn; [reflexivity|].
    destruct (Hn n) as [Hne Hcomma]; [left|].
    assert (Hrest : forall m, m ∈ names ->
              strip m <> ""
              /\ all_chars (fun a => negb (Ascii.eqb a ",")) m = true)
      by (intros m Hm; apply Hn; now right).
    specialize (IH Hrest). destruct names as [|m names].
    + cbn [join_with]. unfold parse_search_columns.
      rewrite split_char_whole by exact Hcomma.
      rewrite filter_cons, decide_True by now apply truthy_true. reflexivity.
    + change (join_with "," (n :: m :: names))
        with (n ++ String "," (join_with "," (m :: names)))%string.
      unfold parse_search_columns in *.
      rewrite split_char_app by exact Hcomma.
      rewrite filter_cons, decide_True by now apply truthy_true.
      cbn [fmap list_fmap]. cbn [fmap list_fmap] in IH. now rewrite IH.
Qed.

End Splitting.

(** ** The text of surnames *)

Section SurnameText.

Lemma splitlines_pieces p s :
  all_chars p s = true ->
  forall after_cr,
  Forall (fun t => all_chars (fun c => p c && negb (is_linebreak c)) t = true)
         (splitlines_from after_cr s).
Proof.
  induction s as [|c s IH]; [constructor|]. cbn [all_chars splitlines_from].
  intros H after_cr. apply andb_prop in H as [Hc H]. specialize (IH H).
  destruct (after_cr && Ascii.eqb c "010"); [apply IH|].
  destruct (is_linebreak c) eqn:Hb; [constructor; [reflexivity|apply IH]|].
  specialize (IH false). destruct (splitlines_from false s) as [|t ts].
  - repeat constructor. cbn. now rewrite Hc, Hb.
  - apply Forall_cons in IH as [Ht Hts]. constructor; [|exact Hts].
    cbn [all_chars]. now rewrite Hc, Hb, Ht.
Qed.

Lemma splitlines_whole t :
  t <> "" -> all_chars (fun c => negb (is_linebreak c)) t = true ->
  splitlines_from false t = [t].
Proof.
  induction t as [|c t IH]; [congruence|]. intros _ H. cbn [all_chars] in H.
  apply andb_prop in H as [Hc H]. apply negb_true_iff in Hc.
  cbn [splitlines_from andb]. rewrite Hc.
  destruct t as [|d t]; [reflexivity|]. now rewrite IH.
Qed.

Lemma splitlines_app t r :
  all_chars (fun c => negb (is_linebreak c)) t = true ->
  splitlines_from false (t ++ String "010" r)%string = t :: splitlines_from false r.
Proof.
  induction t as [|c t IH]; intros H.
  - rewrite append_nil. reflexivity.
  - cbn [all_chars] in H. apply andb_prop in H as [Hc H].
    apply negb_true_iff in Hc. rewrite append_cons.
    cbn [splitlines_from andb]. now rewrite Hc, (IH H).
Qed.

Lemma replace_char_app a b s t :
  replace_char a b (s ++ t)%string
  = (replace_char a b s ++ replace_char a b t)%string.
Proof.
  induction s as [|c s IH]; [reflexivity|].
  rewrite append_cons. cbn [replace_char]. now rewrite IH.
Qed.

Lemma replace_char_absent a b s :
  all_chars (fun c => negb (Ascii.eqb c a)) s = true -> replace_char a b s = s.
Proof.
  induction s as [|c s IH]; [reflexivity|]. cbn [all_chars replace_char].
  intros H. apply andb_prop in H as [Hc H]. apply negb_true_iff in Hc.
  now rewrite Hc, (IH H).
Qed.

Lemma replace_char_gone a b s :
  Ascii.eqb b a = false ->
  all_chars (fun c => negb (Ascii.eqb c a)) (replace_char a b s) = true.
Proof.
  intros Hba. induction s as [|c s IH]; [reflexivity|].
  cbn [replace_char all_chars]. rewrite IH.
  destruct (Ascii.eqb c a) eqn:Hc; [now rewrite Hba | now rewrite Hc].
Qed.

Lemma replace_join_commas names :
  (forall n, n ∈ names -> all_chars (fun c => negb (Ascii.eqb c ",")) n = true) ->
  replace_char "," "010" (join_with "," names)
  = join_with (String "010" "") names.
Proof.
  induction names as [|n names IH]; intros H; [reflexivity|].
  assert (Hn := H n ltac:(left)).
  assert (IH' := IH ltac:(intros m Hm; apply H; now right)).
  destruct names as [|m names]; [now apply replace_char_absent|].
  change (join_with "," (n :: m :: names))
    with (n ++ String "," (join_with "," (m :: names)))%string.
  change (join_with (String "010" "") (n :: m :: names))
    with (n ++ String "010" (join_with (String "010" "") (m :: names)))%string.
  rewrite replace_char_app, replace_char_absent by exact Hn.
  cbn [replace_char]. now rewrite IH'.
Qed.

Lemma items_of_lines names :
  (forall n, n ∈ names ->
     strip n <> "" /\ all_chars (fun c => negb (is_linebreak c)) n = true) ->
  strip <$>
  filter (fun s => truthy (strip s) = true)
         (splitlines (join_with (String "010" "") names))
  = strip <$> names.
Proof.
  unfold splitlines.
  induction names as [|n names IH]; intros H; [reflexivity|].
  destruct (H n) as [Hne Hb]; [left|].
  assert (IH' := IH ltac:(intros m Hm; apply H; now right)).
  destruct names as [|m names].
  - cbn [join_with]. rewrite splitlines_whole; [|intros ->; now apply Hne|exact Hb].
    rewrite filter_cons, decide_True by now apply truthy_true. reflexivity.
  - change (join_with (String "010" "") (n :: m :: names))
      with (n ++ String "010" (join_with (String "010" "") (m :: names)))%string.
    rewrite splitlines_app by exact Hb.
    rewrite filter_cons, decide_True by now apply truthy_true.
    cbn [fmap list_fmap]. cbn [fmap list_fmap] in IH'. now rewrite IH'.
Qed.

(** X11. The entries read from a text of surnames (pasted, or the content
    of a text file): every entry is stripped and not empty and holds
    neither a comma nor a line boundary; and surnames written one per line,
    or with commas between them, are read back stripped, in order. *)
Theorem surname_items_round_trip (text : string) :
  (forall x, x ∈ surname_items text ->
     strip x = x /\ x <> ""
     /\ all_chars (fun c => negb (Ascii.eqb c ",") && negb (is_linebreak c)) x
        = true)
  /\ (forall names,
        (forall n, n ∈ names ->
           strip n <> ""
           /\ all_chars (fun c => negb (Ascii.eqb c ",") && negb (is_linebreak c)) n
              = true) ->
        surname_items (join_with (String "010" "") names) = strip <$> names
        /\ surname_items (join_with "," names) = strip <$> names).
Proof.
  split.
  - intros x Hx. unfold surname_items in Hx.
    apply list_elem_of_fmap in Hx as (t & -> & Ht).
    apply list_elem_of_filter in Ht as [Hne Ht].
    split_and!; [apply strip_idem | now apply truthy_true |].
    apply all_chars_strip.
    pose proof (splitlines_pieces _ _ (replace_char_gone "," "010" text eq_refl) false)
      as Hp.
    rewrite Forall_forall in Hp. now apply Hp.
  - intros names Hn.
    assert (Hcomma : forall n, n ∈ names ->
              all_chars (fun c => negb (Ascii.eqb c ",")) n = true).
    { intros n Hin. destruct (Hn n Hin) as [_ H].
      rewrite all_chars_and in H. now apply andb_prop in H as [H _]. }
    assert (Hlines : forall n, n ∈ names ->
              strip n <> ""
              /\ all_chars (fun c => negb (is_linebreak c)) n = true).
    { intros n Hin. destruct (Hn n Hin) as [Hne H]. split; [exact Hne|].
      rewrite all_chars_and in H. now apply andb_prop in H as [_ H]. }
    assert (Hnl : replace_char "," "010" (join_with (String "010" "") names)
                  = join_with (String "010" "") names).
    { clear Hn Hlines. induction names as [|n names IH]; [reflexivity|].
      assert (Hn := Hcomma n ltac:(left)).
      assert (IH' := IH ltac:(intros m Hm; apply Hcomma; now right)).
      destruct names as [|m names]; [now apply replace_char_absent|].
      change (join_with (String "010" "") (n :: m :: names))
        with (n ++ String "010" (join_with (String "010" "") (m :: names)))%string.
      rewrite replace_char_app, replace_char_absent by exact Hn.
      cbn [replace_char]. cbn [Ascii.eqb Bool.eqb]. now rewrite IH'. }
    unfold surname_items. split.
    + rewrite Hnl. now apply items_of_lines.
    + rewrite replace_join_commas by exact Hcomma. now apply items_of_lines.
Qed.

End SurnameText.

(** ** More on the column detector and on file names *)

Section DetectorMore.

(** X12. The detector returns only columns of the table, each one a column
    whose lower-cased name is a candidate; a column whose lower-cased name
    is a candidate is answered by a returned column of the same lower-cased
    name; so nothing is returned exactly when no column name is a candidate
    in lower case. *)
Theorem detect_returns_columns (df : DataFrame) :
  (forall c, c ∈ detect_surname_columns df ->
     c ∈ column_names df /\ lower c ∈ COMMON_SURNAME_COLS)
  /\ (forall c, c ∈ column_names df -> lower c ∈ COMMON_SURNAME_COLS ->
        exists c', c' ∈ detect_surname_columns df /\ lower c' = lower c)
  /\ (detect_surname_columns df = [] <->
      forall c, c ∈ column_names df -> lower c ∉ COMMON_SURNAME_COLS).
Proof.
  unfold detect_surname_columns. rewrite detect_columns_with_omap.
  set (cols := column_names df).
  assert (H1 : forall c, c ∈ omap (column_for cols) COMMON_SURNAME_COLS ->
                 c ∈ cols /\ lower c ∈ COMMON_SURNAME_COLS).
  { intros c Hc. apply list_elem_of_omap in Hc as (k & Hk & Hc).
    apply column_for_Some in Hc as [Hin <-]. now split. }
  assert (H2 : forall c, c ∈ cols -> lower c ∈ COMMON_SURNAME_COLS ->
                 exists c', c' ∈ omap (column_for cols) COMMON_SURNAME_COLS
                            /\ lower c' = lower c).
  { intros c Hc Hk. destruct (column_for cols (lower c)) as [c'|] eqn:Hfor.
    - exists c'. split; [|now apply column_for_Some in Hfor as [_ ?]].
      apply list_elem_of_omap. eauto.
    - apply column_for_None in Hfor. exfalso. apply Hfor.
      apply list_elem_of_fmap. eauto. }
  split_and!; [exact H1 | exact H2 |]. split.
  - intros Hnil c Hc Hk. destruct (H2 c Hc Hk) as (c' & Hc' & _).
    rewrite Hnil in Hc'. now apply elem_of_nil in Hc'.
  - intros Hnone. destruct (omap _ _) as [|c l] eqn:Ho; [reflexivity|].
    destruct (H1 c) as [Hc Hk]; [left|]. now apply Hnone in Hc.
Qed.

Lemma ends_with_iff suffix s :
  ends_with suffix s = true <-> exists pre, s = (pre ++ suffix)%string.
Proof.
  induction s as [|c s IH]; cbn [ends_with].
  - rewrite orb_false_r, String.eqb_eq. split.
    + intros <-. now exists "".
    + intros [[|d pre] H]; [now rewrite append_nil in H|].
      rewrite append_cons in H. discriminate H.
  - rewrite orb_true_iff, String.eqb_eq, IH. split.
    + intros [<-|[pre ->]]; [now exists ""|]. now exists (String c pre).
    + intros [[|d pre] H]; [left; now rewrite append_nil in H|right].
      rewrite append_cons in H. injection H as -> ->. eauto.
Qed.

Lemma lower_app s t : lower (s ++ t)%string = (lower s ++ lower t)%string.
Proof.
  induction s as [|c s IH]; [reflexivity|].
  rewrite append_cons. cbn [lower]. now rewrite IH, append_cons.
Qed.

(** X13. A file is read as CSV exactly when its name, in lower case, ends
    with ".csv": the case of the extension does not matter, and every other
    name goes to the workbook reader. *)
Theorem is_csv_by_extension (fname : string) :
  (is_csv fname = true <-> exists stem, lower fname = (stem ++ ".csv")%string)
  /\ (forall stem ext, lower ext = ".csv" -> is_csv (stem ++ ext)%string = true)
  /\ is_csv "report.csv.xlsx" = false.
Proof.
  unfold is_csv. split_and!.
  - apply ends_with_iff.
  - intros stem ext Hext. apply ends_with_iff. exists (lower stem).
    now rewrite lower_app, Hext.
  - reflexivity.
Qed.

End DetectorMore.

(** ** The provenance columns *)

Section Stamping.

Lemma index_of_first x (l : list string) i :
  index_of x l = Some i -> forall j, j < i -> l !! j <> Some x.
Proof.
  unfold index_of. destruct (list_find _ l) as [[k y]|] eqn:H; [|discriminate].
  cbn. intros [= ->]. apply list_find_Some in H as (_ & _ & Hfirst).
  intros j Hj Hl. exact (Hfirst j x Hl Hj eq_refl).
Qed.

Lemma index_of_elem x (l : list string) :
  x ∈ l -> exists i, index_of x l = Some i.
Proof.
  intros Hin. destruct (index_of x l) as [i|] eqn:H; [eauto|].
  now apply index_of_None in H.
Qed.

Lemma index_of_unique x (l : list string) i j :
  index_of x l = Some i -> l !! j = Some x -> i <= j.
Proof.
  intros Hi Hj. destruct (decide (i <= j)) as [|Hlt]; [assumption|].
  exfalso. apply (index_of_first x l i Hi j); [lia | exact Hj].
Qed.

Lemma index_of_app_l x (l k : list string) i :
  index_of x l = Some i -> index_of x (l ++ k) = Some i.
Proof.
  unfold index_of. destruct (list_find _ l) as [[j y]|] eqn:H; [|discriminate].
  cbn. intros [= ->]. now rewrite (list_find_app_l _ _ k _ _ H).
Qed.

Lemma index_of_snoc_new x (l : list string) :
  x ∉ l -> index_of x (l ++ [x]) = Some (length l).
Proof.
  intros Hx. unfold index_of.
  enough (H : list_find (fun y => y = x) (l ++ [x]) = Some (length l, x))
    by now rewrite H.
  apply list_find_app_Some. right. split_and!.
  - lia.
  - apply list_find_None, Forall_forall. intros y Hy ->. exact (Hx Hy).
  - rewrite Nat.sub_diag. cbn. now rewrite decide_True.
Qed.

Lemma index_of_snoc_other x n (l : list string) :
  x <> n -> index_of x (l ++ [n]) = index_of x l.
Proof.
  intros Hne. destruct (index_of x l) as [i|] eqn:H.
  - now apply index_of_app_l.
  - apply index_of_absent. intros Hin. apply elem_of_app in Hin as [Hin|Hin].
    + now apply index_of_None in H.
    + apply list_elem_of_singleton in Hin. contradiction.
Qed.

Lemma set_column_rows name value df :
  df_rows (set_column name value df) = set_row name value df <$> df_rows df.
Proof.
  unfold set_column, set_row. now destruct (index_of name (column_names df)).
Qed.

Lemma set_column_names name value df :
  column_names (set_column name value df)
  = match index_of name (column_names df) with
    | Some _ => column_names df
    | None => column_names df ++ [name]
    end.
Proof.
  unfold set_column, column_names.
  destruct (index_of name (fst <$> df_columns df)) as [i|] eqn:Hi; cbn [df_columns].
  - rewrite list_fmap_insert. cbn [fst]. apply list_insert_id.
    now apply index_of_Some.
  - now rewrite fmap_app.
Qed.

Lemma set_column_length name value df row :
  length row = length (df_columns df) ->
  length (set_row name value df row)
  = length (df_columns (set_column name value df)).
Proof.
  intros H. unfold set_row, set_column.
  destruct (index_of name (column_names df)); cbn [df_columns].
  - now rewrite !length_insert.
  - rewrite !length_app. cbn. lia.
Qed.

Lemma set_column_well_formed name value df :
  well_formed df -> well_formed (set_column name value df).
Proof.
  unfold well_formed. rewrite set_column_rows, Forall_fmap. intros H.
  eapply Forall_impl; [exact H|]. intros row Hr. cbn.
  now apply set_column_length.
Qed.

Lemma names_length df : length (column_names df) = length (df_columns df).
Proof. unfold column_names. apply length_fmap. Qed.

(** The assigned column holds the value in every row. *)
Lemma set_column_cell name value df row :
  length row = length (df_columns df) ->
  row_cell (set_column name value df) name (set_row name value df row)
  = CText value.
Proof.
  intros Hlen. unfold row_cell, set_row. rewrite set_column_names.
  destruct (index_of name (column_names df)) as [i|] eqn:Hi.
  - rewrite Hi. rewrite list_lookup_insert_eq; [reflexivity|].
    apply index_of_Some, lookup_lt_Some in Hi. rewrite names_length in Hi. lia.
  - rewrite index_of_snoc_new by now apply index_of_None.
    rewrite names_length, <- Hlen, lookup_app_r by lia.
    now rewrite Nat.sub_diag.
Qed.

(** The other columns keep their cells. *)
Lemma set_column_cell_other name value df row col :
  col <> name ->
  length row = length (df_columns df) ->
  row_cell (set_column name value df) col (set_row name value df row)
  = row_cell df col row.
Proof.
  intros Hne Hlen. unfold row_cell, set_row. rewrite set_column_names.
  destruct (index_of name (column_names df)) as [i|] eqn:Hi.
  - destruct (index_of col (column_names df)) as [j|] eqn:Hj; [|reflexivity].
    rewrite list_lookup_insert_ne; [reflexivity|]. intros ->.
    apply index_of_Some in Hi, Hj. congruence.
  - rewrite index_of_snoc_other by exact Hne.
    destruct (index_of col (column_names df)) as [j|] eqn:Hj; [|reflexivity].
    rewrite lookup_app_l; [reflexivity|].
    apply index_of_Some, lookup_lt_Some in Hj. rewrite names_length in Hj. lia.
Qed.

End Stamping.

Section StampedMatches.

Context {E : RegexEngine}.

Lemma set_column_has_name name value df :
  name ∈ column_names (set_column name value df).
Proof.
  rewrite set_column_names.
  destruct (index_of name (column_names df)) as [i|] eqn:Hi.
  - apply index_of_Some in Hi. now apply list_elem_of_lookup_2 in Hi.
  - apply elem_of_app. right. left.
Qed.

Lemma set_column_keeps_names name value df col :
  col ∈ column_names df -> col ∈ column_names (set_column name value df).
Proof.
  intros H. rewrite set_column_names.
  destruct (index_of name (column_names df)); [exact H|].
  apply elem_of_app. now left.
Qed.

Lemma row_cell_names a b col row :
  column_names a = column_names b -> row_cell a col row = row_cell b col row.
Proof. intros H. unfold row_cell. now rewrite H. Qed.

Lemma df_empty_false df :
  df_empty df = false -> df_columns df <> [] /\ df_rows df <> [].
Proof.
  unfold df_empty. destruct (df_columns df), (df_rows df); now intros.
Qed.

(** The matches of a well-formed table are well formed, and they are not
    empty only when the table is not. *)
Lemma find_matches_well_formed df search_columns surnames modes out :
  find_matches_in_dataframe df search_columns surnames modes = Ok out ->
  well_formed df -> df_empty out = false ->
  well_formed out /\ df_columns out = df_columns df.
Proof.
  intros Hout Hwf Hne.
  pose proof (find_matches_rows _ _ _ _ _ Hout) as Hrows.
  pose proof (find_matches_columns _ _ _ _ _ Hout) as Hcols.
  destruct (df_empty df) eqn:He.
  - apply df_empty_false in Hne as [Hne _]. congruence.
  - split; [|exact Hcols]. unfold well_formed in *. rewrite Hrows, Hcols.
    apply Forall_forall. intros row Hrow.
    apply list_elem_of_filter in Hrow as [_ Hrow].
    rewrite Forall_forall in Hwf. now apply Hwf.
Qed.

(** X14. What the loop keeps of a well-formed table: nothing, or one frame
    with at least one row, which has the columns [__source_file] and
    [__sheet_name]; each of its rows holds the name of the file and the name
    of the sheet there, and is otherwise, column by column, a row of the
    table that hit. *)
Theorem matched_rows_are_stamped search_columns surnames modes
    fname sheet_name df st :
  well_formed df ->
  let st' := (scan_table search_columns surnames modes fname sheet_name df st).1 in
  results st' = results st
  \/ exists m,
       results st' = results st ++ [m]
       /\ df_rows m <> []
       /\ well_formed m
       /\ "__source_file" ∈ column_names m
       /\ "__sheet_name" ∈ column_names m
       /\ Forall (fun row' =>
            row_cell m "__source_file" row' = CText fname
            /\ row_cell m "__sheet_name" row' = CText sheet_name
            /\ exists row,
                 row ∈ df_rows df
                 /\ row_hit df (text_cols df search_columns) surnames modes row
                    = true
                 /\ forall col,
                      col <> "__source_file" -> col <> "__sheet_name" ->
                      row_cell m col row' = row_cell df col row)
          (df_rows m).
Proof.
  intros Hwf. unfold scan_table.
  destruct (find_matches_in_dataframe df search_columns surnames modes)
    as [matched|e] eqn:Hout; [|now left].
  destruct (df_empty matched) eqn:Hne; cbn [negb fst]; [now left|].
  right.
  destruct (find_matches_well_formed _ _ _ _ _ Hout Hwf Hne) as [Hwfm Hcols].
  set (m1 := set_column "__source_file" fname matched).
  set (m := set_column "__sheet_name" sheet_name m1).
  assert (Hwf1 : well_formed m1) by now apply set_column_well_formed.
  exists m. split_and!.
  - reflexivity.
  - apply df_empty_false in Hne as [_ Hrows]. unfold m, m1.
    rewrite !set_column_rows. intros H.
    apply fmap_nil_inv, fmap_nil_inv in H. contradiction.
  - now apply set_column_well_formed.
  - apply set_column_keeps_names, set_column_has_name.
  - apply set_column_has_name.
  - unfold m, m1. rewrite !set_column_rows, !Forall_fmap.
    apply Forall_forall. intros row Hrow. cbn.
    fold m1. fold m.
    assert (Hlen : length row = length (df_columns matched)).
    { unfold well_formed in Hwfm. rewrite Forall_forall in Hwfm. now apply Hwfm. }
    assert (Hlen1 : length (set_row "__source_file" fname matched row)
                    = length (df_columns m1))
      by now apply set_column_length.
    split_and!.
    + unfold m. rewrite set_column_cell_other by (discriminate || exact Hlen1).
      now apply set_column_cell.
    + now apply set_column_cell.
    + exists row. rewrite (find_matches_rows _ _ _ _ _ Hout) in Hrow.
      apply list_elem_of_filter in Hrow as [Hhit Hrow].
      split_and!; [exact Hrow | exact Hhit |].
      intros col Hf Hs. unfold m.
      rewrite set_column_cell_other by assumption.
      unfold m1. rewrite set_column_cell_other by assumption.
      apply row_cell_names. unfold column_names. now rewrite Hcols.
Qed.

End StampedMatches.

(** X14 at the table of the first sample file. *)
Lemma matched_rows_are_stamped_witness :
  let df :=
    {| df_columns := [("Name", dt_object); ("City", dt_object)];
       df_rows := [[CText "John Smith"; CText "Leeds"];
                   [CText "Bob Park"; CText "York"]] |} in
  let T := surnames_set ["smith"; "lee"] in
  let modes := DemoFiles.last_token_substring in
  let st' :=
    (scan_table (E := Fragment.engine) ["Name"] T modes "one.csv" "<csv>" df
       empty_state).1 in
  results st' = results empty_state
  \/ exists m,
       results st' = results empty_state ++ [m]
       /\ df_rows m <> []
       /\ well_formed m
       /\ "__source_file" ∈ column_names m
       /\ "__sheet_name" ∈ column_names m
       /\ Forall (fun row' =>
            row_cell m "__source_file" row' = CText "one.csv"
            /\ row_cell m "__sheet_name" row' = CText "<csv>"
            /\ exists row,
                 row ∈ df_rows df
                 /\ row_hit (E := Fragment.engine) df (text_cols df ["Name"]) T
                      modes row = true
                 /\ forall col,
                      col <> "__source_file" -> col <> "__sheet_name" ->
                      row_cell m col row' = row_cell df col row)
          (df_rows m).
Proof.
  apply (matched_rows_are_stamped (E := Fragment.engine) ["Name"]
           (surnames_set ["smith"; "lee"]) DemoFiles.last_token_substring
           "one.csv" "<csv>").
  repeat constructor.
Defined.

(** ** More on the loop over the files *)

Section LoopMore.

Context {E : RegexEngine} {R : Readers}.
Variable search_columns : list string.
Variable TARGET_SURNAMES : gset string.
Variable modes : MatchModes.

Local Abbreviation try_file'' := (try_file search_columns TARGET_SURNAMES modes).
Local Abbreviation process_files'' :=
  (process_files search_columns TARGET_SURNAMES modes).
Local Abbreviation scan_sheets'' :=
  (scan_sheets search_columns TARGET_SURNAMES modes).
Local Abbreviation scan_table'' :=
  (scan_table search_columns TARGET_SURNAMES modes).

(** X15. The log of the loop, file by file in the order of the batch: for
    each file at most one error, which names that file, and then the
    progress bar one step further; nothing else is shown, and what was
    shown before stays. *)
Theorem loop_log_shape total files :
  forall i st,
  exists errs,
    length errs = length files
    /\ log (process_files'' total i files st).2
       = log st ++ turns_events total i (zip files errs).
Proof.
  induction files as [|f rest IH]; intros i st.
  - exists []. split; [reflexivity|]. cbn. now rewrite app_nil_r.
  - rewrite process_files_cons. cbn [snd].
    destruct (IH (i + 1)
                (process_file search_columns TARGET_SURNAMES modes total i f st).2)
      as (errs & Hlen & ->).
    exists ((try_file'' f st).2 :: errs). split; [cbn; now rewrite Hlen|].
    unfold process_file. pose proof (try_file_log search_columns TARGET_SURNAMES
                                       modes f st) as Hl.
    destruct (try_file'' f st) as [[f' st'] [e|]]; cbn [fst snd] in *;
      cbn [add_event log zip zip_with turns_events]; rewrite Hl, <- ?app_assoc;
      reflexivity.
Qed.

End LoopMore.

(** ** The master table *)

Section MasterTable.

Lemma union_columns_names frames c :
  c ∈ (fst <$> union_columns frames)
  <-> exists m, m ∈ frames /\ c ∈ column_names m.
Proof.
  unfold union_columns.
  enough (H : forall acc : list (string * dtype),
            c ∈ (fst <$> foldl (fun acc df =>
                                  acc ++ filter (fun h => h.1 ∉ (fst <$> acc))
                                           (df_columns df)) acc frames)
            <-> c ∈ (fst <$> acc) \/ exists m, m ∈ frames /\ c ∈ column_names m).
  { rewrite H. split; [|eauto]. intros [Hc|Hc]; [|exact Hc].
    now apply elem_of_nil in Hc. }
  induction frames as [|df frames IH]; intros acc; cbn [foldl].
  - split; [now left|]. intros [H|(m & Hm & _)]; [exact H|].
    now apply elem_of_nil in Hm.
  - rewrite IH, fmap_app, elem_of_app. unfold column_names. split.
    + intros [[H|H]|(m & Hm & Hc)]; [now left| |].
      * right. exists df. split; [left|].
        apply list_elem_of_fmap in H as (h & -> & Hh).
        apply list_elem_of_filter in Hh as [_ Hh].
        apply list_elem_of_fmap. eauto.
      * right. exists m. split; [now right | exact Hc].
    + intros [H|(m & Hm & Hc)]; [now left; left|].
      apply elem_of_cons in Hm as [->|Hm]; [|right; eauto].
      left. destruct (decide (c ∈ fst <$> acc)) as [Hin|Hnot]; [now left|right].
      apply list_elem_of_fmap in Hc as (h & -> & Hh).
      apply list_elem_of_fmap. exists h. split; [reflexivity|].
      apply list_elem_of_filter. now split.
Qed.

Lemma concat_names frames :
  column_names (concat frames) = fst <$> union_columns frames.
Proof.
  unfold column_names, concat, concat_columns. cbn [df_columns].
  rewrite <- list_fmap_compose. reflexivity.
Qed.

Lemma concat_columns_names frames c :
  c ∈ column_names (concat frames)
  <-> exists m, m ∈ frames /\ c ∈ column_names m.
Proof. rewrite concat_names. apply union_columns_names. Qed.

Lemma row_cell_absent df col row : col ∉ column_names df -> row_cell df col row = CMissing.
Proof. intros H. unfold row_cell. now rewrite index_of_absent. Qed.

Lemma upcast_cell_missing d : upcast_cell d CMissing = CMissing.
Proof. now destruct d. Qed.

(** A row keeps its cells under the names of its columns when it is put
    into the concatenated frame, converted to the dtype of the column, and
    is missing under the other names. *)
Lemma concat_row_cell frames m row col :
  m ∈ frames ->
  row_cell (concat frames) col (reindex_row m (df_columns (concat frames)) row)
  = upcast_cell (concat_dtype frames col) (row_cell m col row).
Proof.
  intros Hm. unfold row_cell at 1, reindex_row.
  destruct (index_of col (column_names (concat frames))) as [i|] eqn:Hi.
  - apply index_of_Some in Hi. rewrite list_lookup_fmap.
    unfold column_names in Hi. rewrite list_lookup_fmap in Hi.
    destruct (df_columns (concat frames) !! i) as [h|] eqn:Hh; [|discriminate].
    cbn in Hi. injection Hi as Hi. cbn.
    unfold concat, concat_columns in Hh. cbn [df_columns] in Hh.
    rewrite list_lookup_fmap in Hh.
    destruct (union_columns frames !! i) as [h0|]; [|discriminate].
    cbn in Hh. injection Hh as <-. cbn in *. now subst col.
  - rewrite (row_cell_absent m col row); [now rewrite upcast_cell_missing|].
    intros Hc. apply index_of_None in Hi. apply Hi.
    apply concat_columns_names. eauto.
Qed.

Lemma concat_rows_elem frames row' :
  row' ∈ df_rows (concat frames)
  <-> exists m row,
        m ∈ frames /\ row ∈ df_rows m
        /\ row' = reindex_row m (df_columns (concat frames)) row.
Proof.
  unfold concat at 1. cbn [df_rows]. rewrite list_elem_of_bind. split.
  - intros (m & Hrow & Hm). apply list_elem_of_fmap in Hrow as (row & -> & Hrow).
    exists m, row. auto.
  - intros (m & row & Hm & Hrow & ->). exists m. split; [|exact Hm].
    apply list_elem_of_fmap. eauto.
Qed.

Lemma row_cell_elem df col row x :
  row_cell df col row = x -> x = CMissing \/ x ∈ row.
Proof.
  unfold row_cell. destruct (index_of col (column_names df)) as [i|]; [|now left].
  destruct (row !! i) as [y|] eqn:Hy; cbn; intros <-; [right|now left].
  now apply list_elem_of_lookup_2 in Hy.
Qed.

(** The frames that the loop keeps hold no float, and then no column of the
    concatenated frame holds both an integer and a float: a float64 column
    holds floats and missing values, and the other columns hold no float. A
    number is then equal to another as a value of Python exactly when the
    two cells are equal. *)
Lemma concat_columns_homogeneous frames row' i h x :
  (forall m row y z, m ∈ frames -> row ∈ df_rows m -> y ∈ row -> y <> CFloat z) ->
  row' ∈ df_rows (concat frames) ->
  df_columns (concat frames) !! i = Some h ->
  row' !! i = Some x ->
  if decide (h.2 = dt_float64) then forall z, x <> CInt z
  else forall z, x <> CFloat z.
Proof.
  intros Hno Hrow' Hh Hx.
  apply concat_rows_elem in Hrow' as (m & row & Hm & Hrow & ->).
  unfold reindex_row in Hx. rewrite list_lookup_fmap, Hh in Hx. cbn in Hx.
  injection Hx as <-.
  destruct (row_cell_elem m h.1 row _ eq_refl) as [Hc|Hc].
  - rewrite Hc. destruct (decide (h.2 = dt_float64)); destruct h.2; discriminate.
  - specialize (Hno m row (row_cell m h.1 row)).
    destruct (row_cell m h.1 row) as [s|z0|z0|] eqn:Hcell.
    + destruct (decide (h.2 = dt_float64)); destruct h.2; discriminate.
    + destruct (decide (h.2 = dt_float64)) as [->|Hne]; [discriminate|].
      destruct h.2; try discriminate. congruence.
    + exfalso. now apply (Hno z0 Hm Hrow Hc).
    + destruct (decide (h.2 = dt_float64)); destruct h.2; discriminate.
Qed.

Lemma concat_rows_length frames : df_len (concat frames) = total_rows frames.
Proof.
  unfold df_len, concat. cbn [df_rows].
  generalize (concat_columns frames). intros cols.
  induction frames as [|df frames IH]; [reflexivity|].
  cbn [total_rows foldr]. fold (total_rows frames). rewrite <- IH.
  cbn [mbind list_bind]. rewrite length_app, length_fmap. reflexivity.
Qed.


Lemma column_dtype_Some df c d :
  column_dtype df c = Some d -> c ∈ column_names df.
Proof.
  unfold column_dtype.
  destruct (list_find _ (df_columns df)) as [[i h]|] eqn:Hf; [|discriminate].
  intros _. apply list_find_Some in Hf as (Hl & <- & _).
  unfold column_names. apply list_elem_of_fmap. exists h. split; [reflexivity|].
  now apply list_elem_of_lookup_2 in Hl.
Qed.

Lemma column_dtype_None df c :
  column_dtype df c = None -> c ∉ column_names df.
Proof.
  unfold column_dtype.
  destruct (list_find _ (df_columns df)) as [[i h]|] eqn:Hf; [discriminate|].
  intros _ Hin. apply list_find_None in Hf. rewrite Forall_forall in Hf.
  apply list_elem_of_fmap in Hin as (h & -> & Hh). now apply (Hf h).
Qed.

Lemma common_dtype_float64 ds lacking :
  common_dtype ds lacking = dt_float64
  <-> (forall d, d ∈ ds -> is_numeric_dtype d = true)
      /\ (lacking = true \/ exists d, d ∈ ds /\ d <> dt_int64).
Proof.
  unfold common_dtype.
  destruct (forallb (fun d => bool_decide (d = dt_int64)) ds) eqn:Hint.
  - rewrite forallb_forall in Hint.
    assert (Hall : forall d, d ∈ ds -> d = dt_int64).
    { intros d Hd. apply list_elem_of_In, Hint in Hd.
      now apply bool_decide_eq_true in Hd. }
    destruct lacking; split.
    + intros _. split; [|now left]. intros d Hd. now rewrite (Hall d Hd).
    + reflexivity.
    + discriminate.
    + intros [_ [H|(d & Hd & Hne)]]; [discriminate|]. now apply Hall in Hd.
  - assert (Hsome : exists d, d ∈ ds /\ d <> dt_int64).
    { apply not_true_iff_false in Hint.
      destruct (decide (Exists (fun d => d <> dt_int64) ds)) as [Hex|Hex].
      - apply Exists_exists in Hex. exact Hex.
      - exfalso. apply Hint. apply forallb_forall. intros d Hd.
        apply bool_decide_eq_true. apply list_elem_of_In in Hd.
        destruct (decide (d = dt_int64)) as [|Hne]; [assumption|].
        exfalso. apply Hex, Exists_exists. eauto. }
    destruct (forallb is_numeric_dtype ds) eqn:Hnum.
    + rewrite forallb_forall in Hnum. split; [|reflexivity]. intros _.
      split; [|now right]. intros d Hd. now apply Hnum, list_elem_of_In.
    + assert (Hnot : ~ forall d, d ∈ ds -> is_numeric_dtype d = true).
      { intros H. apply not_true_iff_false in Hnum. apply Hnum.
        apply forallb_forall. intros d Hd. now apply H, list_elem_of_In. }
      split; [|intros [H _]; contradiction].
      now destruct (forallb (fun d => bool_decide (d = dt_string)) ds).
Qed.

(** A column of the concatenated frame is float64 exactly when every frame
    that has it has it as a column of numbers, and some frame lacks it or
    has it as float64. *)
Lemma concat_dtype_float64 frames c :
  concat_dtype frames c = dt_float64
  <-> (forall m d, m ∈ frames -> column_dtype m c = Some d ->
         is_numeric_dtype d = true)
      /\ (exists m, m ∈ frames /\ column_dtype m c <> Some dt_int64).
Proof.
  unfold concat_dtype. rewrite common_dtype_float64.
  assert (Hds : forall d, d ∈ omap (fun df => column_dtype df c) frames
                  <-> exists m, m ∈ frames /\ column_dtype m c = Some d).
  { intros d. rewrite list_elem_of_omap. reflexivity. }
  assert (Hlack : existsb (fun df => bool_decide (c ∉ column_names df)) frames = true
                  <-> exists m, m ∈ frames /\ column_dtype m c = None).
  { rewrite existsb_exists. split.
    - intros (m & Hm & Hc). apply bool_decide_eq_true in Hc.
      exists m. split; [now apply list_elem_of_In|].
      destruct (column_dtype m c) as [d|] eqn:Hd; [|reflexivity].
      now apply column_dtype_Some in Hd.
    - intros (m & Hm & Hc). exists m. split; [now apply list_elem_of_In|].
      apply bool_decide_eq_true. now apply column_dtype_None. }
  split.
  - intros [Hnum Hcase]. split.
    + intros m d Hm Hd. apply Hnum, Hds. eauto.
    + destruct Hcase as [Hl|(d & Hd & Hne)].
      * apply Hlack in Hl as (m & Hm & Hc). exists m. split; [exact Hm|].
        now rewrite Hc.
      * apply Hds in Hd as (m & Hm & Hc). exists m. split; [exact Hm|].
        rewrite Hc. congruence.
  - intros [Hnum (m & Hm & Hne)]. split.
    + intros d Hd. apply Hds in Hd as (m' & Hm' & Hc). now apply (Hnum m').
    + destruct (column_dtype m c) as [d|] eqn:Hc.
      * right. exists d. split; [apply Hds; eauto | congruence].
      * left. apply Hlack. eauto.
Qed.

Lemma upcast_cell_cases d x :
  (d <> dt_float64 -> upcast_cell d x = x)
  /\ (forall z, x = CInt z -> upcast_cell dt_float64 x = CFloat (float_of_int z))
  /\ ((forall z, x <> CInt z) -> upcast_cell d x = x).
Proof.
  split_and!.
  - intros Hd. destruct d, x; try reflexivity. congruence.
  - intros z ->. reflexivity.
  - intros Hx. destruct d, x; try reflexivity. now destruct (Hx z).
Qed.

Lemma float_of_int_small z : (Z.abs z <= 2 ^ 53)%Z -> float_of_int z = z.
Proof.
  intros Hz. unfold float_of_int.
  destruct (decide (Z.abs z = 2 ^ 53)%Z) as [Heq|Hne].
  - destruct (Z.abs_eq_or_opp z) as [H|H]; rewrite H in Heq.
    + subst z. vm_compute. reflexivity.
    + assert (z = (- 2 ^ 53)%Z) as -> by lia. vm_compute. reflexivity.
  - assert (Hlt : (Z.abs z < 2 ^ 53)%Z) by lia.
    assert (Hbits : (Z.log2 (Z.abs z) + 1 <= 53)%Z).
    { destruct (decide (Z.abs z = 0)%Z) as [->|H0]; [cbn; lia|].
      assert (Z.log2 (Z.abs z) < 53)%Z; [|lia].
      apply Z.log2_lt_pow2; lia. }
    apply Z.leb_le in Hbits. now rewrite Hbits.
Qed.

Lemma finalize_keeps_rows (files' : list UploadedFile) (st : LoopState) m :
  m ∈ results st ->
  exists combined,
    out_combined (finalize (files', st)) = Some combined
    /\ forall row, row ∈ df_rows m ->
         exists row', row' ∈ df_rows combined
           /\ forall c, row_cell combined c row'
                        = upcast_cell (concat_dtype (results st) c)
                            (row_cell m c row).
Proof.
  intros Hm. unfold finalize.
  destruct (results st) as [|m0 ms] eqn:Hres; [now apply elem_of_nil in Hm|].
  rewrite <- Hres in *. clear Hres.
  exists (drop_duplicates (concat (results st))). split; [reflexivity|].
  intros row Hrow.
  exists (reindex_row m (df_columns (concat (results st))) row). split.
  - unfold drop_duplicates. cbn [df_rows]. rewrite drop_seen_elem.
    split; [|apply not_elem_of_nil]. apply concat_rows_elem. eauto.
  - intros c. rewrite <- (concat_row_cell (results st) m row c Hm).
    now apply row_cell_names.
Qed.

(** X16. After the loop: without a kept frame there is no master table and
    the warning is shown; otherwise the master table has no row twice and
    at most as many rows as were kept, its columns are the columns of the
    kept frames, and the number of rows shown is its number of rows. Every
    kept row is in it and every row of it is a kept row, cell by cell under
    every column name, missing where the frame had no such column, and with
    one change: in a column that is float64 in the master table the
    integers have become floats. A column is float64 there exactly when
    every kept frame that has it has it as a column of numbers and some
    kept frame lacks it or has it as float64; the float of an integer up to
    [2^53] has the same value, and beyond that it need not. *)
Theorem master_table_of_results (files' : list UploadedFile) (st : LoopState) :
  let out := finalize (files', st) in
  (results st = [] ->
     out_combined out = None /\ out_log out = log st ++ [WarningNoMatches])
  /\ (results st <> [] ->
      exists combined,
        out_combined out = Some combined
        /\ out_log out
           = log st ++ [SuccessFound (df_len combined) (total_checked_rows st)]
        /\ NoDup (df_rows combined)
        /\ df_len combined <= total_rows (results st)
        /\ (forall c, c ∈ column_names combined <->
                      exists m, m ∈ results st /\ c ∈ column_names m)
        /\ (forall m row, m ∈ results st -> row ∈ df_rows m ->
              exists row', row' ∈ df_rows combined
                /\ forall c,
                     row_cell combined c row'
                     = upcast_cell (concat_dtype (results st) c) (row_cell m c row))
        /\ (forall row', row' ∈ df_rows combined ->
              exists m row, m ∈ results st /\ row ∈ df_rows m
                /\ forall c,
                     row_cell combined c row'
                     = upcast_cell (concat_dtype (results st) c) (row_cell m c row)))
  /\ (forall d x,
        (d <> dt_float64 -> upcast_cell d x = x)
        /\ (forall z, x = CInt z ->
              upcast_cell dt_float64 x = CFloat (float_of_int z))
        /\ ((forall z, x <> CInt z) -> upcast_cell d x = x))
  /\ (forall c,
        concat_dtype (results st) c = dt_float64
        <-> (forall m d, m ∈ results st -> column_dtype m c = Some d ->
               is_numeric_dtype d = true)
            /\ (exists m, m ∈ results st /\ column_dtype m c <> Some dt_int64))
  /\ (forall z, (Z.abs z <= 2 ^ 53)%Z -> float_of_int z = z)
  /\ float_of_int (2 ^ 53 + 1) = (2 ^ 53)%Z.
Proof.
  cbn zeta. unfold finalize. split_and!.
  - intros ->. now split.
  - intros Hne. destruct (results st) as [|m0 ms] eqn:Hres; [congruence|].
    rewrite <- Hres. clear Hne.
    set (frames := results st).
    set (combined := drop_duplicates (concat frames)).
    assert (Hcell : forall c row,
              row_cell combined c row = row_cell (concat frames) c row)
      by (intros c row; now apply row_cell_names).
    assert (Hmem : forall row,
              row ∈ df_rows combined <-> row ∈ df_rows (concat frames)).
    { intros row. unfold combined, drop_duplicates. cbn [df_rows].
      rewrite drop_seen_elem. split; [tauto|]. intros H. split; [exact H|].
      apply not_elem_of_nil. }
    exists combined. split_and!.
    + reflexivity.
    + reflexivity.
    + apply drop_seen_NoDup.
    + rewrite <- concat_rows_length. unfold df_len, combined, drop_duplicates.
      cbn [df_rows]. apply sublist_length, drop_seen_sublist.
    + intros c. apply concat_columns_names.
    + intros m row Hm Hrow.
      exists (reindex_row m (df_columns (concat frames)) row). split.
      * apply Hmem, concat_rows_elem. eauto.
      * intros c. rewrite Hcell. now apply concat_row_cell.
    + intros row' Hrow'. apply Hmem, concat_rows_elem in Hrow'
        as (m & row & Hm & Hrow & ->).
      exists m, row. split_and!; [exact Hm | exact Hrow |].
      intros c. rewrite Hcell. now apply concat_row_cell.
  - apply upcast_cell_cases.
  - intros c. apply concat_dtype_float64.
  - apply float_of_int_small.
  - vm_compute. reflexivity.
Qed.

End MasterTable.

(** Two kept frames of which the second has no column [Id]: the column is
    float64 in the concatenated frame, [42] has become [42.0], and
    [2^53 + 1], which float64 does not hold, has become [2^53]. When every
    frame has the column as int64, the integers stay. *)
Lemma concat_upcast_example :
  let a :=
    {| df_columns := [("Name", dt_object); ("Id", dt_int64)];
       df_rows := [[CText "Smith"; CInt 42];
                   [CText "Lee"; CInt 9007199254740993]] |} in
  let b :=
    {| df_columns := [("Name", dt_object)]; df_rows := [[CText "Park"]] |} in
  concat [a; b]
  = {| df_columns := [("Name", dt_object); ("Id", dt_float64)];
       df_rows := [[CText "Smith"; CFloat 42];
                   [CText "Lee"; CFloat 9007199254740992];
                   [CText "Park"; CMissing]] |}
  /\ concat [a; a]
     = {| df_columns := df_columns a; df_rows := df_rows a ++ df_rows a |}
  /\ py_str (CInt 42) = "42"
  /\ py_str (CFloat 42) = "42.0"
  /\ py_str (CFloat 9007199254740992) = "9007199254740992.0"
  /\ py_str (CFloat (float_of_int (2 ^ 63))) = "9.223372036854776e+18".
Proof. vm_compute. split_and!; reflexivity. Qed.

(** ** More on the run *)

Section RunMore.

Context {E : RegexEngine} {R : Readers}.

Lemma process_files_data sc T modes total files :
  forall i st,
  f_data <$> (process_files sc T modes total i files st).1 = f_data <$> files.
Proof.
  induction files as [|f rest IH]; intros i st; [reflexivity|].
  rewrite process_files_cons. cbn [fst fmap list_fmap]. rewrite IH. f_equal.
  unfold process_file.
  pose proof (try_file_same_file sc T modes f st) as [_ Hd].
  now destruct (try_file sc T modes f st) as [[f' st'] err].
Qed.

Lemma choose_columns_data sc files shown :
  f_data <$> (choose_columns sc files shown).1.2 = f_data <$> files.
Proof.
  unfold choose_columns. destruct sc as [|c sc], files as [|first rest];
    try reflexivity.
  pose proof (peek_same_file first) as [_ Hd].
  destruct (peek first) as [peek_df first']. cbn [snd] in Hd.
  destruct (if negb (df_empty peek_df) then _ else _); cbn; now rewrite Hd.
Qed.

(** X17. A run with a list of surnames hands out the files of the capped
    batch, in order, with the names and the bytes they came with: the run
    moves the positions of the streams and nothing else. *)
Theorem run_keeps_names_and_bytes surnames_list files search_cols_input modes :
  surnames_list <> [] ->
  let out := main_processing surnames_list files search_cols_input modes in
  f_name <$> out_files out = f_name <$> capped files
  /\ f_data <$> out_files out = f_data <$> capped files.
Proof.
  intros Hs. cbn zeta. destruct files as [|f files].
  - destruct surnames_list; [congruence|]. now split.
  - rewrite main_processing_core by (assumption || discriminate).
    unfold main_core, prepend_log. cbn [out_files]. rewrite finalize_files.
    split.
    + now rewrite process_files_names, choose_columns_names.
    + now rewrite process_files_data, choose_columns_data.
Qed.

Lemma peek_failure first e :
  peek_raises first e -> peek first = (empty_frame, set_pos 0 first).
Proof.
  unfold peek_raises, peek, read_csv, read_excel_all, seek0.
  destruct (is_csv (f_name first)); cbn [set_pos f_data f_pos].
  - destruct (pd_read_csv _ _ _) as [[df|e'] p]; cbn [fst]; [discriminate|].
    reflexivity.
  - destruct (pd_read_excel_all _ _) as [[sheets|e'] p]; cbn [fst]; [discriminate|].
    reflexivity.
Qed.

(** X18. No search column is given and the look into the first file
    raises: nothing is said about it, the stream of the file is put back to
    its start, no column is chosen, and the loop runs on the capped batch
    with all text columns searched. *)
Theorem failed_peek_rewinds surnames_list first rest search_cols_input modes e :
  surnames_list <> [] ->
  parse_search_columns search_cols_input = [] ->
  peek_raises first e ->
  exists files',
    capped (first :: rest) = first :: files'
    /\ main_processing surnames_list (first :: rest) search_cols_input modes
       = prepend_log
           ((if (100 <? length (first :: rest))%nat then [WarningTruncated] else [])
            ++ [InfoProcessing (S (length files'))])
           (finalize
              (process_files [] (surnames_set surnames_list) modes
                 (S (length files')) 0 (set_pos 0 first :: files') empty_state)).
Proof.
  intros Hs Hcols Hpeek. destruct (capped_cons first rest) as [files' Hcap].
  exists files'. split; [exact Hcap|].
  rewrite main_processing_core by (assumption || discriminate).
  rewrite Hcap. unfold main_core. rewrite Hcols. unfold choose_columns.
  rewrite (peek_failure first e Hpeek).
  unfold prepend_log. cbn [fst snd out_log out_combined out_files length negb df_empty
                           empty_frame df_columns df_rows].
  now rewrite <- !app_assoc.
Qed.

Lemma normalize_surnames_list_blank loaded :
  (forall s, s ∈ loaded -> strip s = "") -> normalize_surnames_list loaded = [].
Proof.
  intros H. unfold normalize_surnames_list. rewrite filter_none; [reflexivity|].
  intros s Hs Ht. rewrite (H s Hs) in Ht. discriminate Ht.
Qed.

(** X19. A loaded list whose entries are all blank counts as no list: the
    page shows that 0 surnames were loaded (or, for an empty list, that none
    is loaded), then asks for the list (or waits, without files); no file is
    read and there is no master table. *)
Theorem blank_surnames_process_nothing loaded files search_cols_input modes :
  (forall s, s ∈ loaded -> strip s = "") ->
  app loaded files search_cols_input modes
  = {| out_log :=
         [match loaded with [] => WarningNoSurnames | _ => SuccessLoaded 0 end;
          match files with [] => InfoWaiting | _ => WarningLoadSurnames end];
       out_combined := None;
       out_files := files |}.
Proof.
  intros H. unfold app.
  assert (Hnil : match loaded with
                 | [] => []
                 | _ => normalize_surnames_list loaded
                 end = [])
    by (destruct loaded; [reflexivity | now apply normalize_surnames_list_blank]).
  rewrite Hnil. unfold main_processing, prepend_log.
  destruct loaded, files; reflexivity.
Qed.

Lemma total_rows_cons df frames : total_rows (df :: frames) = df_len df + total_rows frames.
Proof. reflexivity. Qed.

(** X20. The rows that are counted for a workbook: the sheets that are
    absent or empty are skipped without being counted; the count grows by
    at most the rows of the other sheets, and by exactly that many when no
    exception ends the loop; and at most one frame is kept per such
    sheet. *)
Theorem sheets_rows_counted sc T modes fname sheets :
  forall st,
  let r := scan_sheets sc T modes fname sheets st in
  total_checked_rows st <= total_checked_rows r.1
  /\ total_checked_rows r.1
     <= total_checked_rows st + total_rows (scanned_frames sheets)
  /\ (r.2 = None ->
      total_checked_rows r.1
      = total_checked_rows st + total_rows (scanned_frames sheets))
  /\ length (results r.1)
     <= length (results st) + length (scanned_frames sheets).
Proof.
  induction sheets as [|[sheet_name [df|]] rest IH]; intros st; cbn zeta.
  - cbn. repeat split; lia.
  - cbn [scan_sheets scanned_frames omap list_omap snd].
    destruct (df_empty df) eqn:He; [apply IH|].
    fold (scanned_frames rest). rewrite total_rows_cons. cbn [length].
    assert (Hst : forall st1 err,
              scan_table sc T modes fname sheet_name df st = (st1, err) ->
              total_checked_rows st1 = total_checked_rows st + df_len df
              /\ length (results st1) <= S (length (results st))).
    { intros st1 err. unfold scan_table.
      destruct (find_matches_in_dataframe df sc T modes) as [m|e];
        [destruct (negb (df_empty m))|]; intros [= <- <-]; cbn;
        rewrite ?length_app; cbn; split; lia. }
    destruct (scan_table sc T modes fname sheet_name df st) as [st1 [e|]] eqn:Hscan;
      destruct (Hst _ _ eq_refl) as [Ht Hr]; cbn [fst snd].
    + split_and!; [lia | lia | discriminate | lia].
    + specialize (IH st1). cbn zeta in IH.
      destruct IH as (H1 & H2 & H3 & H4). split_and!; [lia | lia | | lia].
      intros Hnone. rewrite (H3 Hnone). lia.
  - cbn [scan_sheets scanned_frames omap list_omap snd]. apply IH.
Qed.

(** X21. In substring mode a target that does not compile fails every CSV
    file that has rows and a searched column: its rows are counted, the
    error names the file, nothing of the file is kept, and the loop goes
    on. *)
Theorem bad_pattern_fails_file sc T modes total i f st df f1 s msg :
  is_csv (f_name f) = true ->
  read_csv None f = (Ok df, f1) ->
  substring modes = true ->
  df_empty df = false ->
  text_cols df sc <> [] ->
  s ∈ T -> s <> "" -> re_compile s = Raise msg ->
  exists msg',
    process_file sc T modes total i f st
    = (f1,
       add_event (Progress (i + 1) total)
         (add_event (ErrorFailed (f_name f) msg') (add_rows (df_len df) st))).
Proof.
  intros Hcsv Hread Hsub He Hcols Hin Hne Hbad.
  destruct (find_matches_raises df sc T modes s msg
              Hsub He Hcols Hin Hne Hbad) as [msg' Hraise].
  exists msg'. unfold process_file, try_file. rewrite Hcsv, Hread.
  unfold scan_table. now rewrite Hraise.
Qed.

End RunMore.

(** X17 at two sample files. *)
Lemma run_keeps_names_and_bytes_witness :
  let files := [DemoFiles.file1; DemoFiles.file3] in
  let out :=
    main_processing (E := Fragment.engine) (R := DemoFiles.readers)
      ["smith"] files "Name" (Demo.exact_only true) in
  f_name <$> out_files out = f_name <$> capped files
  /\ f_data <$> out_files out = f_data <$> capped files.
Proof.
  apply (run_keeps_names_and_bytes (E := Fragment.engine) (R := DemoFiles.readers)
           ["smith"] [DemoFiles.file1; DemoFiles.file3] "Name"
           (Demo.exact_only true)).
  discriminate.
Defined.

(** X18 at a batch whose first file is empty. *)
Lemma failed_peek_rewinds_witness :
  exists files',
    capped (DemoFiles.file2 :: [DemoFiles.file3]) = DemoFiles.file2 :: files'
    /\ main_processing (E := Fragment.engine) (R := DemoFiles.readers)
         ["smith"; "lee"] (DemoFiles.file2 :: [DemoFiles.file3]) ""
         DemoFiles.last_token_substring
       = prepend_log
           ((if (100 <? length (DemoFiles.file2 :: [DemoFiles.file3]))%nat
             then [WarningTruncated] else [])
            ++ [InfoProcessing (S (length files'))])
           (finalize
              (process_files (E := Fragment.engine) (R := DemoFiles.readers)
                 [] (surnames_set ["smith"; "lee"]) DemoFiles.last_token_substring
                 (S (length files')) 0 (set_pos 0 DemoFiles.file2 :: files')
                 empty_state)).
Proof.
  apply (failed_peek_rewinds (E := Fragment.engine) (R := DemoFiles.readers)
           ["smith"; "lee"] DemoFiles.file2 [DemoFiles.file3] ""
           DemoFiles.last_token_substring "No columns to parse from file").
  - discriminate.
  - vm_compute. reflexivity.
  - vm_compute. reflexivity.
Defined.

(** X19 at a loaded list of two blank entries. *)
Lemma blank_surnames_process_nothing_witness :
  app (E := Fragment.engine) (R := DemoFiles.readers)
    ["  "; ""] [DemoFiles.file1] "Name" (Demo.exact_only false)
  = {| out_log := [SuccessLoaded 0; WarningLoadSurnames];
       out_combined := None;
       out_files := [DemoFiles.file1] |}.
Proof.
  apply (blank_surnames_process_nothing (E := Fragment.engine)
           (R := DemoFiles.readers) ["  "; ""] [DemoFiles.file1] "Name"
           (Demo.exact_only false)).
  intros s Hs. apply elem_of_cons in Hs as [->|Hs]; [reflexivity|].
  apply list_elem_of_singleton in Hs as ->. reflexivity.
Defined.

(** X21 at the first sample file and the target "smith (jr". *)
Lemma bad_pattern_fails_file_witness :
  exists msg',
    process_file (E := Fragment.engine) (R := DemoFiles.readers)
      ["Name"] {[ "smith (jr" ]} Demo.substring_only 3 0 DemoFiles.file1 empty_state
    = (set_pos 41 DemoFiles.file1,
       add_event (Progress (0 + 1) 3)
         (add_event (ErrorFailed (f_name DemoFiles.file1) msg')
            (add_rows
               (df_len
                  {| df_columns := [("Name", dt_object); ("City", dt_object)];
                     df_rows := [[CText "John Smith"; CText "Leeds"];
                                 [CText "Bob Park"; CText "York"]] |})
               empty_state))).
Proof.
  apply (bad_pattern_fails_file (E := Fragment.engine) (R := DemoFiles.readers)
           ["Name"] {[ "smith (jr" ]} Demo.substring_only 3 0 DemoFiles.file1
           empty_state
           {| df_columns := [("Name", dt_object); ("City", dt_object)];
              df_rows := [[CText "John Smith"; CText "Leeds"];
                          [CText "Bob Park"; CText "York"]] |}
           (set_pos 41 DemoFiles.file1) "smith (jr"
           "pattern outside the fragment").
  - reflexivity.
  - vm_compute. reflexivity.
  - reflexivity.
  - reflexivity.
  - vm_compute. discriminate.
  - apply elem_of_singleton. reflexivity.
  - discriminate.
  - vm_compute. reflexivity.
Defined.

(** ** The files of the batch are processed *)

Section ProcessedFacts.

Context {E : RegexEngine} {R : Readers}.
Variable cols : list string.
Variable T : gset string.
Variable modes : MatchModes.

Lemma upcast_cell_kept d x : cell_kept x (upcast_cell d x).
Proof.
  destruct d, x; try (now left). right. eauto.
Qed.

Lemma try_file_file f st :
  (try_file cols T modes f st).1.1 = (try_file cols T modes f empty_state).1.1
  /\ (try_file cols T modes f st).2 = (try_file cols T modes f empty_state).2.
Proof. rewrite (try_file_frame cols T modes f st). now split. Qed.

Lemma process_files_lookup total files :
  forall i st k g,
  files !! k = Some g ->
  (process_files cols T modes total i files st).1 !! k
  = Some (try_file cols T modes g empty_state).1.1.
Proof.
  induction files as [|f rest IH]; intros i st k g Hk; [discriminate|].
  rewrite process_files_cons. cbn [fst]. destruct k as [|k].
  - injection Hk as ->. cbn. f_equal. unfold process_file.
    destruct (try_file_file g st) as [Hf _].
    destruct (try_file cols T modes g st) as [[f' st'] err]. exact Hf.
  - cbn. now apply IH.
Qed.

Lemma process_file_error total i f st e :
  (try_file cols T modes f empty_state).2 = Some e ->
  ErrorFailed (f_name f) e ∈ log (process_file cols T modes total i f st).2.
Proof.
  intros He. unfold process_file. destruct (try_file_file f st) as [_ Herr].
  rewrite He in Herr.
  destruct (try_file cols T modes f st) as [[f' st'] err]. cbn [snd] in *.
  subst err. cbn [add_event log]. apply elem_of_app. left.
  apply elem_of_app. right. left.
Qed.

Lemma process_files_error total files :
  forall i st k g e,
  files !! k = Some g ->
  (try_file cols T modes g empty_state).2 = Some e ->
  ErrorFailed (f_name g) e ∈ log (process_files cols T modes total i files st).2.
Proof.
  induction files as [|f rest IH]; intros i st k g e Hk He; [discriminate|].
  rewrite process_files_cons. cbn [snd]. destruct k as [|k].
  - injection Hk as ->. apply process_files_log_mono.
    now apply process_file_error.
  - cbn in Hk. now apply (IH _ _ k).
Qed.

Lemma scan_table_raises fname sheet_name df st e :
  find_matches_in_dataframe df cols T modes = Raise e ->
  (scan_table cols T modes fname sheet_name df st).2 = Some e.
Proof. intros H. unfold scan_table. now rewrite H. Qed.

Lemma find_matches_raises_not_empty df e :
  find_matches_in_dataframe df cols T modes = Raise e -> df_empty df = false.
Proof.
  unfold find_matches_in_dataframe. now destruct (df_empty df).
Qed.

Lemma scan_sheets_raises_head fname sheet_name df rest e :
  find_matches_in_dataframe df cols T modes = Raise e ->
  forall st,
  (scan_sheets cols T modes fname ((sheet_name, Some df) :: rest) st).2 = Some e.
Proof.
  intros Hraise st. cbn [scan_sheets].
  rewrite (find_matches_raises_not_empty df e Hraise).
  pose proof (scan_table_raises fname sheet_name df st e Hraise) as Hs.
  destruct (scan_table cols T modes fname sheet_name df st) as [st' err].
  cbn [snd] in Hs. now subst err.
Qed.

Lemma scan_sheets_raises fname sheets sheet_name df e :
  (sheet_name, Some df) ∈ sheets ->
  find_matches_in_dataframe df cols T modes = Raise e ->
  forall st, exists e', (scan_sheets cols T modes fname sheets st).2 = Some e'.
Proof.
  intros Hin Hraise.
  induction sheets as [|[name [d|]] rest IH]; intros st.
  - now apply elem_of_nil in Hin.
  - cbn [scan_sheets]. apply elem_of_cons in Hin as [Heq|Hin].
    + injection Heq as <- <-.
      rewrite (find_matches_raises_not_empty df e Hraise).
      pose proof (scan_table_raises fname sheet_name df st e Hraise) as Hs.
      destruct (scan_table cols T modes fname sheet_name df st) as [st' err].
      cbn [snd] in Hs. subst err. cbn [snd]. eauto.
    + destruct (df_empty d); [now apply IH|].
      destruct (scan_table cols T modes fname name d st) as [st' [e'|]];
        cbn [snd]; [eauto | now apply IH].
  - cbn [scan_sheets]. apply elem_of_cons in Hin as [Heq|Hin]; [discriminate|].
    now apply IH.
Qed.

(** The matches of a table that the loop keeps are in the master table. *)
Lemma kept_table_matched total batch g sheet_name df :
  g ∈ batch ->
  reads_table g sheet_name df ->
  is_csv (f_name g) = true
  \/ (exists e, (pd_read_excel_all (f_data g) (f_pos g)).1 = Raise e)
  \/ substring modes = false \/ targets_compile T ->
  table_matched
    (finalize (process_files cols T modes total 0 batch empty_state))
    cols T modes (f_name g) sheet_name df.
Proof.
  intros Hg Hread Hcase matched Hm Hne.
  pose proof (process_files_keeps cols T modes total batch g sheet_name df matched
                Hg Hread Hcase Hm Hne 0 empty_state) as Hkept.
  destruct (process_files cols T modes total 0 batch empty_state) as [fs st].
  cbn [snd] in Hkept.
  destruct (finalize_keeps_rows fs st _ Hkept) as (combined & Hc & Hrows).
  exists combined. split; [exact Hc|]. intros row Hrow.
  destruct (Hrows row Hrow) as (row' & Hin & Hcells).
  exists row'. split; [exact Hin|]. intros c. rewrite Hcells.
  apply upcast_cell_kept.
Qed.

Lemma finalize_log_mono loop_end ev :
  ev ∈ log loop_end.2 -> ev ∈ out_log (finalize loop_end).
Proof.
  intros H. destruct (finalize_log loop_end) as (ev' & -> & _).
  apply elem_of_app. now left.
Qed.

(** Every file of the batch that the loop is given is processed. *)
Lemma finalize_processed total batch k g :
  batch !! k = Some g ->
  file_processed
    (finalize (process_files cols T modes total 0 batch empty_state))
    cols T modes k g.
Proof.
  intros Hk.
  assert (Hg : g ∈ batch) by now apply list_elem_of_lookup_2 in Hk.
  set (out := finalize (process_files cols T modes total 0 batch empty_state)).
  assert (Hfile : out_files out !! k
                  = Some (try_file cols T modes g empty_state).1.1).
  { unfold out. rewrite finalize_files. now apply process_files_lookup. }
  assert (Herr : forall e, (try_file cols T modes g empty_state).2 = Some e ->
                   ErrorFailed (f_name g) e ∈ out_log out).
  { intros e He. apply finalize_log_mono.
    now apply (process_files_error total batch 0 empty_state k). }
  assert (Htab : forall sheet_name df,
            reads_table g sheet_name df ->
            is_csv (f_name g) = true
            \/ (exists e, (pd_read_excel_all (f_data g) (f_pos g)).1 = Raise e)
            \/ substring modes = false \/ targets_compile T ->
            table_matched out cols T modes (f_name g) sheet_name df).
  { intros sheet_name df. now apply kept_table_matched. }
  clearbody out. revert Hfile Herr Htab.
  unfold file_processed, reads_table, try_file, read_sheets, read_csv,
    read_excel_all, read_excel.
  destruct (is_csv (f_name g)) eqn:Hcsv.
  - destruct (pd_read_csv None (f_data g) (f_pos g)) as [[df|e] p];
      cbn [fst snd]; intros Hfile Herr Htab.
    + split_and!.
      * now destruct (scan_table cols T modes (f_name g) "<csv>" df empty_state).
      * intros e He. apply Herr.
        pose proof (scan_table_raises (f_name g) "<csv>" df empty_state e He) as Hs.
        now destruct (scan_table cols T modes (f_name g) "<csv>" df empty_state).
      * apply Htab; [now split | now left].
    + split; [exact Hfile | now apply Herr].
  - destruct (pd_read_excel_all (f_data g) (f_pos g)) as [[sheets|e1] p];
      cbn [fst snd seek0 set_pos f_data f_pos]; intros Hfile Herr Htab.
    + split.
      * now destruct (scan_sheets cols T modes (f_name g) sheets empty_state).
      * intros sheet_name df Hin. split.
        -- intros e He.
           destruct (scan_sheets_raises (f_name g) sheets sheet_name df e Hin He
                       empty_state) as [e' He'].
           exists e'. apply Herr.
           now destruct (scan_sheets cols T modes (f_name g) sheets empty_state).
        -- intros Hret. apply Htab; [exact Hin | now right; right].
    + destruct (pd_read_excel (f_data g) 0) as [[df|e] p'];
        cbn [fst snd] in *.
      * split_and!.
        -- now destruct (scan_sheets cols T modes (f_name g)
                           [("Sheet1", Some df)] empty_state).
        -- intros e He. apply Herr.
           pose proof (scan_sheets_raises_head (f_name g) "Sheet1" df [] e He
                         empty_state) as He'.
           now destruct (scan_sheets cols T modes (f_name g)
                           [("Sheet1", Some df)] empty_state).
        -- apply Htab; [now split | right; left; eauto].
      * split; [exact Hfile | now apply Herr].
Qed.


Lemma table_matched_prepend shown out fname sheet_name df :
  table_matched out cols T modes fname sheet_name df ->
  table_matched (prepend_log shown out) cols T modes fname sheet_name df.
Proof. intros H. exact H. Qed.

Lemma matcher_error_shown_prepend shown out fname df :
  matcher_error_shown out cols T modes fname df ->
  matcher_error_shown (prepend_log shown out) cols T modes fname df.
Proof.
  intros H e He. cbn [prepend_log out_log]. apply elem_of_app. right.
  now apply H.
Qed.

Lemma sheet_error_shown_prepend shown out fname df :
  sheet_error_shown out cols T modes fname df ->
  sheet_error_shown (prepend_log shown out) cols T modes fname df.
Proof.
  intros H e He. destruct (H e He) as [e' He']. exists e'.
  cbn [prepend_log out_log]. apply elem_of_app. now right.
Qed.

Lemma file_processed_prepend shown out k g :
  file_processed out cols T modes k g ->
  file_processed (prepend_log shown out) cols T modes k g.
Proof.
  assert (Hlog : forall ev, ev ∈ out_log out -> ev ∈ out_log (prepend_log shown out)).
  { intros ev H. cbn [prepend_log out_log]. apply elem_of_app. now right. }
  unfold file_processed. destruct (is_csv (f_name g)).
  - destruct (pd_read_csv None (f_data g) (f_pos g)) as [[df|e] p].
    + intros (Hf & He & Ht). split_and!; [exact Hf | | exact Ht].
      now apply matcher_error_shown_prepend.
    + intros [Hf He]. split; [exact Hf | now apply Hlog].
  - destruct (pd_read_excel_all (f_data g) (f_pos g)) as [[sheets|e1] p].
    + intros [Hf Hs]. split; [exact Hf|]. intros sheet_name df Hin.
      destruct (Hs sheet_name df Hin) as [He Ht]. split; [|exact Ht].
      now apply sheet_error_shown_prepend.
    + destruct (pd_read_excel (f_data g) 0) as [[df|e] p'].
      * intros (Hf & He & Ht). split_and!; [exact Hf | | exact Ht].
        now apply matcher_error_shown_prepend.
      * intros [Hf He]. split; [exact Hf | now apply Hlog].
Qed.

End ProcessedFacts.

(** ** A file that cannot be parsed *)

Section CorruptFile.

Context {E : RegexEngine} {R : Readers}.
Variable search_columns : list string.
Variable TARGET_SURNAMES : gset string.
Variable modes : MatchModes.

Local Abbreviation loop := (process_files search_columns TARGET_SURNAMES modes).

(** C8. When the reader raises on a file of the batch, the loop shows one
    error that names the file and goes on: the log is the log of the files
    before it, the error with the name of the file and the message of the
    exception, the progress of that turn, and the log of the files after
    it; the matches and the count of rows are those of the batch without
    the file; every file has had its turn; and the matches of the other
    files are kept: whenever the readers give a table for another file of
    the batch and the matcher returns matches for it that are not empty,
    these matches, marked with the name of the file and of the sheet, are
    among the results at the end of the loop, and every row of them is in
    the master table that is built from these results (for a workbook,
    when no target can make the matcher raise on one of its sheets). *)
Theorem corrupt_file_is_skipped total i pre bad post st e :
  parse_fails bad e ->
  let before := loop total i pre st in
  let after := loop total (i + length pre + 1) post empty_state in
  let all := loop total i (pre ++ bad :: post) st in
  let others := loop total i (pre ++ post) st in
  log all.2
  = log before.2
    ++ [ErrorFailed (f_name bad) e; Progress (i + length pre + 1) total]
    ++ log after.2
  /\ results all.2 = results before.2 ++ results after.2
  /\ results all.2 = results others.2
  /\ total_checked_rows all.2 = total_checked_rows others.2
  /\ f_name <$> all.1 = f_name <$> (pre ++ bad :: post)
  /\ (forall k, k < length (pre ++ bad :: post) ->
        Progress (i + k + 1) total ∈ log all.2)
  /\ (forall g sheet_name df matched,
        g ∈ pre ++ post ->
        reads_table g sheet_name df ->
        is_csv (f_name g) = true
        \/ substring modes = false \/ targets_compile TARGET_SURNAMES ->
        find_matches_in_dataframe df search_columns TARGET_SURNAMES modes
        = Ok matched ->
        df_empty matched = false ->
        stamp (f_name g) sheet_name matched ∈ results all.2
        /\ exists combined,
             out_combined (finalize all) = Some combined
             /\ forall row,
                  row ∈ df_rows (stamp (f_name g) sheet_name matched) ->
                  row_in_master combined (stamp (f_name g) sheet_name matched)
                    row).
Proof.
  intros Hbad before after all others.
  assert (Hall : all.2
            = merge_state
                (add_event (Progress (i + length pre + 1) total)
                   (add_event (ErrorFailed (f_name bad) e) before.2))
                after.2).
  { unfold all. rewrite process_files_app. cbn [snd].
    rewrite process_files_cons. cbn [snd].
    rewrite (process_file_parse_fails _ _ _ _ _ _ e _ Hbad).
    rewrite process_files_frame. reflexivity. }
  assert (Hothers : others.2
            = merge_state before.2
                (loop total (i + length pre) post empty_state).2).
  { unfold others. rewrite process_files_app. cbn [snd].
    now rewrite process_files_frame. }
  destruct (process_files_found search_columns TARGET_SURNAMES modes total total
              post (i + length pre + 1) (i + length pre) empty_state)
    as [Hres Htot].
  assert (Hsame : results all.2 = results others.2).
  { rewrite Hall, Hothers. cbn [merge_state add_event results]. unfold after.
    now rewrite Hres. }
  split_and!.
  - rewrite Hall. cbn [merge_state add_event log]. now rewrite <- !app_assoc.
  - rewrite Hall. reflexivity.
  - exact Hsame.
  - rewrite Hall, Hothers. cbn [merge_state add_event total_checked_rows].
    unfold after. now rewrite Htot.
  - apply process_files_names.
  - intros k Hk. now apply process_files_progress.
  - intros g sheet_name df matched Hg Hread Hcase Hm Hne.
    assert (Hkept : stamp (f_name g) sheet_name matched ∈ results all.2).
    { rewrite Hsame.
      apply (process_files_keeps search_columns TARGET_SURNAMES modes total
               (pre ++ post) g sheet_name df);
        [assumption | assumption | | assumption | assumption].
      destruct Hcase as [H|H]; [now left | now right; right]. }
    split; [exact Hkept|].
    destruct all as [fs st']. cbn [snd] in Hkept.
    destruct (finalize_keeps_rows fs st' _ Hkept) as (combined & Hc & Hrows).
    exists combined. split; [exact Hc|]. intros row Hrow.
    destruct (Hrows row Hrow) as (row' & Hin & Hcells).
    exists row'. split; [exact Hin|]. intros c. rewrite Hcells.
    apply upcast_cell_kept.
Qed.

End CorruptFile.

(** C8 at three files of which the second is empty. *)
Lemma corrupt_file_is_skipped_witness :
  let T := surnames_set ["smith"; "lee"] in
  let run :=
    process_files (E := Fragment.engine) (R := DemoFiles.readers) ["Name"]
      T DemoFiles.last_token_substring in
  let before := run 3 0 [DemoFiles.file1] empty_state in
  let after := run 3 (0 + length [DemoFiles.file1] + 1) [DemoFiles.file3] empty_state in
  let all :=
    run 3 0 ([DemoFiles.file1] ++ DemoFiles.file2 :: [DemoFiles.file3]) empty_state in
  let others := run 3 0 ([DemoFiles.file1] ++ [DemoFiles.file3]) empty_state in
  log all.2
  = log before.2
    ++ [ErrorFailed (f_name DemoFiles.file2) "No columns to parse from file";
        Progress (0 + length [DemoFiles.file1] + 1) 3]
    ++ log after.2
  /\ results all.2 = results before.2 ++ results after.2
  /\ results all.2 = results others.2
  /\ total_checked_rows all.2 = total_checked_rows others.2
  /\ f_name <$> all.1
     = f_name <$> ([DemoFiles.file1] ++ DemoFiles.file2 :: [DemoFiles.file3])
  /\ (forall k,
        k < length ([DemoFiles.file1] ++ DemoFiles.file2 :: [DemoFiles.file3]) ->
        Progress (0 + k + 1) 3 ∈ log all.2)
  /\ (forall g sheet_name df matched,
        g ∈ [DemoFiles.file1] ++ [DemoFiles.file3] ->
        reads_table (R := DemoFiles.readers) g sheet_name df ->
        is_csv (f_name g) = true
        \/ substring DemoFiles.last_token_substring = false
        \/ targets_compile (E := Fragment.engine) T ->
        find_matches_in_dataframe (E := Fragment.engine) df ["Name"] T
          DemoFiles.last_token_substring
        = Ok matched ->
        df_empty matched = false ->
        stamp (f_name g) sheet_name matched ∈ results all.2
        /\ exists combined,
             out_combined (finalize all) = Some combined
             /\ forall row,
                  row ∈ df_rows (stamp (f_name g) sheet_name matched) ->
                  row_in_master combined (stamp (f_name g) sheet_name matched)
                    row).
Proof.
  apply (corrupt_file_is_skipped (E := Fragment.engine) (R := DemoFiles.readers)
           ["Name"] (surnames_set ["smith"; "lee"]) DemoFiles.last_token_substring
           3 0 [DemoFiles.file1] DemoFiles.file2 [DemoFiles.file3] empty_state
           "No columns to parse from file").
  vm_compute. reflexivity.
Defined.

(** The whole run on the three files: the matches of the first and of the
    third file, and one error, which names the second. *)
Lemma three_files_second_corrupt :
  let out :=
    main_processing (E := Fragment.engine) (R := DemoFiles.readers)
      ["smith"; "lee"] [DemoFiles.file1; DemoFiles.file2; DemoFiles.file3]
      "Name" DemoFiles.last_token_substring in
  out_log out
  = [InfoProcessing 3; Progress 1 3;
     ErrorFailed "two.csv" "No columns to parse from file";
     Progress 2 3; Progress 3 3; SuccessFound 2 3]
  /\ (df_rows <$> out_combined out)
     = Some [[CText "John Smith"; CText "Leeds"; CText "one.csv"; CText "<csv>"];
             [CText "Ann Lee"; CText "Bath"; CText "three.csv"; CText "<csv>"]].
Proof. vm_compute. split; reflexivity. Qed.

(** ** The cap on the number of files *)

Section CapFacts.

Context {E : RegexEngine} {R : Readers}.

Lemma main_core_processed surnames_list files search_cols_input modes k g :
  let chosen := choose_columns (parse_search_columns search_cols_input) files [] in
  chosen.1.2 !! k = Some g ->
  file_processed (main_core surnames_list files search_cols_input modes)
    chosen.1.1 (surnames_set surnames_list) modes k g.
Proof.
  intros chosen Hk. unfold main_core. fold chosen.
  apply file_processed_prepend. now apply finalize_processed.
Qed.

Lemma choose_columns_rest sc files shown :
  drop 1 (choose_columns sc files shown).1.2 = drop 1 files.
Proof.
  unfold choose_columns. destruct sc as [|c sc], files as [|first rest];
    try reflexivity.
  destruct (peek first) as [peek_df first'].
  now destruct (if negb (df_empty peek_df) then _ else _).
Qed.

Lemma choose_columns_given sc files shown :
  sc <> [] -> choose_columns sc files shown = (sc, files, shown).
Proof. intros H. unfold choose_columns. destruct sc; [congruence|reflexivity]. Qed.

(** C9. With a list of surnames (the main processing runs only then): a
    batch of more than 100 files is handled as the batch of its first 100
    files, after a warning that says so, and these 100 are the files that
    the run hands out; a batch of at most 100 files gets no such warning,
    and each of its files has its turn. In both cases every file of the
    batch that is left is processed: it is read by the reader of its
    format, an error that names it is shown when the reader or the matcher
    raises, and the matches of its tables are in the master table. The
    files enter the loop as they were uploaded, but for the first one when
    no search column is given: the look into it may have moved its
    stream. *)
Theorem only_first_100_files surnames_list files search_cols_input modes :
  surnames_list <> [] ->
  let T := surnames_set surnames_list in
  let run fs := main_processing surnames_list fs search_cols_input modes in
  let chosen fs :=
    choose_columns (parse_search_columns search_cols_input) fs [] in
  (100 < length files ->
     run files = prepend_log [WarningTruncated] (run (take 100 files))
     /\ f_name <$> out_files (run files) = f_name <$> take 100 files
     /\ (WarningTruncated ∉ out_log (run (take 100 files)))
     /\ (forall k, k < 100 -> Progress (k + 1) 100 ∈ out_log (run files))
     /\ (forall k g,
           (chosen (take 100 files)).1.2 !! k = Some g ->
           file_processed (run files) (chosen (take 100 files)).1.1 T modes k g))
  /\ (length files <= 100 ->
      (WarningTruncated ∉ out_log (run files))
      /\ f_name <$> out_files (run files) = f_name <$> files
      /\ (forall k, k < length files ->
            Progress (k + 1) (length files) ∈ out_log (run files))
      /\ (forall k g,
            (chosen files).1.2 !! k = Some g ->
            file_processed (run files) (chosen files).1.1 T modes k g))
  /\ (forall fs,
        f_name <$> (chosen fs).1.2 = f_name <$> fs
        /\ f_data <$> (chosen fs).1.2 = f_data <$> fs
        /\ drop 1 (chosen fs).1.2 = drop 1 fs
        /\ (parse_search_columns search_cols_input <> [] ->
            (chosen fs).1.2 = fs)).
Proof.
  intros Hs T run chosen.
  assert (Hsmall : forall fs, length fs <= 100 -> fs <> [] ->
            main_processing surnames_list fs search_cols_input modes
            = main_core surnames_list fs search_cols_input modes).
  { intros fs Hlen Hne. rewrite main_processing_core by assumption.
    rewrite capped_small by exact Hlen.
    destruct (100 <? length fs)%nat eqn:Hlt; [|apply prepend_log_nil].
    apply Nat.ltb_lt in Hlt. lia. }
  split_and!.
  - intros Hlen. unfold run.
    assert (Hne : files <> []) by (intros ->; cbn in Hlen; lia).
    assert (Hlen' : length (take 100 files) = 100) by (rewrite length_take; lia).
    assert (Hne' : take 100 files <> [])
      by (intros H; rewrite H in Hlen'; discriminate).
    rewrite (Hsmall (take 100 files)) by (assumption || lia).
    rewrite main_processing_core by assumption.
    rewrite capped_large by exact Hlen.
    apply Nat.ltb_lt in Hlen. rewrite Hlen. split_and!.
    + reflexivity.
    + unfold prepend_log. cbn [out_files]. apply main_core_files.
    + apply main_core_no_truncation.
    + intros k Hk. unfold prepend_log. cbn [out_log]. apply elem_of_app. right.
      pose proof (main_core_progress surnames_list (take 100 files)
                    search_cols_input modes k) as Hp.
      rewrite Hlen' in Hp. now apply Hp.
    + intros k g Hk. apply file_processed_prepend.
      now apply main_core_processed.
  - intros Hlen. unfold run. destruct files as [|f files].
    + destruct surnames_list as [|s0 sl]; [congruence|]. cbn. split_and!.
      * intros H. apply list_elem_of_singleton in H. discriminate H.
      * reflexivity.
      * intros k Hk. lia.
      * intros k g Hk. unfold chosen, choose_columns in Hk.
        destruct (parse_search_columns search_cols_input); discriminate Hk.
    + rewrite (Hsmall (f :: files)) by (assumption || discriminate). split_and!.
      * apply main_core_no_truncation.
      * apply main_core_files.
      * intros k Hk. now apply main_core_progress.
      * intros k g Hk. now apply main_core_processed.
  - intros fs. unfold chosen. split_and!.
    + apply choose_columns_names.
    + apply choose_columns_data.
    + apply choose_columns_rest.
    + intros Hcols. now rewrite choose_columns_given.
Qed.

End CapFacts.

(** C9 at a batch of 101 files. *)
Lemma only_first_100_files_witness :
  let files := replicate 101 DemoFiles.file3 in
  let T := surnames_set ["smith"; "lee"] in
  let run fs :=
    main_processing (E := Fragment.engine) (R := DemoFiles.readers)
      ["smith"; "lee"] fs "Name" (Demo.exact_only true) in
  let chosen fs :=
    choose_columns (R := DemoFiles.readers) (parse_search_columns "Name") fs [] in
  run files = prepend_log [WarningTruncated] (run (take 100 files))
  /\ f_name <$> out_files (run files) = f_name <$> take 100 files
  /\ (WarningTruncated ∉ out_log (run (take 100 files)))
  /\ (forall k, k < 100 -> Progress (k + 1) 100 ∈ out_log (run files))
  /\ (forall k g,
        (chosen (take 100 files)).1.2 !! k = Some g ->
        file_processed (E := Fragment.engine) (R := DemoFiles.readers)
          (run files) (chosen (take 100 files)).1.1 T (Demo.exact_only true) k g).
Proof.
  intros files T run chosen.
  apply (only_first_100_files (E := Fragment.engine) (R := DemoFiles.readers)
           ["smith"; "lee"] files "Name" (Demo.exact_only true)).
  - discriminate.
  - vm_compute. lia.
Defined.

(** The run on these 101 files: the warning, then the first 100 files, each
    read (one row is checked in each) and none after them; the same row is
    matched in every file, under the same name of file, and the master
    table has it once. *)
Lemma hundred_and_one_files :
  let out :=
    main_processing (E := Fragment.engine) (R := DemoFiles.readers)
      ["smith"; "lee"] (replicate 101 DemoFiles.file3) "Name"
      (Demo.exact_only true) in
  out_log out
  = [WarningTruncated; InfoProcessing 100]
    ++ ((fun k => Progress (S k) 100) <$> seq 0 100)
    ++ [SuccessFound 1 100]
  /\ (df_rows <$> out_combined out)
     = Some [[CText "Ann Lee"; CText "Bath"; CText "three.csv"; CText "<csv>"]]
  /\ out_files out = replicate 100 (set_pos 23 DemoFiles.file3).
Proof. vm_compute. split_and!; reflexivity. Qed.

(** ** The modes of the row matcher *)

Section Modes.

Context {E : RegexEngine}.

Lemma existsb_orb {A : Type} (f g : A -> bool) (l : list A) :
  existsb (fun x => f x || g x) l = existsb f l || existsb g l.
Proof.
  induction l as [|x l IH]; [reflexivity|]. cbn [existsb]. rewrite IH.
  destruct (f x), (g x), (existsb f l), (existsb g l); reflexivity.
Qed.

Lemma row_hit_union df cols surnames last_token row :
  row_hit df cols surnames
    {| exact := true; substring := true; last_token_only := last_token |} row
  = row_hit df cols surnames
      {| exact := true; substring := false; last_token_only := last_token |} row
    || row_hit df cols surnames
         {| exact := false; substring := true; last_token_only := last_token |} row.
Proof.
  unfold row_hit. rewrite <- existsb_orb.
  induction cols as [|c cs IH]; [reflexivity|]. cbn [existsb]. rewrite IH.
  f_equal. unfold cell_hit. cbn [exact substring last_token_only andb orb].
  now rewrite orb_false_r.
Qed.

(** X22. With both modes on the matcher selects the rows that exact mode
    selects and the rows that substring mode selects, and no other: when
    every non-empty target compiles, the three runs return and a row is in
    the result of both modes exactly when it is in one of the two other
    results. *)
Theorem both_modes_select_the_union df search_columns surnames last_token :
  targets_compile surnames ->
  exists both exact_rows substring_rows,
    find_matches_in_dataframe df search_columns surnames
      {| exact := true; substring := true; last_token_only := last_token |}
    = Ok both
    /\ find_matches_in_dataframe df search_columns surnames
         {| exact := true; substring := false; last_token_only := last_token |}
       = Ok exact_rows
    /\ find_matches_in_dataframe df search_columns surnames
         {| exact := false; substring := true; last_token_only := last_token |}
       = Ok substring_rows
    /\ forall row,
         row ∈ df_rows both
         <-> row ∈ df_rows exact_rows \/ row ∈ df_rows substring_rows.
Proof.
  intros Hc.
  destruct (find_matches_returns df search_columns surnames
              {| exact := true; substring := true; last_token_only := last_token |})
    as [both Hb]; [now right|].
  destruct (find_matches_returns df search_columns surnames
              {| exact := true; substring := false; last_token_only := last_token |})
    as [oe He]; [now left|].
  destruct (find_matches_returns df search_columns surnames
              {| exact := false; substring := true; last_token_only := last_token |})
    as [os Hs]; [now right|].
  exists both, oe, os. split_and!; [exact Hb | exact He | exact Hs |].
  intros row.
  rewrite (find_matches_rows _ _ _ _ _ Hb), (find_matches_rows _ _ _ _ _ He),
    (find_matches_rows _ _ _ _ _ Hs), !list_elem_of_filter, row_hit_union,
    orb_true_iff.
  tauto.
Qed.

(** X23. Exact mode alone (the setting the page starts with) always
    returns, and it selects a row exactly when, in some searched column, the
    comparison string of its cell is a member of the target set. *)
Theorem exact_mode_selects_members df search_columns surnames last_token :
  exists out,
    find_matches_in_dataframe df search_columns surnames
      {| exact := true; substring := false; last_token_only := last_token |}
    = Ok out
    /\ df_rows out `sublist_of` df_rows df
    /\ forall row,
         row ∈ df_rows out
         <-> row ∈ df_rows df
             /\ exists col,
                  col ∈ text_cols df search_columns
                  /\ comparison_string last_token (row_cell df col row) ∈ surnames.
Proof.
  set (modes := {| exact := true; substring := false;
                   last_token_only := last_token |}).
  destruct (find_matches_returns df search_columns surnames modes) as [out Hout];
    [now left|].
  exists out. split; [exact Hout|].
  rewrite (find_matches_rows _ _ _ _ _ Hout). split; [apply filter_sublist|].
  intros row. rewrite list_elem_of_filter. unfold row_hit.
  rewrite existsb_exists. split.
  - intros [(col & Hcol & Hhit) Hrow]. split; [exact Hrow|].
    exists col. split; [now apply list_elem_of_In|].
    unfold cell_hit in Hhit. cbn [exact substring last_token_only modes andb orb] in Hhit.
    rewrite orb_false_r in Hhit. now apply bool_decide_eq_true in Hhit.
  - intros [Hrow (col & Hcol & Hmem)]. split; [|exact Hrow].
    exists col. split; [now apply list_elem_of_In|].
    unfold cell_hit. cbn [exact substring last_token_only modes andb orb].
    rewrite orb_false_r. now apply bool_decide_eq_true.
Qed.

Lemma substring_loop_compiles (col_series : list string) targets :
  forall mask mask',
  foldM_outcome (substring_step col_series) mask targets = Ok mask' ->
  forall s, s ∈ targets -> s <> "" -> exists r, re_compile s = Ok r.
Proof.
  induction targets as [|t targets IH]; intros mask mask' H s Hs Hne.
  - now apply elem_of_nil in Hs.
  - cbn [foldM_outcome] in H.
    destruct (substring_step col_series mask t) as [mask1|msg] eqn:Hstep;
      cbn in H; [|discriminate H].
    apply elem_of_cons in Hs as [->|Hs]; [|exact (IH _ _ H s Hs Hne)].
    unfold substring_step, str_contains in Hstep.
    apply truthy_true in Hne. rewrite Hne in Hstep. cbn [negb] in Hstep.
    destruct (re_compile t) as [r|msg]; [eauto|discriminate Hstep].
Qed.

Lemma find_matches_ok_cases df search_columns surnames modes out :
  find_matches_in_dataframe df search_columns surnames modes = Ok out ->
  df_empty df = true \/ text_cols df search_columns = []
  \/ substring modes = false \/ targets_compile surnames.
Proof.
  unfold find_matches_in_dataframe.
  destruct (df_empty df); [now left|].
  destruct (text_cols df search_columns) as [|col cols]; [now right; left|].
  destruct (substring modes) eqn:Hsub; [|now right; right; left].
  intros H. right; right; right. cbn [foldM_outcome] in H.
  destruct (column_step df surnames modes (replicate (df_len df) false) col)
    as [mask1|msg] eqn:Hstep; cbn in H; [|discriminate H].
  unfold column_step in Hstep. rewrite Hsub in Hstep.
  intros s Hs Hne. apply (substring_loop_compiles _ _ _ _ Hstep s); [|exact Hne].
  now apply elem_of_elements.
Qed.

Lemma row_hit_names a b cols surnames modes row :
  column_names a = column_names b ->
  row_hit a cols surnames modes row = row_hit b cols surnames modes row.
Proof.
  intros H. unfold row_hit. induction cols as [|c cs IH]; [reflexivity|].
  cbn [existsb]. now rewrite IH, (row_cell_names a b c row H).
Qed.

(** X24. Matching the matches again changes nothing: when the matcher
    returns a table, it returns on that table too, with the same columns to
    search, targets and modes, and gives the same rows. *)
Theorem matcher_is_idempotent df search_columns surnames modes out :
  find_matches_in_dataframe df search_columns surnames modes = Ok out ->
  exists out',
    find_matches_in_dataframe out search_columns surnames modes = Ok out'
    /\ df_rows out' = df_rows out.
Proof.
  intros Hout.
  pose proof (find_matches_rows _ _ _ _ _ Hout) as Hrows.
  pose proof (find_matches_columns _ _ _ _ _ Hout) as Hcols.
  destruct (df_empty out) eqn:Heo.
  { exists empty_frame. unfold find_matches_in_dataframe. rewrite Heo.
    split; [reflexivity|]. cbn. unfold df_empty in Heo.
    destruct (df_rows out) as [|r rs] eqn:Hr; [reflexivity|].
    destruct (df_columns out) as [|h hs] eqn:Hc; [|discriminate Heo].
    destruct (df_empty df) eqn:He.
    - unfold find_matches_in_dataframe in Hout. rewrite He in Hout.
      injection Hout as <-. discriminate Hr.
    - unfold df_empty in He. rewrite <- Hcols in He. discriminate He. }
  destruct (df_empty df) eqn:He.
  { unfold find_matches_in_dataframe in Hout. rewrite He in Hout.
    injection Hout as <-. discriminate Heo. }
  assert (Hnames : column_names out = column_names df)
    by (unfold column_names; now rewrite Hcols).
  assert (Htc : text_cols out search_columns = text_cols df search_columns).
  { unfold text_cols, select_text_columns. now rewrite Hnames, Hcols. }
  assert (Hret : exists out',
            find_matches_in_dataframe out search_columns surnames modes = Ok out').
  { destruct (find_matches_ok_cases _ _ _ _ _ Hout) as [H|[H|H]].
    - congruence.
    - unfold find_matches_in_dataframe. rewrite Heo, Htc, H. cbn. eauto.
    - now apply find_matches_returns. }
  destruct Hret as [out' Hout']. exists out'. split; [exact Hout'|].
  rewrite (find_matches_rows _ _ _ _ _ Hout'), Htc, Hrows.
  rewrite list_filter_filter. apply list_filter_iff. intros row.
  rewrite (row_hit_names out df _ _ _ _ Hnames). tauto.
Qed.

End Modes.

(** X22 at two targets and a table of three names. *)
Lemma both_modes_select_the_union_witness :
  exists both exact_rows substring_rows,
    find_matches_in_dataframe (E := Fragment.engine)
      (Demo.names_frame ["Lee"; "Leeds"; "Park"]) ["Name"] {[ "lee" ]}
      {| exact := true; substring := true; last_token_only := false |}
    = Ok both
    /\ find_matches_in_dataframe (E := Fragment.engine)
         (Demo.names_frame ["Lee"; "Leeds"; "Park"]) ["Name"] {[ "lee" ]}
         {| exact := true; substring := false; last_token_only := false |}
       = Ok exact_rows
    /\ find_matches_in_dataframe (E := Fragment.engine)
         (Demo.names_frame ["Lee"; "Leeds"; "Park"]) ["Name"] {[ "lee" ]}
         {| exact := false; substring := true; last_token_only := false |}
       = Ok substring_rows
    /\ forall row,
         row ∈ df_rows both
         <-> row ∈ df_rows exact_rows \/ row ∈ df_rows substring_rows.
Proof.
  apply (both_modes_select_the_union (E := Fragment.engine)).
  intros s Hs _. apply elem_of_singleton in Hs as ->.
  exists [Fragment.Lit "l"; Fragment.Lit "e"; Fragment.Lit "e"]. reflexivity.
Defined.

(** X24 at a table of two names. *)
Lemma matcher_is_idempotent_witness :
  exists out',
    find_matches_in_dataframe (E := Fragment.engine)
      (Demo.names_frame [" SMITH "]) [] (surnames_set ["Smith "])
      (Demo.exact_only false)
    = Ok out'
    /\ df_rows out' = df_rows (Demo.names_frame [" SMITH "]).
Proof.
  apply (matcher_is_idempotent (E := Fragment.engine)
           (Demo.names_frame ["Lee"; " SMITH "]) [] (surnames_set ["Smith "])
           (Demo.exact_only false)).
  vm_compute. reflexivity.
Defined.
